(** * Augmented-memory streaming self-attention

    A shallow embedding of
    [fairseq/models/speech_to_text/modules/augmented_memory_attention.py]:
    the attention suppression filter, the augmented-memory multi-head
    attention operator, the transformer layer around it and the
    convolutional-transformer encoder that drives the layers.

    Tensors are rank-3 arrays stored row-major, as contiguous torch
    tensors are.  The floating-point arithmetic of torch is an interface
    ([FloatOps]); the few IEEE-754 facts some proofs rely on are the laws
    [FloatLaws].  Tensors are taken at dtype float32, the toolkit's
    default, for which [.float()] and [.type_as(...)] are identities.
    Python exceptions are the [Raise] results of the monad [result]. *)

From Stdlib Require Import List Arith ZArith QArith Qcanon Lia Lra Lqa Bool.
Import ListNotations.
Close Scope Qc_scope.
Close Scope Q_scope.

Set Implicit Arguments.

(* ================================================================== *)
(** * Part I: definitions *)
(* ================================================================== *)

(** ** Python exceptions *)

Inductive error : Type :=
| RuntimeError      (* torch shape errors *)
| AssertionError
| IndexError
| TypeError
| ZeroDivisionError.

Inductive result (A : Type) : Type :=
| Ok (a : A)
| Raise (e : error).

Arguments Ok {A} a.
Arguments Raise {A} e.

Definition bind {A B : Type} (m : result A) (k : A -> result B) : result B :=
  match m with
  | Ok a => k a
  | Raise e => Raise e
  end.

Notation "x <- m ;; k" := (bind m (fun x => k))
  (at level 61, m at next level, right associativity).

Definition assert (b : bool) : result unit :=
  if b then Ok tt else Raise AssertionError.

(** What a call returns, the state it leaves aside. *)
Definition returned {A S : Type} (r : result (A * S)) : result A :=
  p <- r ;; Ok (fst p).

(** ** The floating-point interface *)

Class FloatOps (F : Type) : Type := {
  fzero : F;
  fone : F;
  feps : F;                     (* the literal 1e-8 *)
  neg_inf : F;                  (* float('-inf') *)
  fadd : F -> F -> F;
  fsub : F -> F -> F;
  fmul : F -> F -> F;
  fdiv : F -> F -> F;
  fmax : F -> F -> F;
  fsqrt : F -> F;
  fexp : F -> F;
  ftanh : F -> F;
  flt : F -> F -> bool;         (* x < y, false on NaN *)
  is_nan : F -> bool;
  is_finite : F -> bool;        (* neither NaN nor an infinity *)
  fnonzero : F -> bool;         (* x.to(torch.bool): x != 0 *)
  fof_nat : nat -> F;           (* an integer as a float *)
  fround : F -> Z               (* x.round().long() *)
}.

(** A score: a finite number, or the negative infinity of a mask. *)
Definition is_score {F : Type} {ops : FloatOps F} (x : F) : Prop :=
  is_finite x = true \/ x = neg_inf.

(** [0 <= x], an infinity included. *)
Definition nonneg {F : Type} {ops : FloatOps F} (x : F) : Prop :=
  x = fzero \/ flt fzero x = true.

(** The facts of IEEE-754 arithmetic the proofs use.  The two zeros are
    one value here. *)
Class FloatLaws (F : Type) {ops : FloatOps F} : Prop := {
  fadd_zero_r : forall a : F, fadd a fzero = a;
  (* NaN and zero through the operations of softmax and dropout *)
  is_nan_zero : is_nan (fzero : F) = false;
  fsub_neg_inf : forall y : F,
    fsub neg_inf y = neg_inf \/ is_nan (fsub neg_inf y) = true;
  fexp_neg_inf : fexp (neg_inf : F) = fzero;
  fexp_nan : forall x : F, is_nan x = true -> is_nan (fexp x) = true;
  fdiv_zero_l : forall s : F,
    fdiv fzero s = fzero \/ is_nan (fdiv fzero s) = true;
  fdiv_nan_l : forall x s : F, is_nan x = true -> is_nan (fdiv x s) = true;
  fmul_zero_l : forall m : F,
    fmul fzero m = fzero \/ is_nan (fmul fzero m) = true;
  fmul_nan_l : forall x m : F, is_nan x = true -> is_nan (fmul x m) = true;
  (* the maximum of scores *)
  fmax_choice : forall x y : F, fmax x y = x \/ fmax x y = y;
  fmax_finite_l : forall x y : F,
    is_finite x = true -> is_score y -> is_finite (fmax x y) = true;
  fmax_finite_r : forall x y : F,
    is_score x -> is_finite y = true -> is_finite (fmax x y) = true;
  (* exp(x - max) and its sum *)
  fsub_neg_inf_finite : forall y : F,
    is_finite y = true -> fsub neg_inf y = neg_inf;
  fsub_self : forall x : F, is_finite x = true -> fsub x x = fzero;
  fsub_score : forall x y : F,
    is_score x -> is_finite y = true -> is_nan (fsub x y) = false;
  fexp_zero : fexp (fzero : F) = fone;
  fexp_nonneg : forall x : F, is_nan x = false -> nonneg (fexp x);
  flt_zero_one : flt (fzero : F) fone = true;
  fadd_nonneg : forall a b : F, nonneg a -> nonneg b -> nonneg (fadd a b);
  fadd_pos_l : forall a b : F,
    flt fzero a = true -> nonneg b -> flt fzero (fadd a b) = true;
  fadd_pos_r : forall a b : F,
    nonneg a -> flt fzero b = true -> flt fzero (fadd a b) = true;
  fdiv_zero_pos : forall s : F, flt fzero s = true -> fdiv fzero s = fzero
}.

Arguments FloatLaws F {ops}.

Class Default (A : Type) : Type := dflt : A.

#[export] Instance Default_bool : Default bool := false.
#[export] Instance Default_float {F : Type} {ops : FloatOps F} : Default F :=
  @fzero F ops.

(** ** Rank-3 tensors *)

Module Torch.

Record Tensor (A : Type) : Type := mkTensor {
  dim0 : nat;
  dim1 : nat;
  dim2 : nat;
  tdata : list A                (* row-major storage *)
}.

Arguments mkTensor {A} dim0 dim1 dim2 tdata.

Section Generic.
Context {A : Type} {dA : Default A}.

Definition shape (t : Tensor A) : list nat := [dim0 t; dim1 t; dim2 t].

Definition numel (t : Tensor A) : nat := dim0 t * dim1 t * dim2 t.

(** The storage has as many elements as the shape says. *)
Definition wf (t : Tensor A) : Prop := length (tdata t) = numel t.

Definition tabulate {B : Type} (n : nat) (f : nat -> B) : list B :=
  map f (seq 0 n).

(** The tensor whose entry [(i, j, k)] is [f i j k]. *)
Definition init3 (d0 d1 d2 : nat) (f : nat -> nat -> nat -> A) : Tensor A :=
  mkTensor d0 d1 d2
    (concat (tabulate d0 (fun i =>
       concat (tabulate d1 (fun j => tabulate d2 (f i j)))))).

(** [t[i, j, k]] *)
Definition get3 (t : Tensor A) (i j k : nat) : A :=
  nth ((i * dim1 t + j) * dim2 t + k) (tdata t) dflt.

(** [t[i, j, :]] *)
Definition row (t : Tensor A) (i j : nat) : list A :=
  tabulate (dim2 t) (get3 t i j).

(** [t.new_full(t.size(), v)]; [new_zeros] is [full_like t 0]. *)
Definition full_like (t : Tensor A) (v : A) : Tensor A :=
  init3 (dim0 t) (dim1 t) (dim2 t) (fun _ _ _ => v).
End Generic.

Section Pointwise.
Context {A B C : Type} {dA : Default A} {dB : Default B} {dC : Default C}.

(** An elementwise operation. *)
Definition tmap (f : A -> B) (t : Tensor A) : Tensor B :=
  init3 (dim0 t) (dim1 t) (dim2 t) (fun i j k => f (get3 t i j k)).

(** A binary operation under torch's broadcasting: a dimension of size
    one is stretched to the other operand's size.  (Torch raises when
    two sizes differ and neither is one; no caller below does that.) *)
Definition bdim (a b : nat) : nat := if a =? 1 then b else a.
Definition bidx (d i : nat) : nat := if d =? 1 then 0 else i.

Definition broadcast2 (f : A -> B -> C) (a : Tensor A) (b : Tensor B)
  : Tensor C :=
  init3 (bdim (dim0 a) (dim0 b)) (bdim (dim1 a) (dim1 b))
        (bdim (dim2 a) (dim2 b))
    (fun i j k =>
       f (get3 a (bidx (dim0 a) i) (bidx (dim1 a) j) (bidx (dim2 a) k))
         (get3 b (bidx (dim0 b) i) (bidx (dim1 b) j) (bidx (dim2 b) k))).

(** A function of the rows along the last dimension, the results kept
    in a last dimension of size one ([dim=-1, keepdim=True]). *)
Definition reduce_rows (g : list A -> B) (t : Tensor A) : Tensor B :=
  init3 (dim0 t) (dim1 t) 1 (fun i j _ => g (row t i j)).

(** A length-preserving function applied to every row along the last
    dimension. *)
Definition map_rows (g : list A -> list B) (t : Tensor A) : Tensor B :=
  init3 (dim0 t) (dim1 t) (dim2 t) (fun i j k => nth k (g (row t i j)) dflt).
End Pointwise.

(** [torch.where(c, a, b)] on three tensors of one shape. *)
Definition where_ {A : Type} {dA : Default A}
    (c : Tensor bool) (a b : Tensor A) : Tensor A :=
  init3 (dim0 c) (dim1 c) (dim2 c)
    (fun i j k => if get3 c i j k then get3 a i j k else get3 b i j k).

Section Floats.
Context {F : Type} {ops : FloatOps F}.

(** [torch.sum] of a row, accumulated from zero. *)
Definition fsum (l : list F) : F := fold_left fadd l fzero.

Definition row_max (r : list F) : F :=
  match r with
  | [] => neg_inf
  | x :: r' => fold_left fmax r' x
  end.

(** The numerically stable softmax of one row:
    [exp(x - max) / sum(exp(x - max))]. *)
Definition softmax_row (r : list F) : list F :=
  let mx := row_max r in
  let e := map (fun x => fexp (fsub x mx)) r in
  let s := fsum e in
  map (fun v => fdiv v s) e.

(** [torch.nn.functional.softmax(t, dim=-1)] *)
Definition softmax (t : Tensor F) : Tensor F := map_rows softmax_row t.

(** [torch.sum(t, dim=-1, keepdim=True)] *)
Definition sum_keepdim (t : Tensor F) : Tensor F := reduce_rows fsum t.

(** [b.to(torch.float)] for a boolean tensor *)
Definition of_bool (b : bool) : F := if b then fone else fzero.

(** [t.float()] and [t.type_as(other)] at dtype float32 *)
Definition float_ (t : Tensor F) : Tensor F := t.
Definition type_as (t other : Tensor F) : Tensor F := t.

(** [torch.nn.LayerNorm] over the last dimension as it is initialised
    (unit weight, zero bias): [(x - mean) / sqrt(var + eps)] with the
    biased variance. *)
Definition layer_norm_row (eps : F) (r : list F) : list F :=
  let n := fof_nat (length r) in
  let mean := fdiv (fsum r) n in
  let var :=
    fdiv (fsum (map (fun x => fmul (fsub x mean) (fsub x mean)) r)) n in
  map (fun x => fdiv (fsub x mean) (fsqrt (fadd var eps))) r.

Definition layer_norm (eps : F) (t : Tensor F) : Tensor F :=
  map_rows (layer_norm_row eps) t.
End Floats.

(** *** Python slices *)

(** The position a slice bound denotes in a sequence of length [len]:
    a negative bound counts from the end, and bounds are clipped. *)
Definition slice_index (len : nat) (i : Z) : nat :=
  if (i <? 0)%Z then Z.to_nat (Z.of_nat len + i)
  else Nat.min (Z.to_nat i) len.

Definition slice_lo (len : nat) (start : option Z) : nat :=
  match start with
  | Some i => slice_index len i
  | None => 0
  end.

Definition slice_hi (len : nat) (stop : option Z) : nat :=
  match stop with
  | Some i => slice_index len i
  | None => len
  end.

(** [l[start:stop]] on a Python list *)
Definition list_slice {A : Type} (l : list A) (start stop : option Z) : list A :=
  let lo := slice_lo (length l) start in
  let hi := slice_hi (length l) stop in
  firstn (hi - lo) (skipn lo l).

Section Shapes.
Context {A : Type} {dA : Default A}.

(** [t[start:stop]] along the first dimension *)
Definition slice0 (t : Tensor A) (start stop : option Z) : Tensor A :=
  let lo := slice_lo (dim0 t) start in
  let hi := slice_hi (dim0 t) stop in
  let stride := dim1 t * dim2 t in
  mkTensor (hi - lo) (dim1 t) (dim2 t)
    (firstn ((hi - lo) * stride) (skipn (lo * stride) (tdata t))).

(** [torch.cat(ts, dim=0)] *)
Definition cat0 (ts : list (Tensor A)) : result (Tensor A) :=
  match ts with
  | [] => Raise RuntimeError
  | t :: rest =>
      if forallb (fun u => (dim1 u =? dim1 t) && (dim2 u =? dim2 t)) rest
      then Ok (mkTensor (list_sum (map (@dim0 A) ts)) (dim1 t) (dim2 t)
                 (concat (map (@tdata A) ts)))
      else Raise RuntimeError
  end.

(** [t.view(d0, d1, d2)] of a contiguous tensor *)
Definition view (t : Tensor A) (d0 d1 d2 : nat) : result (Tensor A) :=
  if numel t =? d0 * d1 * d2
  then Ok (mkTensor d0 d1 d2 (tdata t))
  else Raise RuntimeError.

(** [t.view(-1, d1, d2)]: the first size is inferred; torch refuses when
    the given sizes multiply to zero or do not divide the element count. *)
Definition view_infer (t : Tensor A) (d1 d2 : nat) : result (Tensor A) :=
  let newsize := d1 * d2 in
  if (numel t =? newsize) || ((0 <? newsize) && (numel t mod newsize =? 0))
  then if newsize =? 0 then Raise RuntimeError
       else Ok (mkTensor (numel t / newsize) d1 d2 (tdata t))
  else Raise RuntimeError.

(** [t.transpose(0, 1).contiguous()] *)
Definition transpose01 (t : Tensor A) : Tensor A :=
  init3 (dim1 t) (dim0 t) (dim2 t) (fun i j k => get3 t j i k).

(** [t.transpose(1, 2)] *)
Definition transpose12 (t : Tensor A) : Tensor A :=
  init3 (dim0 t) (dim2 t) (dim1 t) (fun i j k => get3 t i k j).

(** [t[:, -1, :m] = v] *)
Definition fill_last_row (t : Tensor A) (m : nat) (v : A) : result (Tensor A) :=
  if dim1 t =? 0 then Raise IndexError
  else Ok (init3 (dim0 t) (dim1 t) (dim2 t)
             (fun i j k =>
                if (j =? dim1 t - 1) && (k <? m) then v else get3 t i j k)).

(** [t.masked_fill(mask, v)] for a mask of the tensor's shape *)
Definition masked_fill (t : Tensor A) (mask : Tensor bool) (v : A) : Tensor A :=
  init3 (dim0 t) (dim1 t) (dim2 t)
    (fun i j k => if get3 mask i j k then v else get3 t i j k).
End Shapes.

(** [mask.any()] *)
Definition any (mask : Tensor bool) : bool := existsb (fun b => b) (tdata mask).

(** *** Boolean matrices: padding masks of shape (batch, time) *)

Record Mask : Type := mkMask {
  mrows : nat;
  mcols : nat;
  mdata : list bool
}.

Definition init2 (r c : nat) (f : nat -> nat -> bool) : Mask :=
  mkMask r c (concat (tabulate r (fun i => tabulate c (f i)))).

Definition get2 (m : Mask) (i j : nat) : bool :=
  nth (i * mcols m + j) (mdata m) false.

Definition mask_any (m : Mask) : bool := existsb (fun b => b) (mdata m).

(** [m.new_zeros(r, c)] *)
Definition mask_zeros (r c : nat) : Mask := init2 r c (fun _ _ => false).

(** [torch.cat([a, b], dim=1)] *)
Definition mask_cat1 (a b : Mask) : result Mask :=
  if mrows a =? mrows b
  then Ok (init2 (mrows a) (mcols a + mcols b)
             (fun i j => if j <? mcols a then get2 a i j
                         else get2 b i (j - mcols a)))
  else Raise RuntimeError.

(** [m[:, start:stop]] *)
Definition mask_slice1 (m : Mask) (start stop : option Z) : Mask :=
  let lo := slice_lo (mcols m) start in
  let hi := slice_hi (mcols m) stop in
  init2 (mrows m) (hi - lo) (fun i j => get2 m i (lo + j)).

(** [(~ m).sum(dim=1, keepdim=True).long()]: per row, the number of
    entries that are not set. *)
Definition mask_count_false (m : Mask) : list Z :=
  tabulate (mrows m) (fun i =>
    Z.of_nat (length (filter negb (tabulate (mcols m) (get2 m i))))).

Section FloatTensors.
Context {F : Type} {ops : FloatOps F}.

(** [torch.bmm(a, b)] *)
Definition bmm (a b : Tensor F) : result (Tensor F) :=
  if (dim0 a =? dim0 b) && (dim2 a =? dim1 b)
  then Ok (init3 (dim0 a) (dim1 a) (dim2 b)
             (fun i j k =>
                fsum (tabulate (dim2 a)
                        (fun e => fmul (get3 a i j e) (get3 b i e k)))))
  else Raise RuntimeError.

(** [torch.nn.Linear]: [y = x W^T + b] on the last dimension *)
Record Linear : Type := mkLinear {
  in_features : nat;
  out_features : nat;
  weight : nat -> nat -> F;     (* weight[o][e] *)
  bias : nat -> F
}.

Definition linear (l : Linear) (x : Tensor F) : result (Tensor F) :=
  if dim2 x =? in_features l
  then Ok (init3 (dim0 x) (dim1 x) (out_features l)
             (fun i j o =>
                fadd (fsum (tabulate (in_features l)
                              (fun e => fmul (get3 x i j e) (weight l o e))))
                     (bias l o)))
  else Raise RuntimeError.

(** [a + b] with broadcasting *)
Definition broadcastable (a b : nat) : bool :=
  (a =? b) || (a =? 1) || (b =? 1).

Definition tensor_add (a b : Tensor F) : result (Tensor F) :=
  if broadcastable (dim0 a) (dim0 b) && broadcastable (dim1 a) (dim1 b)
     && broadcastable (dim2 a) (dim2 b)
  then Ok (broadcast2 fadd a b)
  else Raise RuntimeError.

(** Dropout: in training mode every entry is multiplied by the entry of a
    freshly drawn mask (zero, or [1 / (1 - p)]); in evaluation mode the
    tensor passes through. *)
Definition Dropout : Type := option (nat -> nat -> nat -> F).

Definition dropout (d : Dropout) (t : Tensor F) : Tensor F :=
  match d with
  | None => t
  | Some mk =>
      init3 (dim0 t) (dim1 t) (dim2 t)
        (fun i j k => fmul (get3 t i j k) (mk i j k))
  end.

(** [torch.mean(t, dim=0, keepdim=True)] *)
Definition mean0 (t : Tensor F) : Tensor F :=
  init3 1 (dim1 t) (dim2 t)
    (fun _ j k =>
       fdiv (fsum (tabulate (dim0 t) (fun i => get3 t i j k)))
            (fof_nat (dim0 t))).

(** The composite
    [t.view(B, H, T, S).masked_fill(mask.unsqueeze(1).unsqueeze(2), v)
      .view(B * H, T, S)]
    with [T, S] the last two sizes of [t]: head [h] of batch element [b]
    is the slice [b * H + h]; the mask is broadcast over heads and
    queries. *)
Definition masked_fill_heads (t : Tensor F) (B H : nat) (mask : Mask) (v : F)
  : result (Tensor F) :=
  if negb (numel t =? B * H * dim1 t * dim2 t) then Raise RuntimeError
  else if negb (((mrows mask =? B) || (mrows mask =? 1))
                && ((mcols mask =? dim2 t) || (mcols mask =? 1)))
  then Raise RuntimeError
  else Ok (init3 (B * H) (dim1 t) (dim2 t)
             (fun bh i j =>
                if get2 mask (bidx (mrows mask) (bh / H)) (bidx (mcols mask) j)
                then v else get3 t bh i j)).
End FloatTensors.

End Torch.

Import Torch.

(** ** attention suppression *)

Section AttentionSuppression.
Context {F : Type} {ops : FloatOps F}.

Definition attention_suppression (attention_weights : Tensor F) (scale : F)
  : Tensor F :=
  (* B, H, qlen, klen -> B, H, qlen, 1 *)
  let attention_prob := softmax (float_ attention_weights) in
  let attention_nozeros := tmap fnonzero attention_prob in
  let nozeros_sum := sum_keepdim (tmap of_bool attention_nozeros) in
  (* For very sparse situation, we need get round about 0s *)
  let key_sum := sum_keepdim attention_prob in
  (* nozeros_sum should > 1 *)
  let key_mean :=
    broadcast2 fdiv key_sum (tmap (fun n => fadd n feps) nozeros_sum) in
  (* std calculation *)
  let dis :=
    broadcast2 fmul (broadcast2 fsub attention_prob key_mean)
                    (broadcast2 fsub attention_prob key_mean) in
  let dis_masked :=
    where_ attention_nozeros dis (full_like attention_prob fzero) in
  let key_var := sum_keepdim dis_masked in
  let key_var :=
    broadcast2 fdiv key_var
      (tmap (fun n => fadd (fsub n fone) feps) nozeros_sum) in
  let key_std := tmap fsqrt key_var in
  let key_thread := broadcast2 fsub key_mean (tmap (fmul scale) key_std) in
  (* if attention_prob[i] >= key_thread, then attention_prob[i],
     otherwise "-inf" *)
  let inf_tensor := full_like (full_like attention_prob fzero) neg_inf in
  let attention_weights_float :=
    where_ (broadcast2 flt attention_prob key_thread)
           inf_tensor (float_ attention_weights) in
  type_as attention_weights_float attention_weights.

(** *** The filter as the specification words it, one query row at a time *)

(** The number of strictly nonzero entries of a row of probabilities. *)
Definition nonzero_count (p : list F) : nat := length (filter fnonzero p).

(** A count as a float: [n] ones added up, which is how the source
  obtains it (the sum of the indicator tensor). *)
Definition count_to_float (n : nat) : F :=
  Nat.iter n (fun a => fadd a fone) fzero.

Definition spec_mean (p : list F) : F :=
  fdiv (fsum p) (fadd (count_to_float (nonzero_count p)) feps).

(** The squared distances to the mean, summed over the nonzero entries. *)
Definition spec_var (p : list F) : F :=
  let mean := spec_mean p in
  fdiv (fsum (map (fun x => fmul (fsub x mean) (fsub x mean))
                  (filter fnonzero p)))
       (fadd (fsub (count_to_float (nonzero_count p)) fone) feps).

Definition spec_threshold (s : F) (p : list F) : F :=
  fsub (spec_mean p) (fmul s (fsqrt (spec_var p))).
End AttentionSuppression.

(** ** Per-layer state *)

(** The dictionary [{"memory_banks": ..., "encoder_states": ...}]; an
    entry holding [None] is [None] here.  Every state is owned by one
    layer and no two entries of a per-stream list are the same object, so
    the in-place updates of the source are written as state passing. *)
Record State (F : Type) : Type := mkState {
  memory_banks : option (list (Tensor F));
  encoder_states : option (Tensor F)
}.

Arguments mkState {F} memory_banks encoder_states.

(** [state["memory_banks"]] once the layer has initialised it: the list,
    or the empty list for [None]. *)
Definition stored_banks {F : Type} (state : State F) : list (Tensor F) :=
  match memory_banks state with
  | Some banks => banks
  | None => []
  end.

(** ** AugmentedMemoryMultiheadAttention *)

Module AugmentedMemoryMultiheadAttention.
Section Attention.
Context {F : Type} {ops : FloatOps F}.

(** The module's configuration and parameters.  The projections, the
    scaling factor and the dropout module come from the base class
    [MultiheadAttention]. *)
Record t : Type := mk {
  embed_dim : nat;
  num_heads : nat;
  head_dim : nat;
  scaling : F;
  q_proj : Linear (F := F);
  k_proj : Linear (F := F);
  v_proj : Linear (F := F);
  out_proj : Linear (F := F);
  dropout_module : Dropout (F := F);
  std_scale : option F;
  max_memory_size : Z;
  disable_mem_on_mem_attn : bool;
  nonlinear_squash_mem : bool   (* tanh_on_mem *)
}.

(** [self.v2e = lambda x: x] *)
Definition v2e (x : Tensor F) : Tensor F := x.

Definition squash_mem (self : t) (x : Tensor F) : Tensor F :=
  if nonlinear_squash_mem self then tmap ftanh x else x.

(** The memory banks the call attends to: the stored list, cut to its
    last [max_memory_size] entries when a cap is configured. *)
Definition retained_banks (self : t) (memory_banks : list (Tensor F))
  : list (Tensor F) :=
  if (max_memory_size self >? -1)%Z
     && (Z.of_nat (length memory_banks) >? max_memory_size self)%Z
  then if (max_memory_size self =? 0)%Z then []
       else list_slice memory_banks (Some (- max_memory_size self)%Z) None
  else memory_banks.

(** [q.contiguous().view(-1, batch_size * num_heads, head_dim)
      .transpose(0, 1)] *)
Definition split_heads (self : t) (batch_size : nat) (x : Tensor F)
  : result (Tensor F) :=
  x' <- view_infer x (batch_size * num_heads self) (head_dim self) ;;
  Ok (transpose01 x').

Definition shape_is (s : list nat) (expected : list Z) : bool :=
  if list_eq_dec Z.eq_dec (map Z.of_nat s) expected then true else false.

(** The local variables of [forward] a caller cannot see otherwise. *)
Record Locals : Type := mkLocals {
  l_memory_banks : list (Tensor F);     (* after the cap *)
  l_scores : Tensor F;                  (* attention_weights, first assertion *)
  l_masked : Tensor F;                  (* after the key padding mask *)
  l_softmax : Tensor F;                 (* attention_weights after softmax *)
  l_attention_probs : Tensor F;         (* after dropout and NaN replacement *)
  l_attention : Tensor F;               (* second assertion *)
  l_output_and_memory : Tensor F
}.

(** Lines 311-330: the projections, split across the heads. *)
Definition project (self : t) (batch_size : nat)
    (input_and_summary memory_banks_and_input : Tensor F)
  : result (Tensor F * Tensor F * Tensor F) :=
  q <- linear (q_proj self) (v2e input_and_summary) ;;
  k <- linear (k_proj self) (v2e memory_banks_and_input) ;;
  v <- linear (v_proj self) (v2e memory_banks_and_input) ;;
  q <- split_heads self batch_size q ;;
  let q := tmap (fun a => fmul a (scaling self)) q in
  k <- split_heads self batch_size k ;;
  v <- split_heads self batch_size v ;;
  Ok (q, k, v).

(** Lines 334-340: the summary row is barred from the memory columns and
    the suppression filter is applied. *)
Definition restrict (self : t) (memory_banks : list (Tensor F))
    (attention_weights : Tensor F) : result (Tensor F) :=
  attention_weights <-
    (if disable_mem_on_mem_attn self
     then (* Don't let summary attend on previous history *)
          fill_last_row attention_weights (List.length memory_banks) neg_inf
     else Ok attention_weights) ;;
  Ok match std_scale self with
     | Some s => attention_suppression attention_weights s
     | None => attention_weights
     end.

(** Lines 348-368: the key padding mask, when it marks anything. *)
Definition pad (self : t) (batch_size : nat) (memory_banks : list (Tensor F))
    (attention_weights : Tensor F) (key_padding_mask : option Mask)
  : result (Tensor F) :=
  match key_padding_mask with
  | Some kpm =>
      if mask_any kpm
      then (* Add zeros at beginning for memory banks *)
           kpm' <- mask_cat1
                     (mask_zeros batch_size (List.length memory_banks))
                     kpm ;;
           masked_fill_heads attention_weights batch_size (num_heads self)
             kpm' neg_inf
      else Ok attention_weights
  | None => Ok attention_weights
  end.

(** Lines 380-384: NaN entries are replaced by zero. *)
Definition replace_nan (attention_probs : Tensor F) : Tensor F :=
  let attention_probs_nan_mask := tmap is_nan attention_probs in
  if any attention_probs_nan_mask
  then masked_fill attention_probs attention_probs_nan_mask fzero
  else attention_probs.

Definition forward_locals (self : t) (input_and_summary : Tensor F)
    (state : State F) (key_padding_mask : option Mask) : result Locals :=
  let length := dim0 input_and_summary in
  let batch_size := dim1 input_and_summary in
  let seg_length := (Z.of_nat length - 1)%Z in (* not include sum_query *)
  (* Memory banks, a list *)
  stored <- match memory_banks state with
            | Some l => Ok l
            | None => Raise TypeError
            end ;;
  let memory_banks := retained_banks self stored in
  memory_banks_and_input <-
    cat0 (memory_banks ++ [slice0 input_and_summary None (Some (-1)%Z)]) ;;
  qkv <- project self batch_size input_and_summary memory_banks_and_input ;;
  let q := fst (fst qkv) in
  let k := snd (fst qkv) in
  let v := snd qkv in
  attention_weights <- bmm q (transpose12 k) ;;
  attention_weights <- restrict self memory_banks attention_weights ;;
  _ <- assert (shape_is (shape attention_weights)
                 [Z.of_nat (batch_size * num_heads self);
                  seg_length + 1;
                  seg_length + Z.of_nat (List.length memory_banks)]%Z) ;;
  let scores := attention_weights in
  attention_weights <-
    pad self batch_size memory_banks attention_weights key_padding_mask ;;
  let masked := attention_weights in
  let attention_weights :=
    type_as (softmax (float_ attention_weights)) attention_weights in
  let attention_probs := dropout (dropout_module self) attention_weights in
  (* Key padding mask can be all true ...  It results nan in attention
     weights.  Replacing the nan with zero should solve the problem. *)
  let attention_probs := replace_nan attention_probs in
  attention <- bmm attention_probs v ;;
  _ <- assert (shape_is (shape attention)
                 [Z.of_nat (batch_size * num_heads self);
                  seg_length + 1;
                  Z.of_nat (head_dim self)]%Z) ;;
  attention' <- view (transpose01 attention) (Z.to_nat (seg_length + 1))
                  batch_size (embed_dim self) ;;
  output_and_memory <- linear (out_proj self) attention' ;;
  Ok (mkLocals memory_banks scores masked attention_weights attention_probs
        attention output_and_memory).

Definition forward (self : t) (input_and_summary : Tensor F)
    (state : State F) (key_padding_mask : option Mask)
  : result (Tensor F * State F) :=
  locals <- forward_locals self input_and_summary state key_padding_mask ;;
  let output_and_memory := l_output_and_memory locals in
  let next_m := slice0 output_and_memory (Some (-1)%Z) None in
  let next_m := squash_mem self next_m in
  let output := slice0 output_and_memory None (Some (-1)%Z) in
  (* state["memory_banks"].append(next_m) *)
  stored <- match memory_banks state with
            | Some l => Ok l
            | None => Raise TypeError
            end ;;
  Ok (output,
      mkState (Some (stored ++ [next_m])) (encoder_states state)).

(** The state after a run of calls, one per segment. *)
Fixpoint forward_all (self : t) (calls : list (Tensor F * option Mask))
    (state : State F) : result (State F) :=
  match calls with
  | [] => Ok state
  | (input_and_summary, key_padding_mask) :: rest =>
      r <- forward self input_and_summary state key_padding_mask ;;
      forward_all self rest (snd r)
  end.

(** *** Well-shaped calls *)

(** The constructor's invariants: the heads partition the embedding and
    the four projections map it to itself. *)
Definition wf_module (self : t) : Prop :=
  embed_dim self = num_heads self * head_dim self
  /\ 0 < num_heads self /\ 0 < head_dim self
  /\ (forall l, In l [q_proj self; k_proj self; v_proj self; out_proj self] ->
        in_features l = embed_dim self /\ out_features l = embed_dim self).

(** A memory bank entry for batch size [B]: shape (1, B, embed_dim). *)
Definition bank_ok (self : t) (B : nat) (m : Tensor F) : Prop :=
  shape m = [1; B; embed_dim self].

(** A segment of [L] frames and its summary, for batch size [B]. *)
Definition input_ok (self : t) (L B : nat) (x : Tensor F) : Prop :=
  shape x = [L + 1; B; embed_dim self] /\ 0 < B.

(** A padding mask over the [L] frames of the segment, when given. *)
Definition mask_ok (L B : nat) (key_padding_mask : option Mask) : Prop :=
  match key_padding_mask with
  | Some kpm => mrows kpm = B /\ mcols kpm = L
  | None => True
  end.

(** A run of well-shaped calls for batch size [B]; the segment length
    may differ from call to call. *)
Definition calls_ok (self : t) (B : nat)
    (calls : list (Tensor F * option Mask)) : Prop :=
  Forall (fun c => exists L, input_ok self L B (fst c)
                             /\ mask_ok L B (snd c)) calls.

(** The length of the stored memory bank list. *)
Definition bank_count (state : State F) : nat :=
  match memory_banks state with
  | Some banks => List.length banks
  | None => 0
  end.
End Attention.
End AugmentedMemoryMultiheadAttention.

(** ** AugmentedMemoryTransformerEncoderLayer *)

Module AugmentedMemoryTransformerEncoderLayer.
Section Layer.
Context {F : Type} {ops : FloatOps F}.

(** The layer norms, the feed-forward block and the dropout modules come
    from the base class [TransformerEncoderLayer]. *)
Record t : Type := mk {
  self_attn : AugmentedMemoryMultiheadAttention.t (F := F);
  left_context : nat;           (* args.left_context // args.encoder_stride *)
  right_context : nat;          (* args.right_context // args.encoder_stride *)
  normalize_before : bool;
  self_attn_layer_norm : Tensor F -> Tensor F;
  final_layer_norm : Tensor F -> Tensor F;
  fc1 : Linear (F := F);
  fc2 : Linear (F := F);
  activation_fn : F -> F;
  dropout_module : Dropout (F := F);
  activation_dropout_module : Dropout (F := F)
}.

Definition summarize_segment (segment : Tensor F) : Tensor F :=
  (* TODO explore more options here *)
  mean0 segment.

(** [x] as it stands when the segment is summarized. *)
Definition pre_norm (self : t) (x : Tensor F) : Tensor F :=
  if normalize_before self then self_attn_layer_norm self x else x.

Definition summarization_query (self : t) (x : Tensor F) : Tensor F :=
  let length := dim0 x in
  let batch_size := dim1 x in
  let x_dim := dim2 x in
  let x := pre_norm self x in
  let seg_start := Z.of_nat (left_context self) in
  let seg_end := (Z.of_nat length - Z.of_nat (right_context self))%Z in
  if (seg_start <? seg_end)%Z
  then summarize_segment (slice0 x (Some seg_start) (Some seg_end))
  else init3 1 batch_size x_dim (fun _ _ _ => fzero).

(** The tensor handed to the attention operator:
    [torch.cat([x, summarization_query], dim=0)]. *)
Definition input_and_summary (self : t) (x : Tensor F) : result (Tensor F) :=
  cat0 [pre_norm self x; summarization_query self x].

Definition forward (self : t) (x : Tensor F) (state : State F)
    (encoder_padding_mask : option Mask) : result (Tensor F * State F) :=
  let residual := x in
  (* Init memory banks *)
  let state :=
    match memory_banks state with
    | None => mkState (Some []) (encoder_states state)
    | Some _ => state
    end in
  x <- input_and_summary self x ;;
  r <- AugmentedMemoryMultiheadAttention.forward (self_attn self) x state
         encoder_padding_mask ;;
  let x := fst r in
  let state := snd r in
  let x := dropout (dropout_module self) x in
  x <- tensor_add residual x ;;
  let x := if negb (normalize_before self)
           then self_attn_layer_norm self x else x in
  let residual := x in
  let x := if normalize_before self then final_layer_norm self x else x in
  x <- linear (fc1 self) x ;;
  let x := tmap (activation_fn self) x in
  let x := dropout (activation_dropout_module self) x in
  x <- linear (fc2 self) x ;;
  let x := dropout (dropout_module self) x in
  x <- tensor_add residual x ;;
  let x := if negb (normalize_before self)
           then final_layer_norm self x else x in
  Ok (x, state).

(** *** Well-shaped layers *)

(** The base class's invariants: the layer norms keep the shape and the
    feed-forward block maps the embedding to itself. *)
Definition wf_layer (self : t) : Prop :=
  AugmentedMemoryMultiheadAttention.wf_module (self_attn self)
  /\ in_features (fc1 self)
     = AugmentedMemoryMultiheadAttention.embed_dim (self_attn self)
  /\ in_features (fc2 self) = out_features (fc1 self)
  /\ out_features (fc2 self)
     = AugmentedMemoryMultiheadAttention.embed_dim (self_attn self)
  /\ (forall y, shape (self_attn_layer_norm self y) = shape y)
  /\ (forall y, shape (final_layer_norm self y) = shape y).
End Layer.
End AugmentedMemoryTransformerEncoderLayer.

(** ** AugmentedMemoryConvTransformerEncoder *)

(** [l[i]] on a Python list *)
Definition list_index {A : Type} (l : list A) (i : Z) : result A :=
  let n := (if i <? 0 then Z.of_nat (length l) + i else i)%Z in
  if (n <? 0)%Z then Raise IndexError
  else match nth_error l (Z.to_nat n) with
       | Some a => Ok a
       | None => Raise IndexError
       end.

(** [l[i] = v] for an index in range *)
Fixpoint list_set {A : Type} (l : list A) (i : nat) (v : A) : list A :=
  match l, i with
  | [], _ => []
  | _ :: l', O => v :: l'
  | a :: l', S i' => a :: list_set l' i' v
  end.

(** [functools.reduce(f, xs)] without an initial value *)
Definition reduce {A : Type} (f : A -> A -> A) (xs : list A) : result A :=
  match xs with
  | [] => Raise TypeError
  | x :: xs' => Ok (fold_left f xs' x)
  end.

(** The elements of a generator, in the order they are drawn; the first
    failure ends it. *)
Fixpoint generate {A B : Type} (f : A -> result B) (l : list A)
  : result (list B) :=
  match l with
  | [] => Ok []
  | a :: l' => b <- f a ;; bs <- generate f l' ;; Ok (b :: bs)
  end.

Module AugmentedMemoryConvTransformerEncoder.

(** A layer of the subsampling stack [self.conv], as [stride] reads it:
    the layer's [stride] attribute (a convolution has one, a tuple; an
    activation has none). *)
Definition ConvLayer : Type := option (list Z).

(** [getattr(layer, 'stride', [1])[0]] *)
Definition first_stride (layer : ConvLayer) : result Z :=
  list_index (match layer with Some s => s | None => [1%Z] end) 0.

Definition stride (conv : list ConvLayer) : result Z :=
  (* Assuse there is only stride in conv layers *)
  xs <- generate first_stride conv ;;
  reduce Z.mul xs.

(** The stride a layer contributes to the product: the first entry of
    its [stride] attribute, and one for a layer without the attribute. *)
Definition stride_of (layer : ConvLayer) : Z :=
  match layer with
  | Some (s :: _) => s
  | _ => 1%Z
  end.

(** A [stride] attribute that is an empty tuple. *)
Definition empty_stride (layer : ConvLayer) : bool :=
  match layer with
  | Some [] => true
  | _ => false
  end.

Section Encoder.
Context {F : Type} {ops : FloatOps F}.

(** The subsampling stack, the positional embedding and the mask helper
    come from [ConvTransformerEncoder] and
    [fairseq.models.speech_to_text.utils]; [conv_out] stands for the
    reshapes around [self.conv] and the projection [self.out], from
    [(batch, time, channels * feature)] to [(time', batch, dim)]. *)
Record t : Type := mk {
  transformer_layers : list (AugmentedMemoryTransformerEncoderLayer.t (F := F));
  left_context_after_stride : nat;
  right_context_after_stride : nat;
  conv_out : Tensor F -> result (Tensor F);
  embed_scale : F;
  embed_positions : Mask -> Tensor F;
  lengths_to_encoder_padding_mask : list Z -> Mask;
  dropout : Dropout (F := F)
}.

(** [x[left : -right if right > 0 else None]] *)
Definition trim_context (self : t) (x : Tensor F) : Tensor F :=
  slice0 x (Some (Z.of_nat (left_context_after_stride self)))
    (if 0 <? right_context_after_stride self
     then Some (- Z.of_nat (right_context_after_stride self))%Z
     else None).

Definition trim_mask (self : t) (m : Mask) : Mask :=
  mask_slice1 m (Some (Z.of_nat (left_context_after_stride self)))
    (if 0 <? right_context_after_stride self
     then Some (- Z.of_nat (right_context_after_stride self))%Z
     else None).

(** [x += positions] *)
Definition tensor_iadd (x p : Tensor F) : result (Tensor F) :=
  if ((dim0 p =? dim0 x) || (dim0 p =? 1))
     && ((dim1 p =? dim1 x) || (dim1 p =? 1))
     && ((dim2 p =? dim2 x) || (dim2 p =? 1))
  then Ok (init3 (dim0 x) (dim1 x) (dim2 x)
             (fun i j k =>
                fadd (get3 x i j k)
                     (get3 p (bidx (dim0 p) i) (bidx (dim1 p) j)
                             (bidx (dim2 p) k))))
  else Raise RuntimeError.

(** The loop over the layers, from layer [i] on. *)
Fixpoint run_layers
    (self : t)
    (layers : list (AugmentedMemoryTransformerEncoderLayer.t (F := F)))
    (i : nat) (x : Tensor F) (states : list (State F))
    (encoder_padding_mask : Mask) : result (Tensor F * list (State F)) :=
  match layers with
  | [] => Ok (x, states)
  | layer :: rest =>
      st <- list_index states (Z.of_nat i) ;;
      r <- AugmentedMemoryTransformerEncoderLayer.forward layer x st
             (Some encoder_padding_mask) ;;
      let x := fst r in
      let st := mkState (memory_banks (snd r))
                  (Some (trim_context self x)) in
      run_layers self rest (S i) x (list_set states i st)
        encoder_padding_mask
  end.

(** Lines 63-94: subsampling, the rescaled lengths, the padding mask
    and the positional embedding. *)
Definition embed (self : t) (src_tokens : Tensor F) (src_lengths : list nat)
  : result (Tensor F * Mask) :=
  let max_seq_len := dim1 src_tokens in
  x <- conv_out self src_tokens ;;
  let output_seq_len := dim0 x in
  let x := tmap (fmul (embed_scale self)) x in
  subsampling_factor <-
    (if output_seq_len =? 0 then Raise ZeroDivisionError
     else Ok (fdiv (fmul fone (fof_nat max_seq_len))
                   (fof_nat output_seq_len))) ;;
  let input_lengths :=
    map (fun n => fround (fdiv (fof_nat n) subsampling_factor)) src_lengths in
  let encoder_padding_mask :=
    lengths_to_encoder_padding_mask self input_lengths in
  (* TODO: fix positional embedding *)
  let positions := transpose01 (embed_positions self encoder_padding_mask) in
  x <- tensor_iadd x positions ;;
  let x := Torch.dropout (dropout self) x in
  Ok (x, encoder_padding_mask).

(** [states] as the loop uses it: the caller's list, or a fresh state
    per layer. *)
Definition initial_states (self : t) (states : option (list (State F)))
  : list (State F) :=
  match states with
  | Some s => s
  | None => map (fun _ => mkState None None) (transformer_layers self)
  end.

Definition forward (self : t) (src_tokens : Tensor F) (src_lengths : list nat)
    (states : option (list (State F)))
  : result (option (Tensor F) * list Z * list (State F)) :=
  e <- embed self src_tokens src_lengths ;;
  let x := fst e in
  let encoder_padding_mask := snd e in
  (* State to store memory banks etc. *)
  let states := initial_states self states in
  r <- run_layers self (transformer_layers self) 0 x states
         encoder_padding_mask ;;
  let states := snd r in
  let lengths := mask_count_false (trim_mask self encoder_padding_mask) in
  last <- list_index states (-1)%Z ;;
  Ok (encoder_states last, lengths, states).

(** *** The layers one after the other

    What each layer returns when layer [i] runs on the output of layer
    [i - 1] and on the [i]-th state. *)
Fixpoint layer_chain
    (layers : list (AugmentedMemoryTransformerEncoderLayer.t (F := F)))
    (x : Tensor F) (states : list (State F)) (encoder_padding_mask : Mask)
  : result (list (Tensor F * State F)) :=
  match layers, states with
  | [], _ => Ok []
  | layer :: layers', st :: states' =>
      r <- AugmentedMemoryTransformerEncoderLayer.forward layer x st
             (Some encoder_padding_mask) ;;
      rest <- layer_chain layers' (fst r) states' encoder_padding_mask ;;
      Ok (r :: rest)
  | _ :: _, [] => Raise IndexError
  end.

(** The state a layer leaves behind once the encoder has stored the
    trimmed output in it. *)
Definition finish (self : t) (r : Tensor F * State F) : State F :=
  mkState (memory_banks (snd r)) (Some (trim_context self (fst r))).

(** [e] is [y] without its first [l] and its last [r] rows. *)
Definition is_trimmed (l r : nat) (y e : Tensor F) : Prop :=
  shape e = [dim0 y - l - r; dim1 y; dim2 y]
  /\ forall i j k, i < dim0 y - l - r -> j < dim1 y -> k < dim2 y ->
       get3 e i j k = get3 y (l + i) j k.

(** The positions of batch row [b] that are not padding, among the
    columns left after [l] are dropped in front and [r] at the end. *)
Definition unpadded_count (l r : nat) (m : Mask) (b : nat) : Z :=
  Z.of_nat (length (filter (fun j => negb (get2 m b j))
                      (seq l (mcols m - l - r)))).

(** *** Well-shaped encoders and states *)

(** The layers are well-shaped and share the embedding size [E]. *)
Definition layers_ok (E : nat)
    (layers : list (AugmentedMemoryTransformerEncoderLayer.t (F := F)))
  : Prop :=
  Forall
    (fun layer =>
       AugmentedMemoryTransformerEncoderLayer.wf_layer layer
       /\ AugmentedMemoryMultiheadAttention.embed_dim
            (AugmentedMemoryTransformerEncoderLayer.self_attn layer) = E)
    layers.

(** Per-layer states of a stream of batch size [B]: every stored memory
    bank entry has shape (1, B, E). *)
Definition states_ok (E B : nat) (states : list (State F)) : Prop :=
  Forall (fun st => Forall (fun m => shape m = [1; B; E]) (stored_banks st))
    states.

(** What a layer that was given the state [st] and [T] frames returns:
    an output of shape (T, B, E), and [st] with one more memory bank
    entry. *)
Definition layer_step (E B T : nat) (st : State F)
    (out : Tensor F * State F) : Prop :=
  shape (fst out) = [T; B; E]
  /\ exists next_m,
       snd out = mkState (Some (stored_banks st ++ [next_m]))
                   (encoder_states st)
       /\ shape next_m = [1; B; E].

(** What the encoder leaves in the state [st'] of a layer that returned
    [out]: the layer's memory bank, and the layer's output without the
    context frames. *)
Definition stored_step (self : t) (out : Tensor F * State F)
    (st' : State F) : Prop :=
  memory_banks st' = memory_banks (snd out)
  /\ encoder_states st' = Some (trim_context self (fst out)).
End Encoder.
End AugmentedMemoryConvTransformerEncoder.

(** ** An instance of the floating-point interface

    Exact rational arithmetic extended with the IEEE-754 special values;
    [exp], [sqrt] and [tanh] are rational approximations. *)

Module RationalFloat.

Inductive num : Type :=
| NaN
| NInf
| PInf
| Fin (q : Qc).

Definition q0 : Qc := Q2Qc 0.
Definition q1 : Qc := Q2Qc 1.

Definition sgn (q : Qc) : comparison := Qccompare q q0.

Definition neg (x : num) : num :=
  match x with
  | NaN => NaN
  | NInf => PInf
  | PInf => NInf
  | Fin q => Fin (Qcopp q)
  end.

Definition add (x y : num) : num :=
  match x, y with
  | NaN, _ | _, NaN => NaN
  | PInf, NInf | NInf, PInf => NaN
  | PInf, _ | _, PInf => PInf
  | NInf, _ | _, NInf => NInf
  | Fin a, Fin b => Fin (Qcplus a b)
  end.

Definition sub (x y : num) : num := add x (neg y).

(** An infinity times a number of the given sign. *)
Definition inf_signed (pos : bool) (s : comparison) : num :=
  match s with
  | Eq => NaN
  | Gt => if pos then PInf else NInf
  | Lt => if pos then NInf else PInf
  end.

Definition mul (x y : num) : num :=
  match x, y with
  | NaN, _ | _, NaN => NaN
  | PInf, PInf | NInf, NInf => PInf
  | PInf, NInf | NInf, PInf => NInf
  | PInf, Fin b => inf_signed true (sgn b)
  | NInf, Fin b => inf_signed false (sgn b)
  | Fin a, PInf => inf_signed true (sgn a)
  | Fin a, NInf => inf_signed false (sgn a)
  | Fin a, Fin b => Fin (Qcmult a b)
  end.

Definition div (x y : num) : num :=
  match x, y with
  | NaN, _ | _, NaN => NaN
  | (PInf | NInf), (PInf | NInf) => NaN
  | Fin _, (PInf | NInf) => Fin q0
  | PInf, Fin b => match sgn b with Lt => NInf | _ => PInf end
  | NInf, Fin b => match sgn b with Lt => PInf | _ => NInf end
  | Fin a, Fin b =>
      match sgn b with
      | Eq => inf_signed true (sgn a)
      | _ => Fin (Qcdiv a b)
      end
  end.

Definition lt (x y : num) : bool :=
  match x, y with
  | NaN, _ | _, NaN => false
  | _, NInf => false
  | NInf, _ => true
  | PInf, _ => false
  | Fin _, PInf => true
  | Fin a, Fin b => match Qccompare a b with Lt => true | _ => false end
  end.

(** [torch.max] propagates NaN. *)
Definition max (x y : num) : num :=
  match x, y with
  | NaN, _ | _, NaN => NaN
  | _, _ => if lt x y then y else x
  end.

(** [e^q] for a rational: the Taylor polynomial of degree four on the
    non-negative side, its reciprocal on the negative side. *)
Definition taylor (q : Qc) : Qc :=
  (q1 + q + q * q / Q2Qc 2 + q * q * q / Q2Qc 6
   + q * q * q * q / Q2Qc 24)%Qc.

Definition exp_q (q : Qc) : Qc :=
  match sgn q with
  | Lt => Qcinv (taylor (Qcopp q))
  | _ => taylor q
  end.

Definition exp (x : num) : num :=
  match x with
  | NaN => NaN
  | NInf => Fin q0
  | PInf => PInf
  | Fin q => Fin (exp_q q)
  end.

(** The square root to six decimal places. *)
Definition sqrt_q (q : Qc) : Qc :=
  let n := Qnum q in
  let d := Zpos (Qden q) in
  Q2Qc (Qmake (Z.sqrt (n * d * 1000000000000)) (Z.to_pos (d * 1000000))).

Definition sqrt (x : num) : num :=
  match x with
  | NaN | NInf => NaN
  | PInf => PInf
  | Fin q => match sgn q with Lt => NaN | _ => Fin (sqrt_q q) end
  end.

Definition tanh (x : num) : num :=
  match x with
  | NaN => NaN
  | NInf => Fin (Qcopp q1)
  | PInf => Fin q1
  | Fin q =>
      let e := exp_q (q + q)%Qc in
      Fin ((e - q1) / (e + q1))%Qc
  end.

Definition isnan (x : num) : bool :=
  match x with NaN => true | _ => false end.

Definition isfinite (x : num) : bool :=
  match x with Fin _ => true | _ => false end.

Definition nonzero (x : num) : bool :=
  match x with
  | Fin q => match sgn q with Eq => false | _ => true end
  | _ => true
  end.

(** Rounding to the nearest integer, ties to even. *)
Definition round_q (q : Qc) : Z :=
  let n := Qnum q in
  let d := Zpos (Qden q) in
  let f := (n / d)%Z in
  match (2 * (n - f * d) ?= d)%Z with
  | Lt => f
  | Gt => (f + 1)%Z
  | Eq => if Z.even f then f else (f + 1)%Z
  end.

Definition round (x : num) : Z :=
  match x with Fin q => round_q q | _ => 0%Z end.

#[export] Instance ops : FloatOps num := {|
  fzero := Fin q0;
  fone := Fin q1;
  feps := Fin (Q2Qc (1 # 100000000));
  neg_inf := NInf;
  fadd := add;
  fsub := sub;
  fmul := mul;
  fdiv := div;
  fmax := max;
  fsqrt := sqrt;
  fexp := exp;
  ftanh := tanh;
  flt := lt;
  is_nan := isnan;
  is_finite := isfinite;
  fnonzero := nonzero;
  fof_nat := fun n => Fin (Q2Qc (inject_Z (Z.of_nat n)));
  fround := round
|}.

(** Numerals for examples. *)
Definition of_Z (z : Z) : num := Fin (Q2Qc (inject_Z z)).
Definition half : num := Fin (Q2Qc (1 # 2)).

(** A tensor given by its shape and its entries as integers. *)
Definition tensor (d0 d1 d2 : nat) (l : list Z) : Tensor num :=
  mkTensor d0 d1 d2 (map of_Z l).
End RationalFloat.

(** ** A concrete stream

    The end-to-end scenario of the specification: two heads, an embedding
    of size eight, batch size one, segments of four frames, at most two
    memory banks; identity projections. *)

Module Scenario.
Import RationalFloat.

Definition lin_id (n : nat) : Linear :=
  mkLinear n n (fun o e => if o =? e then fone else fzero) (fun _ => fzero).

Definition attention (cap : Z) : AugmentedMemoryMultiheadAttention.t :=
  AugmentedMemoryMultiheadAttention.mk 8 2 4 half
    (lin_id 8) (lin_id 8) (lin_id 8) (lin_id 8)
    None (Some half) cap true true.

(** Four frames and a summary row. *)
Definition segment : Tensor num :=
  tensor 5 1 8
    [1; 0; 0; 0; 0; 0; 0; 0;
     0; 1; 0; 0; 0; 0; 0; 0;
     0; 0; 1; 0; 0; 0; 0; 0;
     0; 0; 0; 1; 0; 0; 0; 0;
     1; 1; 1; 1; 0; 0; 0; 0]%Z.

Definition fresh : State num := mkState (Some []) None.

Definition three_calls : list (Tensor num * option Mask) :=
  [(segment, None); (segment, None); (segment, None)].

Definition no_padding : Mask := mkMask 1 4 [false; false; false; false].


(** The state after the first segment: one memory bank. *)
Definition one_bank : State num :=
  match AugmentedMemoryMultiheadAttention.forward (attention 2) segment
          fresh None with
  | Ok r => snd r
  | Raise _ => fresh
  end.

Definition banks_of (state : State num) : list (Tensor num) :=
  match memory_banks state with
  | Some l => l
  | None => []
  end.

Definition one_bank_list : list (Tensor num) := banks_of one_bank.

Definition lin_zero (n : nat) : Linear :=
  mkLinear n n (fun _ _ => fzero) (fun _ => fzero).

(** The same operator with a query projection of zero: all scores are
    zero and every query attends uniformly. *)
Definition uniform_attention : AugmentedMemoryMultiheadAttention.t :=
  AugmentedMemoryMultiheadAttention.mk 8 2 4 half
    (lin_zero 8) (lin_id 8) (lin_id 8) (lin_id 8)
    None (Some half) 2 true true.

(** A post-norm layer with one frame of context on either side; the
    layer norms are left out. *)
Definition layer : AugmentedMemoryTransformerEncoderLayer.t :=
  AugmentedMemoryTransformerEncoderLayer.mk uniform_attention 1 1 false
    (fun x => x) (fun x => x) (lin_id 8) (lin_id 8) (fun a => fmax fzero a)
    None None.

(** The same layer as a pre-norm layer, with torch's layer norm
    ([eps = 1e-5]). *)
Definition pre_norm_layer : AugmentedMemoryTransformerEncoderLayer.t :=
  AugmentedMemoryTransformerEncoderLayer.mk uniform_attention 1 1 true
    (layer_norm (Fin (Q2Qc (1 # 100000))))
    (layer_norm (Fin (Q2Qc (1 # 100000))))
    (lin_id 8) (lin_id 8) (fun a => fmax fzero a) None None.

(** Four frames. *)
Definition frames : Tensor num :=
  tensor 4 1 8
    [1; 0; 0; 0; 0; 0; 0; 0;
     0; 3; 0; 0; 0; 0; 0; 0;
     0; 0; 5; 0; 0; 0; 0; 0;
     0; 0; 0; 7; 0; 0; 0; 0]%Z.

(** The mask of [mask[b][t] = (t >= lengths[b])], as wide as the longest
    length. *)
Definition padding_mask (lengths : list Z) : Mask :=
  init2 (length lengths) (Z.to_nat (fold_right Z.max 0%Z lengths))
    (fun b j => (nth b lengths 0 <=? Z.of_nat j)%Z).

(** Two layers behind a subsampling stack that only reorders its input
    to (time, batch, feature); no positional signal. *)
Definition encoder : AugmentedMemoryConvTransformerEncoder.t :=
  AugmentedMemoryConvTransformerEncoder.mk [layer; layer] 1 1
    (fun src => Ok (transpose01 src)) fone
    (fun m => init3 (mrows m) (mcols m) 8 (fun _ _ _ => fzero))
    padding_mask None.

(** One utterance of four feature frames. *)
Definition src_tokens : Tensor num := transpose01 frames.

Definition embedded : Tensor num * Mask :=
  match AugmentedMemoryConvTransformerEncoder.embed encoder src_tokens [4]
  with
  | Ok e => e
  | Raise _ => (frames, mkMask 0 0 [])
  end.

Definition layer_outputs : list (Tensor num * State num) :=
  match AugmentedMemoryConvTransformerEncoder.layer_chain
          (AugmentedMemoryConvTransformerEncoder.transformer_layers encoder)
          (fst embedded)
          (AugmentedMemoryConvTransformerEncoder.initial_states encoder None)
          (snd embedded)
  with
  | Ok outs => outs
  | Raise _ => []
  end.

(** The scores of two queries over three keys. *)
Definition scores23 : Tensor num := tensor 1 2 3 [0; 1; 2; 5; 0; 0]%Z.

(** A memory bank entry. *)
Definition bank (z : Z) : Tensor num := tensor 1 1 8 [z; 0; 0; 0; 0; 0; 0; 0]%Z.

(** The state after the three segments. *)
Definition after_three_calls : State num :=
  match AugmentedMemoryMultiheadAttention.forward_all (attention 2)
          three_calls fresh with
  | Ok s => s
  | Raise _ => fresh
  end.

(** The last frame of the segment is padding. *)
Definition last_padded : Mask := mkMask 1 4 [false; false; false; true].

(** An input without rows. *)
Definition no_rows : Tensor num := tensor 0 1 8 [].

(** A mask over three frames only. *)
Definition short_mask : Mask := mkMask 1 3 [false; false; true].

(** What the encoder returns for the utterance. *)
Definition encoded : option (Tensor num) * list Z * list (State num) :=
  match AugmentedMemoryConvTransformerEncoder.forward encoder src_tokens [4]
          None with
  | Ok r => r
  | Raise _ => (None, [], [])
  end.

(** The states of a stream under way: the second layer holds a memory
    bank entry. *)
Definition stream_states : list (State num) :=
  [mkState None None; mkState (Some [bank 1]) None].

(** The same encoder without a layer. *)
Definition no_layers : AugmentedMemoryConvTransformerEncoder.t :=
  AugmentedMemoryConvTransformerEncoder.mk [] 1 1
    (fun src => Ok (transpose01 src)) fone
    (fun m => init3 (mrows m) (mcols m) 8 (fun _ _ _ => fzero))
    padding_mask None.
End Scenario.

(* ================================================================== *)
(** * Part II: lemmas and theorems *)
(* ================================================================== *)

(** ** Lists *)

Lemma length_tabulate (B : Type) (n : nat) (f : nat -> B) :
  length (tabulate n f) = n.
Proof. unfold tabulate. now rewrite length_map, length_seq. Qed.

Lemma nth_tabulate (B : Type) (n : nat) (f : nat -> B) (i : nat) (d : B) :
  i < n -> nth i (tabulate n f) d = f i.
Proof.
  intros Hi. unfold tabulate.
  rewrite (nth_indep _ d (f 0)) by now rewrite length_map, length_seq.
  rewrite map_nth, seq_nth; auto.
Qed.

Lemma tabulate_nth (B : Type) (l : list B) (d : B) :
  tabulate (length l) (fun i => nth i l d) = l.
Proof.
  apply nth_ext with (d := d) (d' := d).
  - apply length_tabulate.
  - intros i Hi. rewrite length_tabulate in Hi. now apply nth_tabulate.
Qed.

Lemma tabulate_ext (B : Type) (n : nat) (f g : nat -> B) :
  (forall i, i < n -> f i = g i) -> tabulate n f = tabulate n g.
Proof.
  intros E. unfold tabulate. apply map_ext_in.
  intros i Hi. apply in_seq in Hi. apply E. lia.
Qed.

Lemma map_as_tabulate (B C : Type) (g : B -> C) (l : list B) (d : B) :
  map g l = tabulate (length l) (fun i => g (nth i l d)).
Proof.
  rewrite <- (tabulate_nth l d) at 1. unfold tabulate. now rewrite map_map.
Qed.

Lemma map_tabulate (B C : Type) (g : B -> C) (n : nat) (f : nat -> B) :
  map g (tabulate n f) = tabulate n (fun i => g (f i)).
Proof. unfold tabulate. now rewrite map_map. Qed.

(** Entry [i * n + j] of the concatenation of blocks of length [n]. *)
Lemma nth_concat_blocks (B : Type) (n : nat) (ls : list (list B)) (d : B) :
  (forall l, In l ls -> length l = n) ->
  forall i j, j < n -> nth (i * n + j) (concat ls) d = nth j (nth i ls []) d.
Proof.
  induction ls as [|l ls IH]; intros Hlen i j Hj.
  - simpl. destruct (i * n + j); destruct i; destruct j; reflexivity.
  - simpl. destruct i as [|i].
    + simpl. rewrite app_nth1; auto.
      rewrite (Hlen l); simpl; auto.
    + rewrite app_nth2; rewrite (Hlen l) by (simpl; auto).
      * replace (S i * n + j - n) with (i * n + j) by lia.
        apply IH; auto. intros l' Hl'. apply Hlen. simpl. auto.
      * simpl. lia.
Qed.

Lemma length_concat_blocks (B : Type) (n : nat) (ls : list (list B)) :
  (forall l, In l ls -> length l = n) -> length (concat ls) = length ls * n.
Proof.
  induction ls as [|l ls IH]; intros Hlen; simpl; auto.
  rewrite length_app, IH, (Hlen l); simpl; auto.
  intros l' Hl'. apply Hlen. simpl. auto.
Qed.

(** ** Tensors *)

Section TensorLemmas.
Context {A : Type} {dA : Default A}.

Lemma length_init3_block (d1 d2 : nat) (g : nat -> nat -> A) :
  length (concat (tabulate d1 (fun j => tabulate d2 (g j)))) = d1 * d2.
Proof.
  rewrite length_concat_blocks with (n := d2).
  - now rewrite length_tabulate.
  - intros l Hl. unfold tabulate in Hl. apply in_map_iff in Hl.
    destruct Hl as [j [<- _]]. apply length_tabulate.
Qed.

Lemma wf_init3 (d0 d1 d2 : nat) (f : nat -> nat -> nat -> A) :
  wf (init3 d0 d1 d2 f).
Proof.
  unfold wf, numel, init3. simpl.
  rewrite length_concat_blocks with (n := d1 * d2).
  - rewrite length_tabulate. lia.
  - intros l Hl. unfold tabulate in Hl at 1. apply in_map_iff in Hl.
    destruct Hl as [i [<- _]]. apply length_init3_block.
Qed.

Lemma get3_init3 (d0 d1 d2 : nat) (f : nat -> nat -> nat -> A) (i j k : nat) :
  i < d0 -> j < d1 -> k < d2 -> get3 (init3 d0 d1 d2 f) i j k = f i j k.
Proof.
  intros Hi Hj Hk. unfold get3, init3. simpl.
  replace ((i * d1 + j) * d2 + k) with (i * (d1 * d2) + (j * d2 + k)) by lia.
  rewrite nth_concat_blocks with (n := d1 * d2).
  - rewrite (nth_indep _ [] (concat (tabulate d1 (fun j => tabulate d2 (f 0 j)))))
      by now rewrite length_tabulate.
    rewrite nth_tabulate by assumption.
    rewrite nth_concat_blocks with (n := d2); auto.
    + rewrite (nth_indep _ [] (tabulate d2 (f i 0)))
        by now rewrite length_tabulate.
      rewrite nth_tabulate by assumption.
      now apply nth_tabulate.
    + intros l Hl. unfold tabulate in Hl. apply in_map_iff in Hl.
      destruct Hl as [j' [<- _]]. apply length_tabulate.
  - intros l Hl. unfold tabulate in Hl at 1. apply in_map_iff in Hl.
    destruct Hl as [i' [<- _]]. apply length_init3_block.
  - nia.
Qed.

Lemma row_init3 (d0 d1 d2 : nat) (f : nat -> nat -> nat -> A) (i j : nat) :
  i < d0 -> j < d1 -> row (init3 d0 d1 d2 f) i j = tabulate d2 (f i j).
Proof.
  intros Hi Hj. unfold row. simpl.
  apply tabulate_ext. intros k Hk. now apply get3_init3.
Qed.

Lemma length_row (t : Tensor A) (i j : nat) : length (row t i j) = dim2 t.
Proof. apply length_tabulate. Qed.

Lemma nth_row (t : Tensor A) (i j k : nat) (d : A) :
  k < dim2 t -> nth k (row t i j) d = get3 t i j k.
Proof. intros Hk. unfold row. now apply nth_tabulate. Qed.
End TensorLemmas.

Section PointwiseLemmas.
Context {A B C : Type} {dA : Default A} {dB : Default B} {dC : Default C}.

Lemma get3_tmap (f : A -> B) (t : Tensor A) (i j k : nat) :
  i < dim0 t -> j < dim1 t -> k < dim2 t ->
  get3 (tmap f t) i j k = f (get3 t i j k).
Proof. intros. unfold tmap. now rewrite get3_init3. Qed.

Lemma bdim_same (a : nat) : bdim a a = a.
Proof. unfold bdim. now destruct (a =? 1). Qed.

Lemma bdim_one_r (a : nat) : bdim a 1 = a.
Proof. unfold bdim. destruct (a =? 1) eqn:E; auto. apply Nat.eqb_eq in E. auto. Qed.

Lemma bidx_lt (d i : nat) : i < d -> bidx d i = i.
Proof.
  intros Hi. unfold bidx. destruct (d =? 1) eqn:E; auto.
  apply Nat.eqb_eq in E. lia.
Qed.

(** Two operands of one shape. *)
Lemma get3_broadcast2_same (f : A -> B -> C) (a : Tensor A) (b : Tensor B)
    (i j k : nat) :
  dim0 b = dim0 a -> dim1 b = dim1 a -> dim2 b = dim2 a ->
  i < dim0 a -> j < dim1 a -> k < dim2 a ->
  get3 (broadcast2 f a b) i j k = f (get3 a i j k) (get3 b i j k).
Proof.
  intros E0 E1 E2 Hi Hj Hk. unfold broadcast2.
  rewrite E0, E1, E2, !bdim_same, get3_init3 by assumption.
  now rewrite !bidx_lt.
Qed.

(** The second operand has a last dimension of size one. *)
Lemma get3_broadcast2_keepdim (f : A -> B -> C) (a : Tensor A) (b : Tensor B)
    (i j k : nat) :
  dim0 b = dim0 a -> dim1 b = dim1 a -> dim2 b = 1 ->
  i < dim0 a -> j < dim1 a -> k < dim2 a ->
  get3 (broadcast2 f a b) i j k = f (get3 a i j k) (get3 b i j 0).
Proof.
  intros E0 E1 E2 Hi Hj Hk. unfold broadcast2.
  rewrite E0, E1, E2, !bdim_same, bdim_one_r, get3_init3 by assumption.
  rewrite !bidx_lt by assumption. reflexivity.
Qed.

Lemma get3_reduce_rows (g : list A -> B) (t : Tensor A) (i j : nat) :
  i < dim0 t -> j < dim1 t -> get3 (reduce_rows g t) i j 0 = g (row t i j).
Proof. intros. unfold reduce_rows. rewrite get3_init3; auto. Qed.

Lemma get3_map_rows (g : list A -> list B) (t : Tensor A) (i j k : nat) :
  i < dim0 t -> j < dim1 t -> k < dim2 t ->
  get3 (map_rows g t) i j k = nth k (g (row t i j)) dflt.
Proof. intros. unfold map_rows. now rewrite get3_init3. Qed.

Lemma row_map_rows (g : list A -> list B) (t : Tensor A) (i j : nat) :
  (forall r, length (g r) = length r) ->
  i < dim0 t -> j < dim1 t -> row (map_rows g t) i j = g (row t i j).
Proof.
  intros Hg Hi Hj. unfold map_rows. rewrite row_init3 by assumption.
  replace (dim2 t) with (length (g (row t i j)))
    by now rewrite Hg, length_row.
  apply tabulate_nth.
Qed.

Lemma row_tmap (f : A -> B) (t : Tensor A) (i j : nat) :
  i < dim0 t -> j < dim1 t -> row (tmap f t) i j = map f (row t i j).
Proof.
  intros Hi Hj. unfold tmap. rewrite row_init3 by assumption.
  unfold row. now rewrite map_tabulate.
Qed.
End PointwiseLemmas.

Lemma get3_where (A : Type) (dA : Default A) (c : Tensor bool)
    (a b : Tensor A) (i j k : nat) :
  i < dim0 c -> j < dim1 c -> k < dim2 c ->
  get3 (where_ c a b) i j k = if get3 c i j k then get3 a i j k else get3 b i j k.
Proof. intros. unfold where_. now rewrite get3_init3. Qed.

Lemma get3_full_like (A : Type) (dA : Default A) (t : Tensor A) (v : A)
    (i j k : nat) :
  i < dim0 t -> j < dim1 t -> k < dim2 t -> get3 (full_like t v) i j k = v.
Proof. intros. unfold full_like. now rewrite get3_init3. Qed.

(** ** The softmax of a row *)

Section SoftmaxShape.
Context {F : Type} {ops : FloatOps F}.

Lemma length_softmax_row (r : list F) : length (softmax_row r) = length r.
Proof. unfold softmax_row. now rewrite !length_map. Qed.

Lemma row_softmax (t : Tensor F) (i j : nat) :
  i < dim0 t -> j < dim1 t -> row (softmax t) i j = softmax_row (row t i j).
Proof. intros. unfold softmax. apply row_map_rows; auto. apply length_softmax_row. Qed.

Lemma get3_softmax (t : Tensor F) (i j k : nat) :
  i < dim0 t -> j < dim1 t -> k < dim2 t ->
  get3 (softmax t) i j k = nth k (softmax_row (row t i j)) fzero.
Proof. intros. unfold softmax. now rewrite get3_map_rows. Qed.
End SoftmaxShape.

(** ** The attention suppression filter *)

(** The sizes of a tensor built from the operations above. *)
Ltac dims :=
  cbn [dim0 dim1 dim2 init3 tmap broadcast2 reduce_rows map_rows where_
       full_like softmax sum_keepdim float_ type_as];
  rewrite ?bdim_same, ?bdim_one_r.

Section SuppressionLemmas.
Context {F : Type} {ops : FloatOps F}.

(** Every entry of the result is negative infinity or the entry of the
    argument. *)
Lemma attention_suppression_entry (S : Tensor F) (s : F) (i j c : nat) :
  i < dim0 S -> j < dim1 S -> c < dim2 S ->
  get3 (attention_suppression S s) i j c = neg_inf
  \/ get3 (attention_suppression S s) i j c = get3 S i j c.
Proof.
  intros Hi Hj Hc. unfold attention_suppression, type_as, float_.
  match goal with
  | |- get3 (where_ ?c _ _) _ _ _ = _ \/ _ =>
      assert (D : dim0 c = dim0 S /\ dim1 c = dim1 S /\ dim2 c = dim2 S)
        by (dims; auto)
  end.
  destruct D as (D0 & D1 & D2).
  rewrite get3_where by (rewrite ?D0, ?D1, ?D2; assumption).
  match goal with |- context [if ?b then _ else _] => destruct b end.
  - left. rewrite get3_full_like; auto.
  - right. reflexivity.
Qed.

Lemma dims_attention_suppression (S : Tensor F) (s : F) :
  dim0 (attention_suppression S s) = dim0 S
  /\ dim1 (attention_suppression S s) = dim1 S
  /\ dim2 (attention_suppression S s) = dim2 S.
Proof.
  unfold attention_suppression. dims. auto.
Qed.

Lemma wf_attention_suppression (S : Tensor F) (s : F) :
  wf (attention_suppression S s).
Proof. unfold attention_suppression, type_as, where_. apply wf_init3. Qed.

Context {laws : FloatLaws F}.

Lemma iter_succ_comm (n : nat) (f : F -> F) (a : F) :
  Nat.iter n f (f a) = f (Nat.iter n f a).
Proof. induction n; simpl; congruence. Qed.

(** Summing the indicators of the nonzero entries counts them. *)
Lemma fold_indicator (p : list F) (acc : F) :
  fold_left fadd (map of_bool (map fnonzero p)) acc
  = Nat.iter (nonzero_count p) (fun a => fadd a fone) acc.
Proof.
  revert acc. induction p as [|x p IH]; intros acc; simpl; auto.
  unfold nonzero_count in *. simpl. destruct (fnonzero x); simpl.
  - rewrite IH. apply (iter_succ_comm _ (fun a => fadd a fone)).
  - rewrite fadd_zero_r. apply IH.
Qed.

(** Entries replaced by zero do not change a sum. *)
Lemma fold_masked (g : F -> F) (p : list F) (acc : F) :
  fold_left fadd (map (fun x => if fnonzero x then g x else fzero) p) acc
  = fold_left fadd (map g (filter fnonzero p)) acc.
Proof.
  revert acc. induction p as [|x p IH]; intros acc; simpl; auto.
  destruct (fnonzero x); simpl.
  - apply IH.
  - rewrite fadd_zero_r. apply IH.
Qed.
End SuppressionLemmas.

(** Side conditions on sizes and indices. *)
Ltac sizes :=
  simpl; rewrite ?bdim_same, ?bdim_one_r; simpl; auto; try lia.

Section SuppressionSpec.
Context {F : Type} {ops : FloatOps F} {laws : FloatLaws F}.

(** C2.  [attention_suppression S s] has the shape of [S]; per query row,
    with [p] the softmax of the row, the count of nonzero entries of [p],
    the mean [sum(p) / (count + 1e-8)], the variance
    [sum over nonzero entries of (p - mean)^2 / (count - 1 + 1e-8)] and
    the threshold [mean - s * sqrt(var)], an entry whose probability is
    strictly below the threshold is negative infinity in the result and
    every other entry is the entry of [S]. *)
Theorem attention_suppression_spec (S : Tensor F) (s : F) :
  shape (attention_suppression S s) = shape S
  /\ wf (attention_suppression S s)
  /\ forall i j c, i < dim0 S -> j < dim1 S -> c < dim2 S ->
       let p := softmax_row (row S i j) in
       get3 (attention_suppression S s) i j c
       = if flt (nth c p fzero) (spec_threshold s p)
         then neg_inf else get3 S i j c.
Proof.
  split; [|split].
  - unfold shape. destruct (dims_attention_suppression S s) as (-> & -> & ->).
    reflexivity.
  - apply wf_attention_suppression.
  - intros i j c Hi Hj Hc p.
    unfold attention_suppression, type_as, float_.
    set (prob := softmax S).
    set (nozeros := tmap fnonzero prob).
    set (nsum := sum_keepdim (tmap of_bool nozeros)).
    set (key_mean := broadcast2 fdiv (sum_keepdim prob)
                       (tmap (fun n => fadd n feps) nsum)).
    set (dis_masked := where_ nozeros _ _).
    set (key_var := broadcast2 fdiv (sum_keepdim dis_masked) _).
    set (key_thread := broadcast2 fsub key_mean _).
    assert (Hrow : row prob i j = p) by (apply row_softmax; assumption).
    assert (Hn : get3 nsum i j 0 = count_to_float (nonzero_count p)).
    { unfold nsum, sum_keepdim. rewrite get3_reduce_rows by assumption.
      rewrite row_tmap by assumption. unfold nozeros.
      rewrite row_tmap by assumption. rewrite Hrow.
      unfold fsum. apply fold_indicator. }
    assert (Hm : get3 key_mean i j 0 = spec_mean p).
    { unfold key_mean. rewrite get3_broadcast2_same by sizes.
      rewrite get3_tmap by sizes.
      rewrite Hn. unfold sum_keepdim.
      rewrite get3_reduce_rows by assumption. now rewrite Hrow. }
    assert (Hd : row dis_masked i j
                 = map (fun x => if fnonzero x
                                 then fmul (fsub x (spec_mean p))
                                           (fsub x (spec_mean p))
                                 else fzero) p).
    { unfold dis_masked, where_. rewrite row_init3 by assumption.
      rewrite (map_as_tabulate _ p fzero).
      replace (length p) with (dim2 S)
        by (unfold p; now rewrite length_softmax_row, length_row).
      apply tabulate_ext. intros k Hk. simpl in Hk.
      replace (nth k p fzero) with (get3 prob i j k)
        by (rewrite <- Hrow; symmetry; now apply nth_row).
      unfold nozeros. rewrite get3_tmap by assumption.
      destruct (fnonzero (get3 prob i j k)).
      - rewrite get3_broadcast2_same by sizes.
        rewrite !get3_broadcast2_keepdim by sizes.
        now rewrite Hm.
      - now rewrite get3_full_like. }
    assert (Hv : get3 key_var i j 0 = spec_var p).
    { unfold key_var. rewrite get3_broadcast2_same by sizes.
      rewrite get3_tmap by sizes.
      rewrite Hn. unfold sum_keepdim.
      rewrite get3_reduce_rows by assumption. rewrite Hd.
      unfold spec_var, fsum. now rewrite fold_masked. }
    assert (Ht : get3 key_thread i j 0 = spec_threshold s p).
    { unfold key_thread. rewrite get3_broadcast2_same by sizes.
      rewrite Hm. rewrite !get3_tmap by sizes.
      now rewrite Hv. }
    assert (D : dim0 (broadcast2 flt prob key_thread) = dim0 S
                /\ dim1 (broadcast2 flt prob key_thread) = dim1 S
                /\ dim2 (broadcast2 flt prob key_thread) = dim2 S)
      by (unfold key_thread, key_var, key_mean, dis_masked, nsum, nozeros,
            prob; dims; auto).
    destruct D as (D0 & D1 & D2).
    rewrite get3_where by (rewrite ?D0, ?D1, ?D2; assumption).
    rewrite get3_broadcast2_keepdim by sizes.
    rewrite Ht. unfold prob at 1. rewrite get3_softmax by assumption.
    fold p. destruct (flt (nth c p fzero) (spec_threshold s p)); auto.
    now rewrite get3_full_like.
Qed.
End SuppressionSpec.

Section SuppressionTwice.
Context {F : Type} {ops : FloatOps F}.

(** C6.  An entry that is negative infinity after one application of
    [attention_suppression] is negative infinity after a second
    application with the same scale. *)
Theorem attention_suppression_twice (S : Tensor F) (s : F) (i j c : nat) :
  i < dim0 S -> j < dim1 S -> c < dim2 S ->
  get3 (attention_suppression S s) i j c = neg_inf ->
  get3 (attention_suppression (attention_suppression S s) s) i j c = neg_inf.
Proof.
  intros Hi Hj Hc Hinf.
  destruct (dims_attention_suppression S s) as (D0 & D1 & D2).
  destruct (@attention_suppression_entry _ _ (attention_suppression S s) s i j c)
    as [E | E]; try (rewrite ?D0, ?D1, ?D2; assumption).
  now rewrite E.
Qed.
End SuppressionTwice.

(** ** Shapes of the fallible operations *)

Section ShapeLemmas.
Context {F : Type} {ops : FloatOps F}.

Lemma cat0_dims (ts : list (Tensor F)) (b e : nat) :
  ts <> [] -> Forall (fun u => dim1 u = b /\ dim2 u = e) ts ->
  exists t, cat0 ts = Ok t
            /\ dim0 t = list_sum (map (@dim0 F) ts)
            /\ dim1 t = b /\ dim2 t = e.
Proof.
  intros Hne Hall. destruct ts as [|u rest]; [congruence|].
  inversion Hall as [|? ? [Hb He] Hrest]; subst.
  unfold cat0.
  replace (forallb _ rest) with true.
  - eexists. split; [reflexivity|]. simpl. auto.
  - symmetry. apply forallb_forall. intros v Hv.
    rewrite Forall_forall in Hrest. destruct (Hrest v Hv) as [-> ->].
    now rewrite !Nat.eqb_refl.
Qed.

Lemma linear_dims (l : Linear) (x : Tensor F) :
  dim2 x = in_features l ->
  exists t, linear l x = Ok t
            /\ dim0 t = dim0 x /\ dim1 t = dim1 x /\ dim2 t = out_features l.
Proof.
  intros E. unfold linear. rewrite E, Nat.eqb_refl.
  eexists. split; [reflexivity|]. simpl. auto.
Qed.

Lemma view_infer_dims (t : Tensor F) (d1 d2 : nat) :
  0 < d1 * d2 -> numel t = dim0 t * (d1 * d2) ->
  exists t', view_infer t d1 d2 = Ok t'
             /\ dim0 t' = dim0 t /\ dim1 t' = d1 /\ dim2 t' = d2.
Proof.
  intros Hpos Hn. unfold view_infer.
  assert (Hmod : numel t mod (d1 * d2) = 0)
    by (rewrite Hn; apply Nat.Div0.mod_mul).
  rewrite Hmod, Nat.eqb_refl.
  replace (0 <? d1 * d2) with true by (symmetry; now apply Nat.ltb_lt).
  rewrite orb_true_r.
  replace (d1 * d2 =? 0) with false by (symmetry; apply Nat.eqb_neq; lia).
  eexists. split; [reflexivity|]. simpl. repeat split.
  rewrite Hn. apply Nat.div_mul. lia.
Qed.

Lemma view_dims (t : Tensor F) (d0 d1 d2 : nat) :
  numel t = d0 * d1 * d2 ->
  exists t', view t d0 d1 d2 = Ok t'
             /\ dim0 t' = d0 /\ dim1 t' = d1 /\ dim2 t' = d2.
Proof.
  intros Hn. unfold view. rewrite Hn, Nat.eqb_refl.
  eexists. split; [reflexivity|]. simpl. auto.
Qed.

Lemma bmm_dims (a b : Tensor F) :
  dim0 a = dim0 b -> dim2 a = dim1 b ->
  exists t, bmm a b = Ok t
            /\ dim0 t = dim0 a /\ dim1 t = dim1 a /\ dim2 t = dim2 b.
Proof.
  intros E0 E1. unfold bmm. rewrite E0, E1, !Nat.eqb_refl.
  eexists. split; [reflexivity|]. simpl. auto.
Qed.

Lemma fill_last_row_dims (t : Tensor F) (m : nat) (v : F) :
  0 < dim1 t ->
  exists t', fill_last_row t m v = Ok t'
             /\ dim0 t' = dim0 t /\ dim1 t' = dim1 t /\ dim2 t' = dim2 t.
Proof.
  intros Hpos. unfold fill_last_row.
  replace (dim1 t =? 0) with false by (symmetry; apply Nat.eqb_neq; lia).
  eexists. split; [reflexivity|]. simpl. auto.
Qed.

Lemma masked_fill_heads_dims (t : Tensor F) (B H : nat) (mask : Mask) (v : F) :
  dim0 t = B * H -> mrows mask = B -> mcols mask = dim2 t ->
  exists t', masked_fill_heads t B H mask v = Ok t'
             /\ dim0 t' = dim0 t /\ dim1 t' = dim1 t /\ dim2 t' = dim2 t.
Proof.
  intros E0 Er Ec. unfold masked_fill_heads, numel.
  rewrite E0, Er, Ec, !Nat.eqb_refl. simpl.
  eexists. split; [reflexivity|]. simpl. auto.
Qed.

Lemma dims_slice0_drop_last (t : Tensor F) :
  dim0 (slice0 t None (Some (-1)%Z)) = dim0 t - 1
  /\ dim1 (slice0 t None (Some (-1)%Z)) = dim1 t
  /\ dim2 (slice0 t None (Some (-1)%Z)) = dim2 t.
Proof.
  unfold slice0, slice_lo, slice_hi, slice_index.
  change (-1 <? 0)%Z with true. cbn [dim0 dim1 dim2]. repeat split. lia.
Qed.

Lemma dims_slice0_last (t : Tensor F) :
  dim0 (slice0 t (Some (-1)%Z) None) = Nat.min 1 (dim0 t)
  /\ dim1 (slice0 t (Some (-1)%Z) None) = dim1 t
  /\ dim2 (slice0 t (Some (-1)%Z) None) = dim2 t.
Proof.
  unfold slice0, slice_lo, slice_hi, slice_index.
  change (-1 <? 0)%Z with true. cbn [dim0 dim1 dim2]. repeat split. lia.
Qed.
End ShapeLemmas.

(** ** Softmax on masked rows *)

Lemma nth_map_lt (A B : Type) (g : A -> B) (l : list A) (j : nat)
    (d : B) (d' : A) :
  j < length l -> nth j (map g l) d = g (nth j l d').
Proof.
  intros Hj. rewrite (nth_indep _ d (g d')) by now rewrite length_map.
  apply map_nth.
Qed.

Section SoftmaxValues.
Context {F : Type} {ops : FloatOps F} {laws : FloatLaws F}.

Lemma nth_softmax_row (r : list F) (j : nat) :
  j < length r ->
  nth j (softmax_row r) fzero
  = fdiv (fexp (fsub (nth j r fzero) (row_max r)))
         (fsum (map (fun x => fexp (fsub x (row_max r))) r)).
Proof.
  intros Hj. unfold softmax_row.
  rewrite (nth_map_lt _ _ fzero fzero) by now rewrite length_map.
  now rewrite (nth_map_lt _ _ fzero fzero).
Qed.

(** The softmax of a masked entry is zero, or NaN when the row
    degenerates. *)
Lemma softmax_row_neg_inf (r : list F) (j : nat) :
  j < length r -> nth j r fzero = neg_inf ->
  nth j (softmax_row r) fzero = fzero
  \/ is_nan (nth j (softmax_row r) fzero) = true.
Proof.
  intros Hj Hinf. rewrite nth_softmax_row by assumption. rewrite Hinf.
  destruct (fsub_neg_inf (row_max r)) as [-> | Hnan].
  - rewrite fexp_neg_inf. apply fdiv_zero_l.
  - right. now apply fdiv_nan_l, fexp_nan.
Qed.

Lemma fold_max_in (l : list F) (acc : F) :
  fold_left fmax l acc = acc \/ In (fold_left fmax l acc) l.
Proof.
  revert acc. induction l as [|y l IH]; intros acc; simpl; auto.
  destruct (IH (fmax acc y)) as [E | Hin]; auto.
  rewrite E. destruct (fmax_choice acc y) as [-> | ->]; auto.
Qed.

Lemma fold_max_finite (l : list F) (acc : F) :
  Forall is_score l -> is_score acc ->
  is_finite acc = true \/ Exists (fun x => is_finite x = true) l ->
  is_finite (fold_left fmax l acc) = true.
Proof.
  intros Hl. revert acc. induction Hl as [|y l Hy Hl IH]; intros acc Hacc Hfin.
  - simpl. destruct Hfin as [H | H]; auto. inversion H.
  - simpl.
    assert (Hs : is_score (fmax acc y))
      by (destruct (fmax_choice acc y) as [-> | ->]; assumption).
    apply IH; auto. destruct Hfin as [H | H].
    + left. now apply fmax_finite_l.
    + inversion H; subst.
      * left. now apply fmax_finite_r.
      * now right.
Qed.

Lemma row_max_finite (r : list F) :
  Forall is_score r -> Exists (fun x => is_finite x = true) r ->
  is_finite (row_max r) = true /\ In (row_max r) r.
Proof.
  intros Hr Hex. destruct r as [|x r]; [inversion Hex|].
  inversion Hr; subst. unfold row_max. split.
  - apply fold_max_finite; auto.
    inversion Hex; subst; auto.
  - destruct (fold_max_in r x) as [-> | H]; simpl; auto.
Qed.

Lemma fold_add_nonneg (l : list F) (acc : F) :
  Forall nonneg l -> nonneg acc -> nonneg (fold_left fadd l acc).
Proof.
  intros Hl. revert acc. induction Hl as [|y l Hy _ IH]; intros acc Hacc;
    simpl; auto.
  apply IH. now apply fadd_nonneg.
Qed.

Lemma fold_add_pos (l : list F) (acc : F) :
  Forall nonneg l -> nonneg acc ->
  flt fzero acc = true \/ Exists (fun v => flt fzero v = true) l ->
  flt fzero (fold_left fadd l acc) = true.
Proof.
  intros Hl. revert acc. induction Hl as [|y l Hy Hl IH]; intros acc Hacc Hpos.
  - simpl. destruct Hpos as [H | H]; auto. inversion H.
  - simpl. apply IH.
    + now apply fadd_nonneg.
    + destruct Hpos as [H | H].
      * left. now apply fadd_pos_l.
      * inversion H; subst.
        -- left. now apply fadd_pos_r.
        -- now right.
Qed.

(** In a row of scores with a finite entry, the softmax of a masked
    entry is exactly zero. *)
Lemma softmax_row_neg_inf_exact (r : list F) (j : nat) :
  Forall is_score r -> Exists (fun x => is_finite x = true) r ->
  j < length r -> nth j r fzero = neg_inf ->
  nth j (softmax_row r) fzero = fzero.
Proof.
  intros Hr Hex Hj Hinf.
  destruct (row_max_finite Hr Hex) as [Hfin Hin].
  rewrite nth_softmax_row by assumption. rewrite Hinf.
  rewrite fsub_neg_inf_finite, fexp_neg_inf by assumption.
  apply fdiv_zero_pos. unfold fsum. apply fold_add_pos.
  - apply Forall_map. eapply Forall_impl; [|exact Hr].
    intros x Hx. apply fexp_nonneg. now apply fsub_score.
  - now left.
  - right. apply Exists_exists. exists (fexp (fsub (row_max r) (row_max r))).
    split.
    + apply in_map_iff. eauto.
    + rewrite fsub_self, fexp_zero by assumption. apply flt_zero_one.
Qed.
End SoftmaxValues.

(** ** Entries after masking, dropout and NaN replacement *)

Lemma get3_in_data (A : Type) (dA : Default A) (t : Tensor A) (i j k : nat) :
  wf t -> i < dim0 t -> j < dim1 t -> k < dim2 t ->
  In (get3 t i j k) (tdata t).
Proof.
  intros Hwf Hi Hj Hk. unfold get3. apply nth_In.
  rewrite Hwf. unfold numel.
  assert (i * dim1 t + j < dim0 t * dim1 t) by nia. nia.
Qed.

Lemma any_false_entry (t : Tensor bool) (i j k : nat) :
  any t = false -> wf t -> i < dim0 t -> j < dim1 t -> k < dim2 t ->
  get3 t i j k = false.
Proof.
  intros Hany Hwf Hi Hj Hk.
  destruct (get3 t i j k) eqn:E; auto.
  assert (H : any t = true); [|congruence].
  unfold any. apply existsb_exists. exists true. split; auto.
  rewrite <- E. now apply get3_in_data.
Qed.

Lemma get3_masked_fill (A : Type) (dA : Default A) (t : Tensor A)
    (mask : Tensor bool) (v : A) (i j k : nat) :
  i < dim0 t -> j < dim1 t -> k < dim2 t ->
  get3 (masked_fill t mask v) i j k
  = if get3 mask i j k then v else get3 t i j k.
Proof. intros. unfold masked_fill. now rewrite get3_init3. Qed.

Lemma get3_fill_last_row (A : Type) (dA : Default A) (t t' : Tensor A)
    (m : nat) (v : A) (i j k : nat) :
  fill_last_row t m v = Ok t' ->
  i < dim0 t -> j < dim1 t -> k < dim2 t ->
  get3 t' i j k
  = if (j =? dim1 t - 1) && (k <? m) then v else get3 t i j k.
Proof.
  unfold fill_last_row. destruct (dim1 t =? 0); [discriminate|].
  intros E Hi Hj Hk. injection E as <-. now rewrite get3_init3.
Qed.

Lemma get2_init2 (r c : nat) (f : nat -> nat -> bool) (i j : nat) :
  i < r -> j < c -> get2 (init2 r c f) i j = f i j.
Proof.
  intros Hi Hj. unfold get2, init2. cbn [mcols mdata].
  rewrite nth_concat_blocks with (n := c); auto.
  - rewrite (nth_indep _ [] (tabulate c (f 0)))
      by now rewrite length_tabulate.
    rewrite nth_tabulate by assumption. now apply nth_tabulate.
  - intros l Hl. unfold tabulate in Hl. apply in_map_iff in Hl.
    destruct Hl as [i' [<- _]]. apply length_tabulate.
Qed.

(** A mask with a set entry has [any]. *)
Lemma mask_any_entry (m : Mask) (i j : nat) :
  get2 m i j = true -> mask_any m = true.
Proof.
  unfold get2, mask_any. intros H. apply existsb_exists. exists true.
  split; auto. rewrite <- H. apply nth_In.
  destruct (Nat.lt_ge_cases (i * mcols m + j) (length (mdata m))); auto.
  rewrite nth_overflow in H by assumption. discriminate.
Qed.

Section ProbabilityEntries.
Context {F : Type} {ops : FloatOps F}.

Lemma get3_masked_fill_heads (t t' : Tensor F) (B H : nat) (mask : Mask)
    (v : F) (bh i j : nat) :
  masked_fill_heads t B H mask v = Ok t' ->
  bh < B * H -> i < dim1 t -> j < dim2 t ->
  get3 t' bh i j
  = if get2 mask (bidx (mrows mask) (bh / H)) (bidx (mcols mask) j)
    then v else get3 t bh i j.
Proof.
  unfold masked_fill_heads. destruct (negb _); [discriminate|].
  destruct (negb _); [discriminate|].
  intros E Hbh Hi Hj. injection E as <-. now rewrite get3_init3.
Qed.

Lemma get3_dropout (d : Dropout) (t : Tensor F) (i j k : nat) :
  i < dim0 t -> j < dim1 t -> k < dim2 t ->
  get3 (dropout d t) i j k
  = match d with
    | None => get3 t i j k
    | Some mk => fmul (get3 t i j k) (mk i j k)
    end.
Proof.
  intros Hi Hj Hk. destruct d as [mk|]; auto.
  unfold dropout. now rewrite get3_init3.
Qed.

Context {laws : FloatLaws F}.

Lemma get3_replace_nan (t : Tensor F) (i j k : nat) :
  i < dim0 t -> j < dim1 t -> k < dim2 t ->
  get3 (AugmentedMemoryMultiheadAttention.replace_nan t) i j k
  = if is_nan (get3 t i j k) then fzero else get3 t i j k.
Proof.
  intros Hi Hj Hk. unfold AugmentedMemoryMultiheadAttention.replace_nan.
  destruct (any (tmap is_nan t)) eqn:Hany.
  - rewrite get3_masked_fill by assumption. now rewrite get3_tmap.
  - assert (H : get3 (tmap is_nan t) i j k = false)
      by (apply any_false_entry; auto; apply wf_init3).
    rewrite get3_tmap in H by assumption. now rewrite H.
Qed.


(** A softmax entry that is zero or NaN ends as a zero probability. *)
Lemma probability_zero (d : Dropout) (sm : Tensor F) (i j k : nat) :
  i < dim0 sm -> j < dim1 sm -> k < dim2 sm ->
  get3 sm i j k = fzero \/ is_nan (get3 sm i j k) = true ->
  get3 (AugmentedMemoryMultiheadAttention.replace_nan (dropout d sm)) i j k
  = fzero.
Proof.
  intros Hi Hj Hk He.
  assert (Hd : get3 (dropout d sm) i j k = fzero
               \/ is_nan (get3 (dropout d sm) i j k) = true).
  { rewrite get3_dropout by assumption. destruct d as [mk|]; auto.
    destruct He as [-> | Hn].
    - apply fmul_zero_l.
    - right. now apply fmul_nan_l. }
  assert (S : shape (dropout d sm) = shape sm) by (destruct d; reflexivity).
  unfold shape in S. injection S as S0 S1 S2.
  rewrite get3_replace_nan by congruence.
  destruct Hd as [-> | ->]; auto.
  now rewrite is_nan_zero.
Qed.
End ProbabilityEntries.

(** ** The attention operator: shapes and success *)

Lemma Forall_take (A : Type) (P : A -> Prop) (n : nat) (l : list A) :
  Forall P l -> Forall P (firstn n l).
Proof.
  intros H. revert n. induction H; intros [|n]; simpl; auto.
Qed.

Lemma Forall_drop (A : Type) (P : A -> Prop) (n : nat) (l : list A) :
  Forall P l -> Forall P (skipn n l).
Proof.
  intros H. revert n. induction H; intros [|n]; simpl; auto.
Qed.

Lemma list_sum_ones (A : Type) (f : A -> nat) (l : list A) :
  Forall (fun a => f a = 1) l -> list_sum (map f l) = length l.
Proof.
  induction 1 as [|a l Ha _ IH]; simpl; auto. now rewrite Ha, IH.
Qed.

Lemma shape_is_true (s : list nat) (expected : list Z) :
  map Z.of_nat s = expected ->
  AugmentedMemoryMultiheadAttention.shape_is s expected = true.
Proof.
  intros E. unfold AugmentedMemoryMultiheadAttention.shape_is.
  now destruct (list_eq_dec Z.eq_dec (map Z.of_nat s) expected).
Qed.

Module AttentionProofs.
Import AugmentedMemoryMultiheadAttention.
Section Shapes.
Context {F : Type} {ops : FloatOps F}.

Lemma retained_banks_length (self : t) (banks : list (Tensor F)) :
  length (retained_banks self banks)
  = if (max_memory_size self >? -1)%Z
    then Nat.min (length banks) (Z.to_nat (max_memory_size self))
    else length banks.
Proof.
  unfold retained_banks.
  destruct (max_memory_size self >? -1)%Z eqn:Hcap; cbn [andb]; auto.
  destruct (Z.of_nat (length banks) >? max_memory_size self)%Z eqn:Hlen.
  - destruct (max_memory_size self =? 0)%Z eqn:Hz.
    + apply Z.eqb_eq in Hz. rewrite Hz. simpl. lia.
    + unfold list_slice, slice_lo, slice_hi, slice_index.
      replace (- max_memory_size self <? 0)%Z with true by lia.
      rewrite length_firstn, length_skipn. lia.
  - lia.
Qed.

Lemma retained_banks_Forall (P : Tensor F -> Prop) (self : t)
    (banks : list (Tensor F)) :
  Forall P banks -> Forall P (retained_banks self banks).
Proof.
  intros H. unfold retained_banks.
  destruct (_ && _); auto.
  destruct (_ =? _)%Z; auto.
  unfold list_slice. now apply Forall_take, Forall_drop.
Qed.
Lemma split_heads_dims (self : t) (B : nat) (x : Tensor F) :
  dim1 x = B -> dim2 x = num_heads self * head_dim self ->
  0 < B -> 0 < num_heads self -> 0 < head_dim self ->
  exists x', split_heads self B x = Ok x'
             /\ dim0 x' = B * num_heads self /\ dim1 x' = dim0 x
             /\ dim2 x' = head_dim self.
Proof.
  intros E1 E2 HB HH HD. unfold split_heads.
  destruct (@view_infer_dims F x (B * num_heads self) (head_dim self))
    as (x' & Ev & D0 & D1 & D2).
  - nia.
  - unfold numel. rewrite E1, E2. lia.
  - rewrite Ev. cbn [bind]. eexists. split; [reflexivity|].
    cbn [transpose01 init3 dim0 dim1 dim2]. auto.
Qed.

Lemma project_dims (self : t) (B : nat) (x mbi : Tensor F) :
  wf_module self -> 0 < B ->
  dim1 x = B -> dim2 x = embed_dim self ->
  dim1 mbi = B -> dim2 mbi = embed_dim self ->
  exists q k v,
    project self B x mbi = Ok (q, k, v)
    /\ shape q = [B * num_heads self; dim0 x; head_dim self]
    /\ shape k = [B * num_heads self; dim0 mbi; head_dim self]
    /\ shape v = [B * num_heads self; dim0 mbi; head_dim self].
Proof.
  intros (HE & HH & HD & Hproj) HB Hx1 Hx2 Hm1 Hm2.
  destruct (Hproj (q_proj self)) as [Hqi Hqo]; [simpl; auto|].
  destruct (Hproj (k_proj self)) as [Hki Hko]; [simpl; auto|].
  destruct (Hproj (v_proj self)) as [Hvi Hvo]; [simpl; auto|].
  unfold project, v2e.
  destruct (@linear_dims F _ (q_proj self) x) as (q & Eq & Q0 & Q1 & Q2);
    [congruence|]. rewrite Eq. cbn [bind].
  destruct (@linear_dims F _ (k_proj self) mbi) as (k & Ek & K0 & K1 & K2);
    [congruence|]. rewrite Ek. cbn [bind].
  destruct (@linear_dims F _ (v_proj self) mbi) as (v & Ev & V0 & V1 & V2);
    [congruence|]. rewrite Ev. cbn [bind].
  destruct (@split_heads_dims self B q) as (q' & Eq' & Q0' & Q1' & Q2');
    try congruence; auto. rewrite Eq'. cbn [bind].
  destruct (@split_heads_dims self B k) as (k' & Ek' & K0' & K1' & K2');
    try congruence; auto. rewrite Ek'. cbn [bind].
  destruct (@split_heads_dims self B v) as (v' & Ev' & V0' & V1' & V2');
    try congruence; auto. rewrite Ev'. cbn [bind].
  do 3 eexists. split; [reflexivity|]. unfold shape.
  cbn [tmap init3 dim0 dim1 dim2]. repeat split; congruence.
Qed.

Lemma restrict_dims (self : t) (mem : list (Tensor F)) (aw : Tensor F) :
  0 < dim1 aw ->
  exists aw', restrict self mem aw = Ok aw' /\ shape aw' = shape aw.
Proof.
  intros Hpos. unfold restrict.
  assert (H : exists a, (if disable_mem_on_mem_attn self
                         then fill_last_row aw (length mem) neg_inf
                         else Ok aw) = Ok a /\ shape a = shape aw).
  { destruct (disable_mem_on_mem_attn self).
    - destruct (@fill_last_row_dims F _ aw (length mem) neg_inf Hpos)
        as (a & Ea & A0 & A1 & A2).
      exists a. split; auto. unfold shape. congruence.
    - eauto. }
  destruct H as (a & -> & Ha). cbn [bind]. eexists. split; [reflexivity|].
  rewrite <- Ha. destruct (std_scale self); auto.
  unfold shape. destruct (dims_attention_suppression a f) as (-> & -> & ->).
  reflexivity.
Qed.

Lemma pad_dims (self : t) (B L : nat) (mem : list (Tensor F))
    (aw : Tensor F) (kpm : option Mask) :
  mask_ok L B kpm ->
  dim0 aw = B * num_heads self -> dim2 aw = L + length mem ->
  exists aw', pad self B mem aw kpm = Ok aw' /\ shape aw' = shape aw.
Proof.
  intros Hmask E0 E2. unfold pad.
  destruct kpm as [kpm|]; [|eauto].
  destruct (mask_any kpm); [|eauto].
  destruct Hmask as [Hr Hc].
  unfold mask_cat1, mask_zeros. cbn [mrows mcols init2].
  rewrite Hr, Nat.eqb_refl. cbn [bind].
  match goal with
  | |- context [masked_fill_heads aw B (num_heads self) ?k neg_inf] =>
      destruct (@masked_fill_heads_dims F _ aw B (num_heads self) k neg_inf)
        as (aw' & -> & A0 & A1 & A2);
      [exact E0 | reflexivity | cbn [mcols init2]; lia |]
  end.
  eexists. split; [reflexivity|]. unfold shape. congruence.
Qed.

Lemma shape_replace_nan (t0 : Tensor F) : shape (replace_nan t0) = shape t0.
Proof. unfold replace_nan. destruct (any _); reflexivity. Qed.

Lemma shape_dropout (d : Dropout) (t0 : Tensor F) :
  shape (dropout d t0) = shape t0.
Proof. destruct d; reflexivity. Qed.

(** A well-shaped call runs to the end: no torch shape error and no
    failed assertion; the local tensors have the expected shapes. *)
Lemma forward_locals_ok (self : t) (x : Tensor F) (state : State F)
    (kpm : option Mask) (L B : nat) (banks : list (Tensor F)) :
  wf_module self -> input_ok self L B x ->
  memory_banks state = Some banks -> Forall (bank_ok self B) banks ->
  mask_ok L B kpm ->
  let m := length (retained_banks self banks) in
  exists loc,
    forward_locals self x state kpm = Ok loc
    /\ l_memory_banks loc = retained_banks self banks
    /\ shape (l_scores loc) = [B * num_heads self; L + 1; L + m]
    /\ shape (l_masked loc) = [B * num_heads self; L + 1; L + m]
    /\ shape (l_attention_probs loc) = [B * num_heads self; L + 1; L + m]
    /\ shape (l_attention loc) = [B * num_heads self; L + 1; head_dim self]
    /\ shape (l_output_and_memory loc) = [L + 1; B; embed_dim self].
Proof.
  intros Hwf (Hx & HB) Hst Hbanks Hmask m.
  unfold shape in Hx. injection Hx as Hx0 Hx1 Hx2.
  unfold forward_locals. rewrite Hst. cbn [bind]. cbv zeta.
  rewrite Hx0, Hx1.
  set (mem := retained_banks self banks) in *.
  assert (Hmem : Forall (bank_ok self B) mem)
    by now apply retained_banks_Forall.
  assert (Hmem1 : Forall (fun u => dim0 u = 1) mem)
    by (eapply Forall_impl; [|exact Hmem]; intros u Hu; now injection Hu).
  assert (Hmem2 : Forall (fun u => dim1 u = B /\ dim2 u = embed_dim self) mem)
    by (eapply Forall_impl; [|exact Hmem]; intros u Hu; now injection Hu).
  destruct (dims_slice0_drop_last x) as (S0 & S1 & S2).
  destruct (@cat0_dims F (mem ++ [slice0 x None (Some (-1)%Z)]) B
              (embed_dim self)) as (mbi & Embi & M0 & M1 & M2).
  { now destruct mem. }
  { apply Forall_app. split; auto. }
  rewrite map_app, list_sum_app, list_sum_ones in M0 by assumption.
  cbn [map list_sum fold_right] in M0. rewrite S0, Hx0 in M0. subst m.
  rewrite Embi. cbn [bind].
  destruct (@project_dims self B x mbi) as (q & k & v & Eqkv & Sq & Sk & Sv);
    auto.
  unfold shape in Sq, Sk, Sv.
  injection Sq as Q0 Q1 Q2. injection Sk as K0 K1 K2. injection Sv as V0 V1 V2.
  rewrite Eqkv. cbn [bind fst snd].
  destruct (@bmm_dims F _ q (transpose12 k)) as (aw & Eaw & A0 & A1 & A2);
    [cbn [transpose12 init3 dim0 dim1 dim2]; congruence ..|].
  cbn [transpose12 init3 dim0 dim1 dim2] in A2.
  rewrite Eaw. cbn [bind].
  destruct (@restrict_dims self mem aw) as (aw0 & Eaw0 & Saw0); [lia|].
  unfold shape in Saw0. injection Saw0 as R0 R1 R2.
  rewrite Eaw0. cbn [bind].
  rewrite shape_is_true
    by (unfold shape; cbn [map]; rewrite R0, R1, R2; repeat f_equal; lia).
  cbn [assert bind].
  destruct (@pad_dims self B L mem aw0 kpm) as (aw1 & Eaw1 & Saw1);
    [assumption | congruence | lia |].
  unfold shape in Saw1. injection Saw1 as P0 P1 P2.
  rewrite Eaw1. cbn [bind].
  set (probs := replace_nan _).
  assert (Sp : shape probs = shape aw1)
    by (unfold probs; now rewrite shape_replace_nan, shape_dropout).
  unfold shape in Sp. injection Sp as B0 B1 B2.
  destruct (@bmm_dims F _ probs v) as (att & Eatt & T0 & T1 & T2);
    [congruence | lia |].
  rewrite Eatt. cbn [bind].
  rewrite shape_is_true
    by (unfold shape; cbn [map]; rewrite T0, T1, T2; repeat f_equal; lia).
  cbn [assert bind].
  destruct Hwf as (HE & HH & HD & Hproj).
  destruct (Hproj (out_proj self)) as [Hoi Hoo]; [simpl; auto|].
  destruct (@view_dims F (transpose01 att)
              (Z.to_nat (Z.of_nat (L + 1) - 1 + 1)) B (embed_dim self))
    as (att' & Eatt' & W0 & W1 & W2).
  { unfold numel. cbn [transpose01 init3 dim0 dim1 dim2].
    replace (Z.to_nat (Z.of_nat (L + 1) - 1 + 1)) with (L + 1) by lia.
    rewrite T0, T1, T2, B0, B1, P0, P1, R0, R1, A0, A1, Q0, Q1, V2, Hx0, HE.
    lia. }
  rewrite Eatt'. cbn [bind].
  destruct (@linear_dims F _ (out_proj self) att') as (oam & Eoam & O0 & O1 & O2);
    [congruence|].
  rewrite Eoam. cbn [bind].
  eexists. split; [reflexivity|]. cbn [l_memory_banks l_scores l_masked
    l_attention_probs l_attention l_output_and_memory].
  unfold shape. repeat split; repeat f_equal; try congruence; try lia.
Qed.
Lemma shape_squash_mem (self : t) (x : Tensor F) :
  shape (squash_mem self x) = shape x.
Proof. unfold squash_mem. destruct (nonlinear_squash_mem self); reflexivity. Qed.

(** A well-shaped call returns; it appends one entry to the stored list
    and leaves the rest of the state alone. *)
Lemma forward_ok (self : t) (x : Tensor F) (state : State F)
    (kpm : option Mask) (L B : nat) (banks : list (Tensor F)) :
  wf_module self -> input_ok self L B x ->
  memory_banks state = Some banks -> Forall (bank_ok self B) banks ->
  mask_ok L B kpm ->
  exists output next_m,
    forward self x state kpm
    = Ok (output, mkState (Some (banks ++ [next_m])) (encoder_states state))
    /\ shape next_m = [1; B; embed_dim self]
    /\ shape output = [L; B; embed_dim self].
Proof.
  intros Hwf Hx Hst Hbanks Hmask.
  destruct (@forward_locals_ok self x state kpm L B banks)
    as (loc & Eloc & _ & _ & _ & _ & _ & So); auto.
  unfold forward. rewrite Eloc, Hst. cbn [bind].
  do 2 eexists. split; [reflexivity|].
  unfold shape in So. injection So as O0 O1 O2.
  rewrite shape_squash_mem. unfold shape.
  destruct (dims_slice0_last (l_output_and_memory loc)) as (-> & -> & ->).
  destruct (dims_slice0_drop_last (l_output_and_memory loc)) as (-> & -> & ->).
  rewrite O0, O1, O2. split; repeat f_equal; lia.
Qed.

Lemma forward_all_ok (self : t) (B : nat)
    (calls : list (Tensor F * option Mask)) :
  wf_module self -> calls_ok self B calls ->
  forall (state : State F) (banks : list (Tensor F)),
    memory_banks state = Some banks -> Forall (bank_ok self B) banks ->
    exists banks',
      forward_all self calls state
      = Ok (mkState (Some banks') (encoder_states state))
      /\ length banks' = length banks + length calls
      /\ Forall (bank_ok self B) banks'.
Proof.
  intros Hwf Hcalls. induction Hcalls as [|[x kpm] calls (L & Hx & Hm) _ IH];
    intros state banks Hst Hbanks.
  - exists banks. simpl. destruct state as [mb es]. simpl in *. subst.
    repeat split; auto.
  - destruct (@forward_ok self x state kpm L B banks)
      as (out & next_m & E & Sn & _); auto.
    cbn [forward_all fst snd] in *. rewrite E. cbn [bind snd].
    destruct (IH (mkState (Some (banks ++ [next_m])) (encoder_states state))
                 (banks ++ [next_m])) as (banks' & E' & Hlen & Hall).
    + reflexivity.
    + apply Forall_app. split; auto.
    + exists banks'. split; [exact E'|]. split; auto.
      rewrite Hlen, length_app. simpl. lia.
Qed.
Lemma pad_all_false (self : t) (B : nat) (mem : list (Tensor F))
    (aw : Tensor F) (kpm : Mask) :
  mask_any kpm = false ->
  pad self B mem aw (Some kpm) = pad self B mem aw None.
Proof. intros H. unfold pad. now rewrite H. Qed.

(** C1, as the code has it.  With [max_memory_size = N >= 0], [k]
    well-shaped calls from an empty memory bank all return, and the
    memory bank a further call attends to, the stored list cut to its
    last [N] entries, has [min k N] entries: none when [N = 0], and never
    more than [N]. *)
Theorem memory_bank_cap (self : t) (B N : nat)
    (calls : list (Tensor F * option Mask)) (state : State F) :
  wf_module self -> max_memory_size self = Z.of_nat N ->
  calls_ok self B calls -> memory_banks state = Some [] ->
  exists stored,
    forward_all self calls state
    = Ok (mkState (Some stored) (encoder_states state))
    /\ length (retained_banks self stored) = Nat.min (length calls) N
    /\ length (retained_banks self stored) <= N
    /\ (N = 0 -> retained_banks self stored = []).
Proof.
  intros Hwf HN Hcalls Hst.
  destruct (@forward_all_ok self B calls Hwf Hcalls state [])
    as (stored & E & Hlen & _); auto.
  exists stored. split; [exact E|]. simpl in Hlen.
  assert (Hr : length (retained_banks self stored) = Nat.min (length calls) N).
  { rewrite retained_banks_length, HN, Hlen.
    replace (Z.of_nat N >? -1)%Z with true by lia. lia. }
  split; [exact Hr|]. split; [lia|].
  intros ->. destruct (retained_banks self stored); auto.
  simpl in Hr. lia.
Qed.

(** C5.  A call on an input of shape (L + 1, batch, embed_dim) returns
    and appends exactly one tensor of shape (1, batch, embed_dim) to the
    state's memory bank list, whatever the segment length [L]. *)
Theorem forward_appends_one (self : t) (x : Tensor F) (state : State F)
    (kpm : option Mask) (L B : nat) (banks : list (Tensor F)) :
  wf_module self -> input_ok self L B x ->
  memory_banks state = Some banks -> Forall (bank_ok self B) banks ->
  mask_ok L B kpm ->
  exists output next_m state',
    forward self x state kpm = Ok (output, state')
    /\ memory_banks state' = Some (banks ++ [next_m])
    /\ shape next_m = [1; B; embed_dim self]
    /\ bank_count state' = bank_count state + 1.
Proof.
  intros Hwf Hx Hst Hbanks Hmask.
  destruct (@forward_ok self x state kpm L B banks)
    as (out & next_m & E & Sn & _); auto.
  exists out, next_m. eexists. split; [exact E|].
  unfold bank_count. cbn [memory_banks]. rewrite Hst.
  repeat split; auto. rewrite length_app. reflexivity.
Qed.

(** C7.  On a well-shaped input with segment length [L], batch size [B],
    [H] heads of dimension [D] and [m] retained memory banks, both shape
    assertions pass: the scores have shape (B * H, L + 1, L + m), the
    aggregated attention has shape (B * H, L + 1, D); the returned
    output has shape (L, B, H * D). *)
Theorem forward_shapes (self : t) (x : Tensor F) (state : State F)
    (kpm : option Mask) (L B : nat) (banks : list (Tensor F)) :
  wf_module self -> input_ok self L B x ->
  memory_banks state = Some banks -> Forall (bank_ok self B) banks ->
  mask_ok L B kpm ->
  exists loc output state',
    forward_locals self x state kpm = Ok loc
    /\ forward self x state kpm = Ok (output, state')
    /\ shape (l_scores loc)
       = [B * num_heads self; L + 1; L + length (l_memory_banks loc)]
    /\ shape (l_attention loc) = [B * num_heads self; L + 1; head_dim self]
    /\ shape output = [L; B; num_heads self * head_dim self].
Proof.
  intros Hwf Hx Hst Hbanks Hmask.
  destruct (@forward_locals_ok self x state kpm L B banks)
    as (loc & Eloc & Hm & Ss & _ & _ & Sa & _); auto.
  destruct (@forward_ok self x state kpm L B banks)
    as (out & next_m & E & _ & So); auto.
  exists loc, out. eexists. split; [exact Eloc|]. split; [exact E|].
  rewrite Hm. destruct Hwf as (HE & _). rewrite <- HE. auto.
Qed.

(** C10.  A key padding mask without a set entry is treated as an absent
    one: same result, same state. *)
Theorem forward_mask_all_false (self : t) (x : Tensor F) (state : State F)
    (kpm : Mask) :
  (forall b, In b (mdata kpm) -> b = false) ->
  forward self x state (Some kpm) = forward self x state None.
Proof.
  intros Hall.
  assert (Hany : mask_any kpm = false).
  { unfold mask_any. apply not_true_is_false. intros H.
    apply existsb_exists in H. destruct H as (b & Hb & ->).
    now specialize (Hall true Hb). }
  unfold forward. f_equal. unfold forward_locals.
  destruct (memory_banks state); [|reflexivity]. cbn [bind]. cbv zeta.
  destruct (cat0 _); [|reflexivity]. cbn [bind].
  destruct (project _ _ _ _); [|reflexivity]. cbn [bind].
  destruct (bmm _ _); [|reflexivity]. cbn [bind].
  destruct (restrict _ _ _); [|reflexivity]. cbn [bind].
  destruct (assert _); [|reflexivity]. cbn [bind].
  now rewrite pad_all_false.
Qed.
End Shapes.

Section Probabilities.
Context {F : Type} {ops : FloatOps F}.

(** What the local tensors of a call that reached its end are. *)
Lemma forward_locals_inv (self : t) (x : Tensor F) (state : State F)
    (kpm : option Mask) (loc : Locals) :
  forward_locals self x state kpm = Ok loc ->
  exists aw,
    restrict self (l_memory_banks loc) aw = Ok (l_scores loc)
    /\ pad self (dim1 x) (l_memory_banks loc) (l_scores loc) kpm
       = Ok (l_masked loc)
    /\ l_softmax loc = softmax (l_masked loc)
    /\ l_attention_probs loc
       = replace_nan (dropout (dropout_module self) (l_softmax loc)).
Proof.
  unfold forward_locals.
  destruct (memory_banks state); [|discriminate]. cbn [bind]. cbv zeta.
  destruct (cat0 _); [|discriminate]. cbn [bind].
  destruct (project _ _ _ _); [|discriminate]. cbn [bind].
  destruct (bmm _ _) as [aw|]; [|discriminate]. cbn [bind].
  destruct (restrict _ _ aw) as [aw0|] eqn:Er; [|discriminate]. cbn [bind].
  destruct (assert _); [|discriminate]. cbn [bind].
  destruct (pad _ _ _ aw0 kpm) as [aw1|] eqn:Ep; [|discriminate]. cbn [bind].
  destruct (bmm _ _); [|discriminate]. cbn [bind].
  destruct (assert _); [|discriminate]. cbn [bind].
  destruct (view _ _ _ _); [|discriminate]. cbn [bind].
  destruct (linear _ _); [|discriminate]. cbn [bind].
  intros E. injection E as <-. cbn [l_memory_banks l_scores l_masked
    l_softmax l_attention_probs]. exists aw. auto.
Qed.

(** With [disable_mem_on_mem_attn], the summary row of the scores is
    negative infinity on the memory columns. *)
Lemma restrict_summary_row (self : t) (mem : list (Tensor F))
    (aw aw0 : Tensor F) (bh c : nat) :
  restrict self mem aw = Ok aw0 -> disable_mem_on_mem_attn self = true ->
  bh < dim0 aw -> c < length mem -> c < dim2 aw ->
  get3 aw0 bh (dim1 aw - 1) c = neg_inf.
Proof.
  unfold restrict. intros E Hd Hbh Hc Hc2. rewrite Hd in E.
  destruct (fill_last_row aw (length mem) neg_inf) as [aw'|] eqn:Ef;
    [|discriminate].
  cbn [bind] in E. injection E as <-.
  assert (Hpos : 0 < dim1 aw).
  { unfold fill_last_row in Ef. destruct (dim1 aw =? 0) eqn:Ez;
      [discriminate|]. apply Nat.eqb_neq in Ez. lia. }
  assert (He : get3 aw' bh (dim1 aw - 1) c = neg_inf).
  { rewrite (@get3_fill_last_row F _ aw aw' (length mem) neg_inf bh
               (dim1 aw - 1) c Ef) by lia.
    rewrite Nat.eqb_refl. cbn [andb].
    replace (c <? length mem) with true; auto.
    symmetry. now apply Nat.ltb_lt. }
  destruct (@fill_last_row_dims F _ aw (length mem) neg_inf Hpos)
    as (aw'' & Ef' & D0 & D1 & D2).
  rewrite Ef in Ef'. injection Ef' as <-.
  destruct (std_scale self) as [s|]; auto.
  destruct (@attention_suppression_entry F _ aw' s bh (dim1 aw - 1) c)
    as [E | E]; try lia; congruence.
Qed.

Lemma pad_entry (self : t) (B : nat) (mem : list (Tensor F))
    (aw0 aw1 : Tensor F) (kpm : option Mask) (bh i c : nat) :
  pad self B mem aw0 kpm = Ok aw1 ->
  bh < B * num_heads self -> i < dim1 aw0 -> c < dim2 aw0 ->
  get3 aw1 bh i c = neg_inf \/ get3 aw1 bh i c = get3 aw0 bh i c.
Proof.
  unfold pad. intros E Hbh Hi Hc.
  destruct kpm as [k|]; [|injection E as <-; auto].
  destruct (mask_any k); [|injection E as <-; auto].
  destruct (mask_cat1 _ k) as [k'|]; [|discriminate]. cbn [bind] in E.
  rewrite (@get3_masked_fill_heads F _ aw0 aw1 B (num_heads self) k' neg_inf
             bh i c E) by assumption.
  destruct (get2 _ _ _); auto.
Qed.

(** The columns of padded key positions are negative infinity. *)
Lemma pad_entry_padded (self : t) (B L : nat) (mem : list (Tensor F))
    (aw0 aw1 : Tensor F) (k : Mask) (b h i j : nat) :
  pad self B mem aw0 (Some k) = Ok aw1 ->
  mrows k = B -> mcols k = L -> dim2 aw0 = L + length mem ->
  b < B -> h < num_heads self -> i < dim1 aw0 -> j < L ->
  get2 k b j = true ->
  get3 aw1 (b * num_heads self + h) i (length mem + j) = neg_inf.
Proof.
  unfold pad. intros E Hr Hc H2 Hb Hh Hi Hj Hpad.
  rewrite (@mask_any_entry k b j Hpad) in E.
  unfold mask_cat1, mask_zeros in E. cbn [mrows mcols init2] in E.
  rewrite Hr, Nat.eqb_refl in E. cbn [bind] in E.
  erewrite get3_masked_fill_heads; [|exact E|nia|lia|lia].
  set (k' := init2 _ _ _).
  assert (Kr : mrows k' = B) by reflexivity.
  assert (Kc : mcols k' = length mem + mcols k) by reflexivity.
  rewrite Kr, Kc. unfold k'.
  rewrite Nat.div_add_l, Nat.div_small, Nat.add_0_r by lia.
  rewrite !bidx_lt by lia.
  rewrite get2_init2 by lia.
  replace (length mem + j <? length mem) with false
    by (symmetry; apply Nat.ltb_ge; lia).
  replace (length mem + j - length mem) with j by lia.
  now rewrite Hpad.
Qed.
End Probabilities.

Section MaskedProbabilities.
Context {F : Type} {ops : FloatOps F} {laws : FloatLaws F}.

Lemma in_row (t0 : Tensor F) (i j k : nat) :
  k < dim2 t0 -> In (get3 t0 i j k) (row t0 i j).
Proof.
  intros Hk. unfold row, tabulate. apply in_map. apply in_seq. lia.
Qed.

(** A masked score ends as a zero probability. *)
Lemma masked_probability_zero (self : t) (loc : Locals) (x : Tensor F)
    (state : State F) (kpm : option Mask) (bh i c : nat) :
  forward_locals self x state kpm = Ok loc ->
  bh < dim0 (l_masked loc) -> i < dim1 (l_masked loc) ->
  c < dim2 (l_masked loc) ->
  get3 (l_masked loc) bh i c = neg_inf ->
  get3 (l_attention_probs loc) bh i c = fzero.
Proof.
  intros E Hbh Hi Hc Hinf.
  destruct (forward_locals_inv _ _ _ _ E) as (aw & _ & _ & Hs & Hp).
  rewrite Hp, Hs. apply probability_zero; auto.
  rewrite get3_softmax by assumption.
  apply softmax_row_neg_inf.
  - now rewrite length_row.
  - now rewrite nth_row.
Qed.

(** C3.  With [disable_mem_on_mem_attn] the probability of the summary
    (last) query row is exactly zero on every memory bank column, for
    every head: in the probabilities the values are aggregated with, and
    already in the softmax output whenever the summary row holds scores
    (finite, or negative infinity where masked) of which one on a
    non-memory column is not masked. *)
Theorem summary_ignores_memory (self : t) (x : Tensor F) (state : State F)
    (kpm : option Mask) (L B : nat) (banks : list (Tensor F)) :
  wf_module self -> input_ok self L B x ->
  memory_banks state = Some banks -> Forall (bank_ok self B) banks ->
  mask_ok L B kpm ->
  disable_mem_on_mem_attn self = true ->
  exists loc,
    forward_locals self x state kpm = Ok loc
    /\ forall bh c,
         bh < B * num_heads self -> c < length (l_memory_banks loc) ->
         get3 (l_attention_probs loc) bh L c = fzero
         /\ (Forall is_score (row (l_masked loc) bh L) ->
             (exists c', length (l_memory_banks loc) <= c'
                         /\ c' < length (l_memory_banks loc) + L
                         /\ get3 (l_masked loc) bh L c' <> neg_inf) ->
             get3 (l_softmax loc) bh L c = fzero).
Proof.
  intros Hwf Hx Hst Hbanks Hmask Hdis.
  destruct (@forward_locals_ok F _ self x state kpm L B banks)
    as (loc & E & Hm & Ss & Sm & _); auto.
  exists loc. split; [exact E|]. intros bh c Hbh Hc.
  destruct (forward_locals_inv _ _ _ _ E) as (aw & Er & Ep & Hs & Hp).
  unfold shape in Ss, Sm. injection Ss as S0 S1 S2. injection Sm as M0 M1 M2.
  rewrite <- Hm in S2, M2.
  destruct (@restrict_dims F _ self (l_memory_banks loc) aw)
    as (aw0 & Er' & Saw).
  { unfold restrict in Er. destruct (disable_mem_on_mem_attn self);
      [|discriminate].
    unfold fill_last_row in Er. destruct (dim1 aw =? 0) eqn:Ez;
      [discriminate|]. apply Nat.eqb_neq in Ez. lia. }
  rewrite Er in Er'. injection Er' as <-.
  unfold shape in Saw. injection Saw as A0 A1 A2.
  assert (Hscore : get3 (l_scores loc) bh L c = neg_inf).
  { replace L with (dim1 aw - 1) by lia.
    apply (@restrict_summary_row F _ self (l_memory_banks loc) aw);
      auto; lia. }
  assert (Hx1 : dim1 x = B) by (destruct Hx as [Hx _]; now injection Hx).
  rewrite Hx1 in Ep.
  assert (Hmasked : get3 (l_masked loc) bh L c = neg_inf).
  { destruct (@pad_entry F _ self B (l_memory_banks loc) (l_scores loc)
                (l_masked loc) kpm bh L c Ep) as [H | H];
      try lia; congruence. }
  split.
  - apply (@masked_probability_zero self loc x state kpm); auto; lia.
  - intros Hrow (c' & Hlo & Hhi & Hne).
    rewrite Hs, get3_softmax by lia.
    apply softmax_row_neg_inf_exact; auto.
    + apply Exists_exists. exists (get3 (l_masked loc) bh L c'). split.
      * apply in_row. lia.
      * rewrite Forall_forall in Hrow.
        assert (Hin : In (get3 (l_masked loc) bh L c')
                         (row (l_masked loc) bh L))
          by (apply in_row; lia).
        destruct (Hrow _ Hin) as [Hf | Hf]; [exact Hf | contradiction].
    + rewrite length_row. lia.
    + rewrite nth_row by lia. exact Hmasked.
Qed.

End MaskedProbabilities.
End AttentionProofs.

(** ** The layer: the summary query *)

Lemma tabulate_shift (B : Type) (g : nat -> B) (a n : nat) :
  tabulate n (fun i => g (a + i)) = map g (seq a n).
Proof.
  unfold tabulate. rewrite <- (map_map (fun i => a + i) g). f_equal.
  revert a. induction n as [|n IH]; intros a; simpl; auto.
  rewrite Nat.add_0_r. f_equal.
  rewrite <- seq_shift, map_map, <- (IH (S a)).
  apply map_ext. intros i. lia.
Qed.

Section SliceLemmas.
Context {A : Type} {dA : Default A}.

(** Row [i] of a slice is row [lo + i] of the tensor. *)
Lemma get3_slice0 (t : Tensor A) (start stop : option Z) (i j k : nat) :
  i < dim0 (slice0 t start stop) -> j < dim1 t -> k < dim2 t ->
  get3 (slice0 t start stop) i j k
  = get3 t (slice_lo (dim0 t) start + i) j k.
Proof.
  unfold slice0, get3. cbn [dim0 dim1 dim2 tdata]. intros Hi Hj Hk.
  rewrite nth_firstn.
  replace (_ <? _) with true.
  - rewrite nth_skipn. f_equal. lia.
  - symmetry. apply Nat.ltb_lt.
    assert (i * dim1 t + j < (slice_hi (dim0 t) stop
                              - slice_lo (dim0 t) start) * dim1 t) by nia.
    nia.
Qed.

(** The entries of a concatenation of two tensors along the first
    dimension. *)
Lemma get3_cat0_pair (a b t : Tensor A) (i j k : nat) :
  cat0 [a; b] = Ok t -> wf a -> j < dim1 a -> k < dim2 a ->
  get3 t i j k
  = if i <? dim0 a then get3 a i j k else get3 b (i - dim0 a) j k.
Proof.
  unfold cat0. cbn [forallb]. intros E Hwf Hj Hk.
  destruct ((dim1 b =? dim1 a) && (dim2 b =? dim2 a)) eqn:Hd; [|discriminate].
  cbn [andb] in E. injection E as <-.
  apply andb_prop in Hd. destruct Hd as [H1 H2].
  apply Nat.eqb_eq in H1, H2.
  unfold get3. cbn [dim0 dim1 dim2 tdata map concat]. rewrite app_nil_r.
  unfold wf, numel in Hwf.
  destruct (i <? dim0 a) eqn:Hi.
  - apply Nat.ltb_lt in Hi. rewrite app_nth1; auto.
    rewrite Hwf. assert (i * dim1 a + j < dim0 a * dim1 a) by nia. nia.
  - apply Nat.ltb_ge in Hi.
    assert (Hle : dim0 a * dim1 a <= i * dim1 a) by nia.
    assert (Hle' : dim0 a * dim1 a * dim2 a <= i * dim1 a * dim2 a) by nia.
    rewrite app_nth2 by (rewrite Hwf; nia).
    rewrite Hwf, H1, H2. f_equal.
    assert (Ei : i = dim0 a + (i - dim0 a)) by lia.
    rewrite Ei at 1. generalize (i - dim0 a). intros i'.
    replace ((dim0 a + i') * dim1 a + j)
      with (dim0 a * dim1 a + (i' * dim1 a + j)) by lia.
    rewrite Nat.mul_add_distr_r. lia.
Qed.
End SliceLemmas.

Module LayerProofs.
Import AugmentedMemoryTransformerEncoderLayer.
Section Summary.
Context {F : Type} {ops : FloatOps F}.

(** C8, as the code has it.  Let [x'] be the layer input [x] after the
    pre-normalization: [self_attn_layer_norm x] when [normalize_before]
    is set, [x] itself otherwise.  The tensor handed to the attention
    operator is [x'] followed by one more time step, the summary query:
    the elementwise mean over time of
    [x'[left_context : length - right_context]] when
    [left_context < length - right_context], and zeros otherwise.  On a
    pre-norm layer this is the mean of the normalised frames, not of the
    layer input. *)
Theorem summary_query_spec (self : t) (x : Tensor F) :
  let x' := pre_norm self x in
  let len := dim0 x in
  let l := left_context self in
  let r := right_context self in
  shape x' = shape x -> wf x' ->
  x' = (if normalize_before self then self_attn_layer_norm self x else x)
  /\ exists xs,
       input_and_summary self x = Ok xs
       /\ shape xs = [len + 1; dim1 x; dim2 x]
       /\ (forall i j k, i < len -> j < dim1 x -> k < dim2 x ->
             get3 xs i j k = get3 x' i j k)
       /\ (forall j k, j < dim1 x -> k < dim2 x ->
             get3 xs len j k
             = if (Z.of_nat l <? Z.of_nat len - Z.of_nat r)%Z
               then fdiv (fsum (map (fun i => get3 x' i j k)
                                    (seq l (len - r - l))))
                         (fof_nat (len - r - l))
               else fzero).
Proof.
  intros x' len l r Hs Hwf.
  split; [reflexivity|].
  unfold shape in Hs. injection Hs as S0 S1 S2.
  unfold input_and_summary. fold x'.
  set (q := summarization_query self x).
  assert (Q : dim0 q = 1 /\ dim1 q = dim1 x /\ dim2 q = dim2 x).
  { unfold q, summarization_query, summarize_segment, mean0.
    destruct (_ <? _)%Z; cbn [dim0 dim1 dim2 init3 slice0]; auto. }
  destruct Q as (Q0 & Q1 & Q2).
  destruct (@cat0_dims F [x'; q] (dim1 x) (dim2 x)) as (xs & E & D0 & D1 & D2).
  { discriminate. }
  { repeat constructor; congruence. }
  exists xs. split; [exact E|].
  cbn [map list_sum fold_right] in D0. rewrite S0, Q0 in D0.
  split; [unfold shape, len; rewrite D0, D1, D2; f_equal; lia|].
  split.
  - intros i j k Hi Hj Hk.
    rewrite (@get3_cat0_pair F _ x' q xs i j k E) by (auto; congruence).
    rewrite S0. replace (i <? dim0 x) with true; auto.
    symmetry. now apply Nat.ltb_lt.
  - intros j k Hj Hk.
    rewrite (@get3_cat0_pair F _ x' q xs len j k E) by (auto; congruence).
    rewrite S0. unfold len. rewrite Nat.ltb_irrefl, Nat.sub_diag.
    unfold q, summarization_query, summarize_segment. fold x' len l r.
    destruct (Z.of_nat l <? Z.of_nat len - Z.of_nat r)%Z eqn:Hlt.
    + apply Z.ltb_lt in Hlt.
      set (seg := slice0 x' _ _).
      assert (Hlo : slice_lo (dim0 x') (Some (Z.of_nat l)) = l).
      { unfold slice_lo, slice_index.
        replace (Z.of_nat l <? 0)%Z with false by lia. rewrite S0.
        fold len. lia. }
      assert (Hn : dim0 seg = len - r - l).
      { unfold seg, slice0, slice_hi. rewrite Hlo. cbn [dim0].
        unfold slice_index.
        replace (Z.of_nat len - Z.of_nat r <? 0)%Z with false by lia.
        rewrite S0. fold len. lia. }
      unfold mean0. rewrite get3_init3; try lia;
        try (unfold seg; cbn [slice0 dim1 dim2]; lia).
      rewrite Hn. f_equal. f_equal.
      rewrite <- tabulate_shift. apply tabulate_ext. intros i Hi.
      unfold seg. rewrite get3_slice0; try lia.
      * now rewrite Hlo.
      * fold seg. lia.
    + rewrite get3_init3; auto.
Qed.
End Summary.
End LayerProofs.

(** ** The encoder: the loop over the layers *)

Lemma length_filter_map (A B : Type) (g : A -> B) (p : B -> bool)
    (l : list A) :
  length (filter p (map g l)) = length (filter (fun a => p (g a)) l).
Proof.
  induction l as [|a l IH]; simpl; auto.
  destruct (p (g a)); simpl; auto.
Qed.

Lemma last_cons (A : Type) (l : list A) (a d : A) :
  last (a :: l) d = last l a.
Proof.
  revert a d. induction l as [|b l IH]; intros a d; auto.
  change (last (a :: b :: l) d) with (last (b :: l) d).
  rewrite (IH b d). symmetry. apply (IH b a).
Qed.

Lemma list_index_app (A : Type) (pre l : list A) (a : A) :
  list_index (pre ++ a :: l) (Z.of_nat (length pre)) = Ok a.
Proof.
  unfold list_index.
  assert (H : (Z.of_nat (length pre) <? 0)%Z = false) by (apply Z.ltb_ge; lia).
  rewrite !H.
  rewrite Nat2Z.id, nth_error_app2, Nat.sub_diag by lia. reflexivity.
Qed.

Lemma list_set_app (A : Type) (pre l : list A) (a v : A) :
  list_set (pre ++ a :: l) (length pre) v = pre ++ v :: l.
Proof. induction pre as [|p pre IH]; simpl; auto. now rewrite IH. Qed.

Lemma list_index_last (A : Type) (l : list A) (a : A) :
  list_index (l ++ [a]) (-1)%Z = Ok a.
Proof.
  unfold list_index. change (-1 <? 0)%Z with true. cbv iota.
  rewrite length_app. cbn [length].
  assert (H : (Z.of_nat (length l + 1) + -1 <? 0)%Z = false)
    by (apply Z.ltb_ge; lia).
  rewrite H.
  replace (Z.to_nat (Z.of_nat (length l + 1) + -1)) with (length l) by lia.
  rewrite nth_error_app2, Nat.sub_diag by lia. reflexivity.
Qed.

Module EncoderProofs.
Import AugmentedMemoryConvTransformerEncoder.
Section Loop.
Context {F : Type} {ops : FloatOps F}.

Lemma trim_context_is_trimmed (self : t) (y : Tensor F) :
  is_trimmed (left_context_after_stride self)
    (right_context_after_stride self) y (trim_context self y).
Proof.
  set (l := left_context_after_stride self).
  set (r := right_context_after_stride self).
  assert (Hlo : slice_lo (dim0 y) (Some (Z.of_nat l)) = Nat.min l (dim0 y)).
  { unfold slice_lo, slice_index.
    replace (Z.of_nat l <? 0)%Z with false by lia. lia. }
  assert (Hhi : slice_hi (dim0 y)
                  (if 0 <? r then Some (- Z.of_nat r)%Z else None)
                = dim0 y - r).
  { destruct (0 <? r) eqn:Hr.
    - apply Nat.ltb_lt in Hr. unfold slice_hi, slice_index.
      replace (- Z.of_nat r <? 0)%Z with true by lia. lia.
    - apply Nat.ltb_ge in Hr. unfold slice_hi. lia. }
  unfold is_trimmed, trim_context. fold l r. split.
  - unfold shape, slice0. cbn [dim0 dim1 dim2]. rewrite Hlo, Hhi.
    f_equal. lia.
  - intros i j k Hi Hj Hk. rewrite get3_slice0; auto.
    + rewrite Hlo. f_equal. lia.
    + unfold slice0. cbn [dim0]. rewrite Hlo, Hhi. lia.
Qed.

Lemma trim_mask_counts (self : t (F := F)) (m : Mask) :
  mask_count_false (trim_mask self m)
  = tabulate (mrows m)
      (unpadded_count (left_context_after_stride self)
         (right_context_after_stride self) m).
Proof.
  set (l := left_context_after_stride self).
  set (r := right_context_after_stride self).
  assert (Hlo : slice_lo (mcols m) (Some (Z.of_nat l)) = Nat.min l (mcols m)).
  { unfold slice_lo, slice_index.
    replace (Z.of_nat l <? 0)%Z with false by lia. lia. }
  assert (Hhi : slice_hi (mcols m)
                  (if 0 <? r then Some (- Z.of_nat r)%Z else None)
                = mcols m - r).
  { destruct (0 <? r) eqn:Hr.
    - apply Nat.ltb_lt in Hr. unfold slice_hi, slice_index.
      replace (- Z.of_nat r <? 0)%Z with true by lia. lia.
    - apply Nat.ltb_ge in Hr. unfold slice_hi. lia. }
  unfold mask_count_false, trim_mask, mask_slice1. fold l r.
  rewrite Hlo, Hhi. cbn [mrows mcols init2].
  apply tabulate_ext. intros i Hi. unfold unpadded_count. f_equal.
  replace (mcols m - r - Nat.min l (mcols m)) with (mcols m - l - r) by lia.
  destruct (Nat.le_gt_cases (mcols m) l) as [Hle | Hgt].
  - replace (mcols m - l - r) with 0 by lia. reflexivity.
  - replace (Nat.min l (mcols m)) with l by lia.
    match goal with
    | |- context [tabulate ?n (get2 ?m' i)] =>
        replace (tabulate n (get2 m' i)) with (map (get2 m i) (seq l n))
    end.
    + apply length_filter_map.
    + rewrite <- tabulate_shift. apply tabulate_ext. intros j Hj.
      now rewrite get2_init2.
Qed.

Lemma run_layers_chain (self : t)
    (layers : list (AugmentedMemoryTransformerEncoderLayer.t (F := F)))
    (mask : Mask) :
  forall (pre : list (State F)) (x : Tensor F) (states : list (State F))
         (outs : list (Tensor F * State F)),
    layer_chain layers x states mask = Ok outs ->
    length states = length layers ->
    run_layers self layers (length pre) x (pre ++ states) mask
    = Ok (last (map fst outs) x, pre ++ map (finish self) outs)
    /\ length outs = length layers.
Proof.
  induction layers as [|layer layers IH]; intros pre x states outs Hc Hlen.
  - destruct states; [|discriminate]. simpl in Hc. injection Hc as <-.
    simpl. auto.
  - destruct states as [|st states]; [discriminate|].
    cbn [layer_chain] in Hc.
    destruct (AugmentedMemoryTransformerEncoderLayer.forward layer x st
                (Some mask)) as [r|] eqn:Er; [|discriminate].
    cbn [bind] in Hc.
    destruct (layer_chain layers (fst r) states mask) as [rest|] eqn:Erest;
      [|discriminate].
    cbn [bind] in Hc. injection Hc as <-.
    cbn [run_layers]. rewrite list_index_app. cbn [bind]. rewrite Er.
    cbn [bind]. rewrite list_set_app.
    destruct (IH (pre ++ [finish self r]) (fst r) states rest Erest)
      as [Hrun Hl]; [simpl in Hlen; lia|].
    rewrite length_app in Hrun. cbn [length] in Hrun.
    rewrite Nat.add_1_r, <- app_assoc in Hrun. cbn [app] in Hrun.
    unfold finish at 1 in Hrun. rewrite Hrun. split.
    + f_equal. f_equal.
      * cbn [map]. symmetry. apply last_cons.
      * now rewrite <- app_assoc.
    + simpl. lia.
Qed.
Lemma finish_all (self : t) (outs : list (Tensor F * State F)) :
  Forall2
    (fun out st =>
       memory_banks st = memory_banks (snd out)
       /\ exists e, encoder_states st = Some e
                    /\ is_trimmed (left_context_after_stride self)
                         (right_context_after_stride self) (fst out) e)
    outs (map (finish self) outs).
Proof.
  induction outs as [|o outs IH]; simpl; constructor; auto.
  split; auto. eexists. split; [reflexivity|].
  apply trim_context_is_trimmed.
Qed.

(** C9.  When the layers return, the encoder returns; every layer's
    state then holds in [encoder_states] that layer's output without its
    first [left_context_after_stride] rows and without its last
    [right_context_after_stride] rows; the returned lengths count, per
    batch element, the positions of the padding mask that are not padding
    among the columns trimmed the same way; the first returned value is
    the [encoder_states] of the last layer. *)
Theorem encoder_forward_spec (self : t) (src_tokens : Tensor F)
    (src_lengths : list nat) (states : option (list (State F)))
    (x0 : Tensor F) (mask : Mask) (outs : list (Tensor F * State F)) :
  let l := left_context_after_stride self in
  let r := right_context_after_stride self in
  embed self src_tokens src_lengths = Ok (x0, mask) ->
  length (initial_states self states) = length (transformer_layers self) ->
  transformer_layers self <> [] ->
  layer_chain (transformer_layers self) x0 (initial_states self states) mask
  = Ok outs ->
  exists first final,
    forward self src_tokens src_lengths states
    = Ok (Some first, tabulate (mrows mask) (unpadded_count l r mask), final)
    /\ Forall2
         (fun out st =>
            memory_banks st = memory_banks (snd out)
            /\ exists e, encoder_states st = Some e
                         /\ is_trimmed l r (fst out) e)
         outs final
    /\ exists outs' out_last final' st_last,
         outs = outs' ++ [out_last] /\ final = final' ++ [st_last]
         /\ encoder_states st_last = Some first
         /\ is_trimmed l r (fst out_last) first.
Proof.
  intros l r He Hlen Hne Hc.
  destruct (@run_layers_chain self (transformer_layers self) mask [] x0
              (initial_states self states) outs Hc Hlen) as [Hrun Hl].
  cbn [length app] in Hrun.
  assert (Hlast : exists outs' out_last, outs = outs' ++ [out_last]).
  { destruct outs as [|o outs] using rev_ind.
    - destruct (transformer_layers self); [congruence | discriminate].
    - eauto. }
  destruct Hlast as (outs' & out_last & ->).
  exists (trim_context self (fst out_last)), (map (finish self) (outs' ++ [out_last])).
  split; [|split].
  - unfold forward. rewrite He. cbn [bind fst snd]. rewrite Hrun.
    cbn [bind snd]. rewrite trim_mask_counts.
    rewrite map_app. cbn [map]. rewrite list_index_last. reflexivity.
  - apply finish_all.
  - exists outs', out_last, (map (finish self) outs'), (finish self out_last).
    rewrite map_app. repeat split; auto.
    + apply trim_context_is_trimmed.
    + apply trim_context_is_trimmed.
Qed.
End Loop.
End EncoderProofs.

(** ** The memory bank: which entries a call reads, and what it stores *)

Module MemoryProofs.
Import AugmentedMemoryMultiheadAttention.
Section Memory.
Context {F : Type} {ops : FloatOps F}.

Lemma retained_banks_skipn (self : t) (banks : list (Tensor F)) :
  retained_banks self banks
  = if (max_memory_size self <? 0)%Z then banks
    else skipn (length banks - Z.to_nat (max_memory_size self)) banks.
Proof.
  unfold retained_banks.
  destruct (max_memory_size self <? 0)%Z eqn:Hneg.
  - apply Z.ltb_lt in Hneg.
    replace (max_memory_size self >? -1)%Z with false by lia. reflexivity.
  - apply Z.ltb_ge in Hneg.
    replace (max_memory_size self >? -1)%Z with true by lia. cbn [andb].
    destruct (Z.of_nat (length banks) >? max_memory_size self)%Z eqn:Hlen.
    + destruct (max_memory_size self =? 0)%Z eqn:Hz.
      * apply Z.eqb_eq in Hz. rewrite Hz. cbn [Z.to_nat].
        rewrite Nat.sub_0_r. symmetry. apply skipn_all.
      * apply Z.eqb_neq in Hz.
        unfold list_slice, slice_lo, slice_hi, slice_index.
        replace (- max_memory_size self <? 0)%Z with true by lia.
        replace (Z.to_nat (Z.of_nat (length banks) + - max_memory_size self))
          with (length banks - Z.to_nat (max_memory_size self)) by lia.
        apply firstn_all2. rewrite length_skipn. lia.
    + replace (length banks - Z.to_nat (max_memory_size self)) with 0 by lia.
      reflexivity.
Qed.

Lemma retained_banks_app (self : t) (old recent : list (Tensor F)) :
  max_memory_size self = Z.of_nat (length recent) ->
  retained_banks self (old ++ recent) = recent.
Proof.
  intros Hcap. rewrite retained_banks_skipn, Hcap.
  replace (Z.of_nat (length recent) <? 0)%Z with false by lia.
  rewrite Nat2Z.id, length_app, Nat.add_sub.
  rewrite skipn_app, skipn_all, Nat.sub_diag. reflexivity.
Qed.

(** X1.  The memory banks a call attends to are a suffix of the stored
    list, the most recent entries: all of them when [max_memory_size] is
    negative, the last [max_memory_size] (or all, when fewer are stored)
    otherwise.  The older entries are the ones left out. *)
Theorem retained_banks_most_recent (self : t) (banks : list (Tensor F)) :
  exists older,
    banks = older ++ retained_banks self banks
    /\ length older
       = if (max_memory_size self <? 0)%Z then 0
         else length banks - Z.to_nat (max_memory_size self).
Proof.
  rewrite retained_banks_skipn.
  destruct (max_memory_size self <? 0)%Z.
  - exists []. auto.
  - exists (firstn (length banks - Z.to_nat (max_memory_size self)) banks).
    split.
    + symmetry. apply firstn_skipn.
    + rewrite length_firstn. lia.
Qed.

(** X2.  With a cap of [N] memory banks, a call never looks at a stored
    entry older than the last [N]: on a state that stores [old ++ recent]
    with [N] recent entries it computes the same local tensors and returns
    the same output (or raises the same exception) as on a state that
    stores [recent] alone. *)
Theorem forward_ignores_old_banks (self : t) (x : Tensor F)
    (old recent : list (Tensor F)) (es es' : option (Tensor F))
    (kpm : option Mask) :
  max_memory_size self = Z.of_nat (length recent) ->
  forward_locals self x (mkState (Some (old ++ recent)) es) kpm
  = forward_locals self x (mkState (Some recent) es') kpm
  /\ returned (forward self x (mkState (Some (old ++ recent)) es) kpm)
     = returned (forward self x (mkState (Some recent) es') kpm).
Proof.
  intros Hcap.
  assert (Hl : forward_locals self x (mkState (Some (old ++ recent)) es) kpm
               = forward_locals self x (mkState (Some recent) es') kpm).
  { unfold forward_locals. cbn [memory_banks bind]. cbv zeta.
    rewrite retained_banks_app by assumption.
    pose proof (@retained_banks_app self [] recent Hcap) as H0.
    cbn [app] in H0. rewrite H0. reflexivity. }
  split; [exact Hl|].
  unfold forward. rewrite Hl.
  destruct (forward_locals self x (mkState (Some recent) es') kpm);
    reflexivity.
Qed.

(** X3.  Whatever [max_memory_size] is, a run of calls that returns never
    drops or changes a stored entry: the stored list afterwards is the
    stored list before followed by one new entry per call, and
    ["encoder_states"] is left as it was. *)
Theorem stored_banks_only_grow (self : t)
    (calls : list (Tensor F * option Mask)) :
  forall (state state' : State F) (banks : list (Tensor F)),
    memory_banks state = Some banks ->
    forward_all self calls state = Ok state' ->
    exists new,
      memory_banks state' = Some (banks ++ new)
      /\ length new = length calls
      /\ encoder_states state' = encoder_states state.
Proof.
  induction calls as [|[x kpm] calls IH]; intros state state' banks Hst E.
  - cbn [forward_all] in E. injection E as <-. exists [].
    rewrite app_nil_r. auto.
  - cbn [forward_all] in E. unfold forward in E at 1.
    destruct (forward_locals self x state kpm) as [loc|]; [|discriminate].
    cbn [bind] in E. rewrite Hst in E. cbn [bind snd] in E.
    match type of E with
    | forward_all _ _ (mkState (Some (banks ++ [?m])) _) = _ =>
        destruct (IH (mkState (Some (banks ++ [m])) (encoder_states state))
                    state' (banks ++ [m]) eq_refl E) as (new & Hb & Hl & He);
        exists (m :: new)
    end.
    rewrite <- app_assoc in Hb. cbn [app] in Hb.
    split; [exact Hb|]. split; [simpl; lia | exact He].
Qed.
End Memory.
End MemoryProofs.

(** ** The operator: what it returns, what the padding mask touches *)

Module OperatorProofs.
Import AugmentedMemoryMultiheadAttention AttentionProofs.
Section Operator.
Context {F : Type} {ops : FloatOps F}.

(** X4.  On a well-shaped call the projected tensor [output_and_memory]
    is split along time: the returned output is its first [L] rows (one
    per frame of the segment), and the entry appended to the memory bank
    is its last row, the summary's, passed through [tanh] when the module
    was built with [tanh_on_mem] and unchanged otherwise. *)
Theorem forward_splits_output (self : t) (x : Tensor F) (state : State F)
    (kpm : option Mask) (L B : nat) (banks : list (Tensor F)) :
  wf_module self -> input_ok self L B x ->
  memory_banks state = Some banks -> Forall (bank_ok self B) banks ->
  mask_ok L B kpm ->
  exists loc output next_m,
    forward_locals self x state kpm = Ok loc
    /\ forward self x state kpm
       = Ok (output, mkState (Some (banks ++ [next_m])) (encoder_states state))
    /\ (forall i j k, i < L -> j < B -> k < embed_dim self ->
          get3 output i j k = get3 (l_output_and_memory loc) i j k)
    /\ (forall j k, j < B -> k < embed_dim self ->
          get3 next_m 0 j k
          = if nonlinear_squash_mem self
            then ftanh (get3 (l_output_and_memory loc) L j k)
            else get3 (l_output_and_memory loc) L j k).
Proof.
  intros Hwf Hx Hst Hbanks Hmask.
  destruct (@forward_locals_ok F _ self x state kpm L B banks)
    as (loc & E & _ & _ & _ & _ & _ & So); auto.
  unfold shape in So. injection So as O0 O1 O2.
  exists loc. do 2 eexists. split; [exact E|].
  split; [unfold forward; rewrite E, Hst; reflexivity|].
  set (oam := l_output_and_memory loc) in *.
  destruct (dims_slice0_last oam) as (N0 & N1 & N2).
  destruct (dims_slice0_drop_last oam) as (D0 & D1 & D2).
  split.
  - intros i j k Hi Hj Hk. rewrite get3_slice0 by lia. reflexivity.
  - intros j k Hj Hk.
    assert (Hlast : get3 (slice0 oam (Some (-1)%Z) None) 0 j k
                    = get3 oam L j k).
    { rewrite get3_slice0 by lia. f_equal.
      unfold slice_lo, slice_index. rewrite O0.
      change (-1 <? 0)%Z with true. cbv iota. lia. }
    unfold squash_mem. destruct (nonlinear_squash_mem self).
    + rewrite get3_tmap by lia. now rewrite Hlast.
    + exact Hlast.
Qed.

(** X5.  The key padding mask never masks a memory bank, and never a key
    position it does not mark: on a well-shaped call the scores after
    masking equal the scores before it on every memory bank column, and
    on the column of every frame [j] of the segment that the mask leaves
    unset for the batch element. *)
Theorem padding_spares_memory (self : t) (x : Tensor F) (state : State F)
    (kpm : Mask) (L B : nat) (banks : list (Tensor F)) :
  wf_module self -> input_ok self L B x ->
  memory_banks state = Some banks -> Forall (bank_ok self B) banks ->
  mask_ok L B (Some kpm) ->
  exists loc,
    forward_locals self x state (Some kpm) = Ok loc
    /\ (forall bh i c,
          bh < B * num_heads self -> i < L + 1 ->
          c < length (l_memory_banks loc) ->
          get3 (l_masked loc) bh i c = get3 (l_scores loc) bh i c)
    /\ (forall b h i j,
          b < B -> h < num_heads self -> i < L + 1 -> j < L ->
          get2 kpm b j = false ->
          get3 (l_masked loc) (b * num_heads self + h) i
               (length (l_memory_banks loc) + j)
          = get3 (l_scores loc) (b * num_heads self + h) i
                 (length (l_memory_banks loc) + j)).
Proof.
  intros Hwf Hx Hst Hbanks Hmask.
  destruct (@forward_locals_ok F _ self x state (Some kpm) L B banks)
    as (loc & E & Hm & Ss & _); auto.
  exists loc. split; [exact E|].
  destruct (forward_locals_inv _ _ _ _ E) as (aw & _ & Ep & _ & _).
  unfold shape in Ss. injection Ss as S0 S1 S2. rewrite <- Hm in S2.
  assert (Hx1 : dim1 x = B) by (destruct Hx as [Hx _]; now injection Hx).
  rewrite Hx1 in Ep. destruct Hmask as [Hr Hc].
  set (mem := l_memory_banks loc) in *.
  assert (Hentry : forall b h i c,
            b < B -> h < num_heads self -> i < L + 1 -> c < L + length mem ->
            get3 (l_masked loc) (b * num_heads self + h) i c
            = if mask_any kpm
              then if (if c <? length mem then false
                       else get2 kpm b (c - length mem))
                   then neg_inf
                   else get3 (l_scores loc) (b * num_heads self + h) i c
              else get3 (l_scores loc) (b * num_heads self + h) i c).
  { intros b h i c Hb Hh Hi Hlt. unfold pad in Ep.
    destruct (mask_any kpm); [|now injection Ep as <-].
    unfold mask_cat1, mask_zeros in Ep. cbn [mrows mcols init2] in Ep.
    rewrite Hr, Nat.eqb_refl in Ep. cbn [bind] in Ep.
    erewrite get3_masked_fill_heads; [|exact Ep|nia|lia|lia].
    set (k' := init2 _ _ _).
    assert (Kr : mrows k' = B) by reflexivity.
    assert (Kc : mcols k' = length mem + mcols kpm) by reflexivity.
    rewrite Kr, Kc. unfold k'.
    rewrite Nat.div_add_l, Nat.div_small, Nat.add_0_r by lia.
    rewrite !bidx_lt by lia.
    rewrite get2_init2 by lia.
    destruct (c <? length mem) eqn:Hcm; [|reflexivity].
    apply Nat.ltb_lt in Hcm. rewrite get2_init2 by lia. reflexivity. }
  split.
  - intros bh i c Hbh Hi Hc'.
    assert (HH : 0 < num_heads self)
      by (destruct Hwf as (_ & HH & _); exact HH).
    assert (Ebh : bh = bh / num_heads self * num_heads self
                       + bh mod num_heads self).
    { rewrite Nat.mul_comm. apply Nat.div_mod_eq. }
    rewrite Ebh, Hentry.
    + replace (c <? length mem) with true by (symmetry; now apply Nat.ltb_lt).
      now destruct (mask_any kpm).
    + apply Nat.Div0.div_lt_upper_bound. lia.
    + apply Nat.mod_upper_bound. lia.
    + exact Hi.
    + lia.
  - intros b h i j Hb Hh Hi Hj Hfree.
    rewrite Hentry by (auto; lia).
    replace (length mem + j <? length mem) with false
      by (symmetry; apply Nat.ltb_ge; lia).
    replace (length mem + j - length mem) with j by lia.
    rewrite Hfree. now destruct (mask_any kpm).
Qed.

(** X6.  An input without a single row, not even the summary's, is
    refused whatever the stored memory: the write into the summary row
    raises [IndexError] when [disable_mem_on_mem_attn] is set, and the
    first shape assertion fails otherwise. *)
Theorem forward_rejects_empty_input (self : t) (x : Tensor F)
    (state : State F) (kpm : option Mask) (B : nat)
    (banks : list (Tensor F)) :
  wf_module self -> shape x = [0; B; embed_dim self] -> 0 < B ->
  memory_banks state = Some banks -> Forall (bank_ok self B) banks ->
  forward self x state kpm
  = Raise (if disable_mem_on_mem_attn self then IndexError
           else AssertionError).
Proof.
  intros Hwf Hx HB Hst Hbanks.
  unfold shape in Hx. injection Hx as Hx0 Hx1 Hx2.
  unfold forward, forward_locals. rewrite Hst. cbn [bind]. cbv zeta.
  rewrite Hx0, Hx1.
  set (mem := retained_banks self banks) in *.
  assert (Hmem : Forall (bank_ok self B) mem)
    by now apply retained_banks_Forall.
  assert (Hmem1 : Forall (fun u => dim0 u = 1) mem)
    by (eapply Forall_impl; [|exact Hmem]; intros u Hu; now injection Hu).
  assert (Hmem2 : Forall (fun u => dim1 u = B /\ dim2 u = embed_dim self) mem)
    by (eapply Forall_impl; [|exact Hmem]; intros u Hu; now injection Hu).
  destruct (dims_slice0_drop_last x) as (S0 & S1 & S2).
  rewrite Hx0 in S0. cbn [Nat.sub] in S0.
  destruct (@cat0_dims F (mem ++ [slice0 x None (Some (-1)%Z)]) B
              (embed_dim self)) as (mbi & Embi & M0 & M1 & M2).
  { now destruct mem. }
  { apply Forall_app. split; auto. }
  rewrite map_app, list_sum_app, list_sum_ones in M0 by assumption.
  cbn [map list_sum fold_right] in M0. rewrite S0 in M0.
  rewrite Embi. cbn [bind].
  destruct (@project_dims F _ self B x mbi)
    as (q & k & v & Eqkv & Sq & Sk & Sv); auto.
  unfold shape in Sq, Sk, Sv.
  injection Sq as Q0 Q1 Q2. injection Sk as K0 K1 K2. injection Sv as V0 V1 V2.
  rewrite Eqkv. cbn [bind fst snd].
  destruct (@bmm_dims F _ q (transpose12 k)) as (aw & Eaw & A0 & A1 & A2);
    [cbn [transpose12 init3 dim0 dim1 dim2]; congruence ..|].
  cbn [transpose12 init3 dim0 dim1 dim2] in A2.
  rewrite Eaw. cbn [bind].
  unfold restrict.
  destruct (disable_mem_on_mem_attn self).
  - unfold fill_last_row.
    replace (dim1 aw =? 0) with true
      by (symmetry; apply Nat.eqb_eq; congruence).
    reflexivity.
  - cbn [bind].
    assert (Hshape : forall aw' : Tensor F,
              shape aw' = shape aw ->
              shape_is (shape aw')
                [Z.of_nat (B * num_heads self); (Z.of_nat 0 - 1 + 1)%Z;
                 (Z.of_nat 0 - 1 + Z.of_nat (length mem))%Z] = false).
    { intros aw' Saw. unfold shape_is.
      destruct (list_eq_dec _ _ _) as [Heq | Hne]; auto.
      rewrite Saw in Heq. unfold shape in Heq. cbn [map] in Heq.
      apply (f_equal (fun l => nth 2 l 0%Z)) in Heq. cbn [nth] in Heq. lia. }
    destruct (std_scale self) as [s|].
    + rewrite Hshape; [reflexivity|].
      unfold shape.
      destruct (dims_attention_suppression aw s) as (-> & -> & ->).
      reflexivity.
    + rewrite Hshape; reflexivity.
Qed.

(** A well-shaped call reaches the key padding mask; an exception of the
    masking step is the call's. *)
Lemma forward_locals_pad_raises (self : t) (x : Tensor F) (state : State F)
    (L B : nat) (banks : list (Tensor F)) :
  wf_module self -> input_ok self L B x ->
  memory_banks state = Some banks -> Forall (bank_ok self B) banks ->
  exists scores,
    shape scores
    = [B * num_heads self; L + 1; L + length (retained_banks self banks)]
    /\ forall kpm e,
         pad self B (retained_banks self banks) scores kpm = Raise e ->
         forward_locals self x state kpm = Raise e.
Proof.
  intros Hwf (Hx & HB) Hst Hbanks.
  unfold shape in Hx. injection Hx as Hx0 Hx1 Hx2.
  unfold forward_locals. rewrite Hst. cbn [bind]. cbv zeta.
  rewrite Hx0, Hx1.
  set (mem := retained_banks self banks) in *.
  assert (Hmem : Forall (bank_ok self B) mem)
    by now apply retained_banks_Forall.
  assert (Hmem1 : Forall (fun u => dim0 u = 1) mem)
    by (eapply Forall_impl; [|exact Hmem]; intros u Hu; now injection Hu).
  assert (Hmem2 : Forall (fun u => dim1 u = B /\ dim2 u = embed_dim self) mem)
    by (eapply Forall_impl; [|exact Hmem]; intros u Hu; now injection Hu).
  destruct (dims_slice0_drop_last x) as (S0 & S1 & S2).
  destruct (@cat0_dims F (mem ++ [slice0 x None (Some (-1)%Z)]) B
              (embed_dim self)) as (mbi & Embi & M0 & M1 & M2).
  { now destruct mem. }
  { apply Forall_app. split; auto. }
  rewrite map_app, list_sum_app, list_sum_ones in M0 by assumption.
  cbn [map list_sum fold_right] in M0. rewrite S0, Hx0 in M0.
  rewrite Embi. cbn [bind].
  destruct (@project_dims F _ self B x mbi)
    as (q & k & v & Eqkv & Sq & Sk & Sv); auto.
  unfold shape in Sq, Sk, Sv.
  injection Sq as Q0 Q1 Q2. injection Sk as K0 K1 K2. injection Sv as V0 V1 V2.
  rewrite Eqkv. cbn [bind fst snd].
  destruct (@bmm_dims F _ q (transpose12 k)) as (aw & Eaw & A0 & A1 & A2);
    [cbn [transpose12 init3 dim0 dim1 dim2]; congruence ..|].
  cbn [transpose12 init3 dim0 dim1 dim2] in A2.
  rewrite Eaw. cbn [bind].
  destruct (@restrict_dims F _ self mem aw) as (aw0 & Eaw0 & Saw0); [lia|].
  unfold shape in Saw0. injection Saw0 as R0 R1 R2.
  rewrite Eaw0. cbn [bind].
  rewrite shape_is_true
    by (unfold shape; cbn [map]; rewrite R0, R1, R2; repeat f_equal; lia).
  cbn [assert bind].
  exists aw0. split.
  - unfold shape. rewrite R0, R1, R2. repeat f_equal; lia.
  - intros kpm e Hp. rewrite Hp. reflexivity.
Qed.

(** X7.  A key padding mask that marks a position must have the shape
    (batch, segment length): on an otherwise well-shaped call a mask with
    another number of rows, or with another number of columns (a single
    column that broadcasts apart), is refused with torch's
    [RuntimeError], by [torch.cat] or by [masked_fill]. *)
Theorem forward_rejects_misshapen_mask (self : t) (x : Tensor F)
    (state : State F) (k : Mask) (L B : nat) (banks : list (Tensor F)) :
  wf_module self -> input_ok self L B x ->
  memory_banks state = Some banks -> Forall (bank_ok self B) banks ->
  mask_any k = true ->
  mrows k <> B
  \/ (mcols k <> L /\ length (retained_banks self banks) + mcols k <> 1) ->
  forward self x state (Some k) = Raise RuntimeError.
Proof.
  intros Hwf Hx Hst Hbanks Hany Hbad.
  destruct (@forward_locals_pad_raises self x state L B banks)
    as (scores & Ss & Hraise); auto.
  unfold forward. rewrite (Hraise (Some k) RuntimeError); [reflexivity|].
  unfold shape in Ss. injection Ss as S0 S1 S2.
  unfold pad. rewrite Hany. unfold mask_cat1, mask_zeros.
  cbn [mrows mcols init2].
  destruct (B =? mrows k) eqn:Hrows; [|reflexivity].
  apply Nat.eqb_eq in Hrows. cbn [bind].
  destruct Hbad as [Hr | [Hc H1]]; [congruence|].
  unfold masked_fill_heads, numel. rewrite S0, Nat.eqb_refl. cbn [negb].
  cbn [mrows mcols init2]. rewrite Nat.eqb_refl. cbn [orb andb].
  replace (length (retained_banks self banks) + mcols k =? dim2 scores)
    with false by (symmetry; apply Nat.eqb_neq; lia).
  replace (length (retained_banks self banks) + mcols k =? 1)
    with false by (symmetry; apply Nat.eqb_neq; lia).
  reflexivity.
Qed.
End Operator.

Section PaddedKeys.
Context {F : Type} {ops : FloatOps F} {laws : FloatLaws F}.

(** X8.  A key position that the padding mask marks receives no
    attention: on a well-shaped call, for a batch element [b] and a frame
    [j] with [key_padding_mask[b][j]] set, the attention probability of
    every head and every query row (the summary's included) on the column
    of frame [j] is exactly zero, whether or not other frames of the
    batch element are padded. *)
Theorem padded_key_probability_zero (self : t) (x : Tensor F)
    (state : State F) (k : Mask) (L B b j : nat) (banks : list (Tensor F)) :
  wf_module self -> input_ok self L B x ->
  memory_banks state = Some banks -> Forall (bank_ok self B) banks ->
  mask_ok L B (Some k) ->
  b < B -> j < L -> get2 k b j = true ->
  exists loc,
    forward_locals self x state (Some k) = Ok loc
    /\ forall h i,
         h < num_heads self -> i < L + 1 ->
         get3 (l_attention_probs loc) (b * num_heads self + h) i
              (length (l_memory_banks loc) + j) = fzero.
Proof.
  intros Hwf Hx Hst Hbanks Hmask Hb Hj Hpad.
  destruct (@forward_locals_ok F _ self x state (Some k) L B banks)
    as (loc & E & Hm & Ss & Sm & _); auto.
  exists loc. split; [exact E|].
  destruct (forward_locals_inv _ _ _ _ E) as (aw & _ & Ep & _ & _).
  unfold shape in Ss, Sm. injection Ss as S0 S1 S2. injection Sm as M0 M1 M2.
  rewrite <- Hm in S2, M2.
  assert (Hx1 : dim1 x = B) by (destruct Hx as [Hx _]; now injection Hx).
  rewrite Hx1 in Ep. destruct Hmask as [Hr Hc].
  intros h i Hh Hi.
  apply (@masked_probability_zero F _ _ self loc x state (Some k));
    auto; try lia; try nia.
  apply (@pad_entry_padded F _ self B L (l_memory_banks loc)
           (l_scores loc) (l_masked loc) k); auto; lia.
Qed.
End PaddedKeys.
End OperatorProofs.

(** ** The layer: a whole call *)

Section AddLemmas.
Context {F : Type} {ops : FloatOps F}.

Lemma tensor_add_same (a b : Tensor F) :
  shape b = shape a ->
  exists c, tensor_add a b = Ok c /\ shape c = shape a.
Proof.
  intros Hs. unfold shape in Hs. injection Hs as E0 E1 E2.
  unfold tensor_add, broadcastable. rewrite E0, E1, E2, !Nat.eqb_refl.
  cbn [orb andb]. eexists. split; [reflexivity|].
  unfold shape, broadcast2. cbn [init3 dim0 dim1 dim2].
  now rewrite E0, E1, E2, !bdim_same.
Qed.

Lemma linear_shape (l : Linear) (x : Tensor F) (a b : nat) :
  shape x = [a; b; in_features l] ->
  exists y, linear l x = Ok y /\ shape y = [a; b; out_features l].
Proof.
  intros Hs. unfold shape in Hs. injection Hs as E0 E1 E2.
  destruct (@linear_dims F _ l x E2) as (y & E & D0 & D1 & D2).
  exists y. split; [exact E|]. unfold shape. congruence.
Qed.
End AddLemmas.

Module LayerForwardProofs.
Import AugmentedMemoryTransformerEncoderLayer.
Section Forward.
Context {F : Type} {ops : FloatOps F}.

Lemma input_and_summary_shape (self : t) (x : Tensor F) (L B E : nat) :
  (forall y, shape (self_attn_layer_norm self y) = shape y) ->
  shape x = [L; B; E] ->
  exists xs, input_and_summary self x = Ok xs /\ shape xs = [L + 1; B; E].
Proof.
  intros Hnorm Hx.
  assert (Hp : shape (pre_norm self x) = [L; B; E]).
  { unfold pre_norm. destruct (normalize_before self); auto.
    now rewrite Hnorm. }
  unfold shape in Hx, Hp. injection Hx as X0 X1 X2.
  injection Hp as P0 P1 P2.
  unfold input_and_summary.
  set (q := summarization_query self x).
  assert (Q : dim0 q = 1 /\ dim1 q = B /\ dim2 q = E).
  { unfold q, summarization_query, summarize_segment, mean0.
    destruct (_ <? _)%Z; cbn [dim0 dim1 dim2 init3 slice0]; auto. }
  destruct Q as (Q0 & Q1 & Q2).
  destruct (@cat0_dims F [pre_norm self x; q] B E)
    as (xs & Exs & D0 & D1 & D2).
  { discriminate. }
  { repeat constructor; assumption. }
  exists xs. split; [exact Exs|].
  cbn [map list_sum fold_right] in D0.
  unfold shape. rewrite D0, D1, D2, P0, Q0. reflexivity.
Qed.

(** A well-shaped call of a layer returns: the output has the shape of
    the input and the state has one more memory bank entry. *)
Lemma layer_forward_ok (self : t) (x : Tensor F) (state : State F)
    (kpm : option Mask) (L B E : nat) :
  wf_layer self ->
  AugmentedMemoryMultiheadAttention.embed_dim (self_attn self) = E ->
  shape x = [L; B; E] -> 0 < B ->
  Forall (fun m => shape m = [1; B; E]) (stored_banks state) ->
  AugmentedMemoryMultiheadAttention.mask_ok L B kpm ->
  exists y next_m,
    forward self x state kpm
    = Ok (y, mkState (Some (stored_banks state ++ [next_m]))
               (encoder_states state))
    /\ shape y = [L; B; E]
    /\ shape next_m = [1; B; E].
Proof.
  intros (Hattn & Hf1 & Hf12 & Hf2 & Hn1 & Hn2) HE Hx HB Hbanks Hmask.
  subst E.
  set (E := AugmentedMemoryMultiheadAttention.embed_dim (self_attn self)) in *.
  destruct (@input_and_summary_shape self x L B E Hn1 Hx)
    as (xs & Exs & Sxs).
  unfold forward. rewrite Exs. cbn [bind].
  set (state0 := match memory_banks state with
                 | Some _ => state
                 | None => mkState (Some []) (encoder_states state)
                 end).
  assert (Hst0 : memory_banks state0 = Some (stored_banks state)
                 /\ encoder_states state0 = encoder_states state).
  { unfold state0, stored_banks.
    destruct (memory_banks state) eqn:Em; cbn [memory_banks encoder_states];
      auto. }
  destruct Hst0 as [Hm0 He0].
  destruct (@AttentionProofs.forward_ok F _ (self_attn self) xs state0 kpm L B
              (stored_banks state))
    as (out & next_m & Ef & Sn & So); auto.
  { split; assumption. }
  fold E in Sn, So.
  rewrite Ef. cbn [bind fst snd]. rewrite He0.
  destruct (@tensor_add_same F _ x
              (dropout (dropout_module self) out)) as (x1 & E1 & S1).
  { rewrite AttentionProofs.shape_dropout. congruence. }
  rewrite E1. cbn [bind].
  set (x2 := if negb (normalize_before self)
             then self_attn_layer_norm self x1 else x1).
  assert (S2 : shape x2 = [L; B; E]).
  { unfold x2. destruct (negb _); [rewrite Hn1|]; congruence. }
  set (x3 := if normalize_before self then final_layer_norm self x2 else x2).
  assert (S3 : shape x3 = [L; B; in_features (fc1 self)]).
  { unfold x3. rewrite Hf1. fold E.
    destruct (normalize_before self); [rewrite Hn2|]; congruence. }
  destruct (@linear_shape F _ (fc1 self) x3 L B S3) as (x4 & E4 & S4).
  rewrite E4. cbn [bind].
  set (x5 := dropout (activation_dropout_module self)
               (tmap (activation_fn self) x4)).
  assert (S5 : shape x5 = [L; B; in_features (fc2 self)]).
  { unfold x5. rewrite AttentionProofs.shape_dropout, Hf12.
    unfold shape in S4 |- *. cbn [tmap init3 dim0 dim1 dim2]. exact S4. }
  destruct (@linear_shape F _ (fc2 self) x5 L B S5) as (x6 & E6 & S6).
  rewrite E6. cbn [bind]. rewrite Hf2 in S6. fold E in S6.
  destruct (@tensor_add_same F _ x2
              (dropout (dropout_module self) x6)) as (x7 & E7 & S7).
  { rewrite AttentionProofs.shape_dropout. congruence. }
  rewrite E7. cbn [bind].
  do 2 eexists. split; [reflexivity|]. split; [|exact Sn].
  destruct (negb _); [rewrite Hn2|]; congruence.
Qed.

(** X9.  A layer called on a well-shaped input of [L] frames returns,
    and its output has the shape of its input.  It initialises a missing
    memory bank: on a state whose ["memory_banks"] is [None] it behaves
    as on the empty list (the attention operator alone would raise
    [TypeError]), and afterwards the state holds the stored entries
    followed by one new entry of shape (1, batch, embed_dim), with
    ["encoder_states"] left as it was. *)
Theorem layer_forward_spec (self : t) (x : Tensor F) (state : State F)
    (kpm : option Mask) (L B E : nat) :
  wf_layer self ->
  AugmentedMemoryMultiheadAttention.embed_dim (self_attn self) = E ->
  shape x = [L; B; E] -> 0 < B ->
  Forall (fun m => shape m = [1; B; E]) (stored_banks state) ->
  AugmentedMemoryMultiheadAttention.mask_ok L B kpm ->
  (exists y state',
     forward self x state kpm = Ok (y, state')
     /\ shape y = shape x
     /\ encoder_states state' = encoder_states state
     /\ exists next_m,
          memory_banks state' = Some (stored_banks state ++ [next_m])
          /\ shape next_m = [1; B; E])
  /\ forward self x (mkState None (encoder_states state)) kpm
     = forward self x (mkState (Some []) (encoder_states state)) kpm
  /\ (forall xs,
        AugmentedMemoryMultiheadAttention.forward (self_attn self) xs
          (mkState None (encoder_states state)) kpm
        = Raise TypeError).
Proof.
  intros Hwf HE Hx HB Hbanks Hmask.
  destruct (@layer_forward_ok self x state kpm L B E)
    as (y & next_m & Ef & Sy & Sn); auto.
  split; [|split; reflexivity].
  exists y. eexists. split; [exact Ef|]. split; [congruence|].
  split; [reflexivity|]. exists next_m. split; [reflexivity | exact Sn].
Qed.
End Forward.
End LayerForwardProofs.

(** ** The encoder: a whole call *)

Module EncoderForwardProofs.
Import AugmentedMemoryConvTransformerEncoder EncoderProofs.
Section Forward.
Context {F : Type} {ops : FloatOps F}.

(** The loop when the caller's list holds more states than there are
    layers: the surplus is carried along. *)
Lemma run_layers_surplus (self : t)
    (layers : list (AugmentedMemoryTransformerEncoderLayer.t (F := F)))
    (mask : Mask) (extra : list (State F)) :
  forall (pre : list (State F)) (x : Tensor F) (states : list (State F))
         (outs : list (Tensor F * State F)),
    layer_chain layers x states mask = Ok outs ->
    length states = length layers ->
    run_layers self layers (length pre) x (pre ++ states ++ extra) mask
    = Ok (last (map fst outs) x, pre ++ map (finish self) outs ++ extra).
Proof.
  induction layers as [|layer layers IH]; intros pre x states outs Hc Hlen.
  - destruct states; [|discriminate]. simpl in Hc. injection Hc as <-.
    reflexivity.
  - destruct states as [|st states]; [discriminate|].
    cbn [layer_chain] in Hc.
    destruct (AugmentedMemoryTransformerEncoderLayer.forward layer x st
                (Some mask)) as [r|] eqn:Er; [|discriminate].
    cbn [bind] in Hc.
    destruct (layer_chain layers (fst r) states mask) as [rest|] eqn:Erest;
      [|discriminate].
    cbn [bind] in Hc. injection Hc as <-.
    cbn [run_layers app]. rewrite list_index_app. cbn [bind]. rewrite Er.
    cbn [bind]. rewrite list_set_app.
    assert (Hrun := IH (pre ++ [finish self r]) (fst r) states rest Erest).
    rewrite length_app in Hrun. cbn [length] in Hrun.
    rewrite Nat.add_1_r, <- !app_assoc in Hrun. cbn [app] in Hrun.
    unfold finish at 1 in Hrun. rewrite Hrun by (simpl in Hlen; lia).
    f_equal. f_equal.
    cbn [map]. symmetry. apply last_cons.
Qed.

(** The loop when the caller's list runs out of states. *)
Lemma run_layers_short (self : t) (mask : Mask) (T B E : nat) :
  mrows mask = B -> mcols mask = T -> 0 < B ->
  forall (states : list (State F))
         (layers : list (AugmentedMemoryTransformerEncoderLayer.t (F := F)))
         (pre : list (State F)) (x : Tensor F),
    layers_ok E layers -> states_ok E B states ->
    shape x = [T; B; E] -> length states < length layers ->
    run_layers self layers (length pre) x (pre ++ states) mask
    = Raise IndexError.
Proof.
  intros Hr Hc HB.
  induction states as [|st states IH]; intros layers pre x Hl Hs Hx Hlen.
  - destruct layers as [|layer layers]; [simpl in Hlen; lia|].
    cbn [run_layers]. rewrite app_nil_r. unfold list_index.
    assert (H : (Z.of_nat (length pre) <? 0)%Z = false)
      by (apply Z.ltb_ge; lia).
    rewrite !H, Nat2Z.id.
    replace (nth_error pre (length pre)) with (@None (State F))
      by (symmetry; apply nth_error_None; lia).
    reflexivity.
  - destruct layers as [|layer layers]; [simpl in Hlen; lia|].
    apply Forall_cons_iff in Hl. destruct Hl as [[Hwf HE] Hl'].
    apply Forall_cons_iff in Hs. destruct Hs as [Hst Hs'].
    cbn [run_layers]. rewrite list_index_app. cbn [bind].
    destruct (@LayerForwardProofs.layer_forward_ok F _ layer x st (Some mask)
                T B E) as (y & next_m & Ef & Sy & _); auto.
    { split; assumption. }
    rewrite Ef. cbn [bind fst snd]. rewrite list_set_app.
    match goal with
    | |- run_layers _ _ _ _ (pre ++ ?s :: states) _ = _ =>
        assert (Hrun := IH layers (pre ++ [s]) y Hl' Hs' Sy)
    end.
    rewrite length_app in Hrun. cbn [length] in Hrun.
    rewrite Nat.add_1_r, <- app_assoc in Hrun. cbn [app] in Hrun.
    apply Hrun. simpl in Hlen. lia.
Qed.

(** Well-shaped layers all return, one after the other. *)
Lemma layer_chain_ok (mask : Mask) (T B E : nat) :
  mrows mask = B -> mcols mask = T -> 0 < B ->
  forall (layers : list (AugmentedMemoryTransformerEncoderLayer.t (F := F)))
         (x : Tensor F) (states : list (State F)),
    layers_ok E layers -> states_ok E B states ->
    shape x = [T; B; E] -> length states = length layers ->
    exists outs,
      layer_chain layers x states mask = Ok outs
      /\ Forall2 (layer_step E B T) states outs.
Proof.
  intros Hr Hc HB.
  induction layers as [|layer layers IH]; intros x states Hl Hs Hx Hlen.
  - destruct states; [|discriminate]. exists []. split; [reflexivity|].
    constructor.
  - destruct states as [|st states]; [discriminate|].
    apply Forall_cons_iff in Hl. destruct Hl as [[Hwf HE] Hl'].
    apply Forall_cons_iff in Hs. destruct Hs as [Hst Hs'].
    destruct (@LayerForwardProofs.layer_forward_ok F _ layer x st (Some mask)
                T B E) as (y & next_m & Ef & Sy & Sn); auto.
    { split; assumption. }
    destruct (IH y states Hl' Hs' Sy) as (outs & Ec & Hall);
      [simpl in Hlen; lia|].
    cbn [layer_chain]. rewrite Ef. cbn [bind fst]. rewrite Ec. cbn [bind].
    eexists. split; [reflexivity|]. constructor; [|exact Hall].
    cbn [fst snd]. split; [exact Sy|]. exists next_m. auto.
Qed.

Lemma shape_trim_context (self : t) (y : Tensor F) (T B E : nat) :
  shape y = [T; B; E] ->
  shape (trim_context self y)
  = [T - left_context_after_stride self - right_context_after_stride self;
     B; E].
Proof.
  intros Hy. destruct (trim_context_is_trimmed self y) as [Hs _].
  unfold shape in Hy. injection Hy as <- <- <-. exact Hs.
Qed.

(** The states the encoder stores hold what the layers returned. *)
Lemma finish_stored (self : t) (outs : list (Tensor F * State F)) :
  Forall2 (stored_step self) outs (map (finish self) outs).
Proof.
  induction outs as [|o outs IH]; cbn [map]; constructor; auto.
  split; reflexivity.
Qed.

(** The states the encoder stores are well-shaped when the layers'
    are. *)
Lemma finish_states_ok (self : t) (E B T : nat) (states : list (State F))
    (outs : list (Tensor F * State F)) :
  states_ok E B states -> Forall2 (layer_step E B T) states outs ->
  states_ok E B (map (finish self) outs).
Proof.
  unfold states_ok. intros Hs Hall.
  induction Hall as [|st o sts outs (_ & m & Eo & Sm) _ IH];
    cbn [map]; constructor.
  - unfold stored_banks, finish. cbn [memory_banks]. rewrite Eo.
    cbn [memory_banks]. apply Forall_cons_iff in Hs. destruct Hs as [Hst _].
    apply Forall_app. split; [exact Hst|]. now constructor.
  - apply IH. apply Forall_cons_iff in Hs. now destruct Hs.
Qed.

(** A call of a well-shaped encoder on well-shaped states. *)
Lemma forward_run (self : t) (src_tokens : Tensor F)
    (src_lengths : list nat) (states : option (list (State F)))
    (x0 : Tensor F) (mask : Mask) (T B E : nat) :
  embed self src_tokens src_lengths = Ok (x0, mask) ->
  shape x0 = [T; B; E] -> 0 < B -> mrows mask = B -> mcols mask = T ->
  layers_ok E (transformer_layers self) -> transformer_layers self <> [] ->
  length (initial_states self states) = length (transformer_layers self) ->
  states_ok E B (initial_states self states) ->
  exists outs' out_last,
    layer_chain (transformer_layers self) x0 (initial_states self states)
      mask
    = Ok (outs' ++ [out_last])
    /\ forward self src_tokens src_lengths states
       = Ok (Some (trim_context self (fst out_last)),
             mask_count_false (trim_mask self mask),
             map (finish self) (outs' ++ [out_last]))
    /\ Forall2 (layer_step E B T) (initial_states self states)
         (outs' ++ [out_last])
    /\ shape (fst out_last) = [T; B; E].
Proof.
  intros He Hx HB Hr Hc Hl Hne Hlen Hs.
  destruct (@layer_chain_ok mask T B E Hr Hc HB (transformer_layers self) x0
              (initial_states self states) Hl Hs Hx Hlen)
    as (outs & Ec & Hall).
  assert (Hrun := @run_layers_surplus self (transformer_layers self) mask []
                    [] x0 (initial_states self states) outs Ec Hlen).
  cbn [length app] in Hrun. rewrite !app_nil_r in Hrun.
  assert (Hlast : exists outs' out_last, outs = outs' ++ [out_last]).
  { destruct outs as [|o outs] using rev_ind; [|eauto].
    apply Forall2_length in Hall. rewrite Hlen in Hall.
    destruct (transformer_layers self); [congruence | discriminate]. }
  destruct Hlast as (outs' & out_last & ->).
  exists outs', out_last.
  split; [exact Ec|]. split; [|split; [exact Hall|]].
  - unfold forward. rewrite He. cbn [bind fst snd]. rewrite Hrun.
    cbn [bind snd]. rewrite map_app. cbn [map]. rewrite list_index_last.
    reflexivity.
  - apply Forall2_app_inv_r in Hall.
    destruct Hall as (s1 & s2 & _ & H2 & _).
    inversion H2 as [|? ? ? ? (Sy & _) _]; subst. exact Sy.
Qed.
End Forward.
End EncoderForwardProofs.

Lemma Forall_tabulate (B : Type) (P : B -> Prop) (n : nat) (f : nat -> B) :
  (forall i, i < n -> P (f i)) -> Forall P (tabulate n f).
Proof.
  intros H. unfold tabulate. apply Forall_forall. intros b Hb.
  apply in_map_iff in Hb. destruct Hb as (i & <- & Hi).
  apply in_seq in Hi. apply H. lia.
Qed.

Lemma filter_all (B : Type) (p : B -> bool) (l : list B) :
  (forall b, In b l -> p b = true) -> filter p l = l.
Proof.
  induction l as [|a l IH]; intros H; simpl; auto.
  rewrite (H a) by (now left). f_equal. apply IH. intros b Hb. apply H.
  now right.
Qed.

Module EncoderCallProofs.
Import AugmentedMemoryConvTransformerEncoder EncoderProofs.
Import EncoderForwardProofs.
Section Calls.
Context {F : Type} {ops : FloatOps F}.

(** X10.  The frames a layer summarises are the frames the encoder keeps
    of a layer's output.  Let [x'] be the layer input [x] as it stands
    when the segment is summarised: [self_attn_layer_norm x] on a
    pre-norm layer ([normalize_before]), [x] itself otherwise.  For a
    layer with the encoder's context sizes (both are
    [args.left_context // args.encoder_stride] and its right counterpart)
    the summary query is the mean over time of [x'] trimmed as the
    encoder trims ["encoder_states"], and zeros when nothing is left
    after trimming. *)
Theorem summary_covers_stored_segment (self : t)
    (layer : AugmentedMemoryTransformerEncoderLayer.t (F := F))
    (x : Tensor F) :
  let x' := AugmentedMemoryTransformerEncoderLayer.pre_norm layer x in
  AugmentedMemoryTransformerEncoderLayer.left_context layer
  = left_context_after_stride self ->
  AugmentedMemoryTransformerEncoderLayer.right_context layer
  = right_context_after_stride self ->
  dim0 x' = dim0 x ->
  AugmentedMemoryTransformerEncoderLayer.summarization_query layer x
  = (if 0 <? dim0 (trim_context self x')
     then AugmentedMemoryTransformerEncoderLayer.summarize_segment
            (trim_context self x')
     else init3 1 (dim1 x) (dim2 x) (fun _ _ _ => fzero))
  /\ x' = (if AugmentedMemoryTransformerEncoderLayer.normalize_before layer
           then AugmentedMemoryTransformerEncoderLayer.self_attn_layer_norm
                  layer x
           else x).
Proof.
  intros x' Hl Hr Hd. split; [|reflexivity].
  unfold AugmentedMemoryTransformerEncoderLayer.summarization_query.
  rewrite Hl, Hr. fold x'.
  set (l := left_context_after_stride self).
  set (r := right_context_after_stride self).
  assert (Hlo : slice_lo (dim0 x') (Some (Z.of_nat l)) = Nat.min l (dim0 x)).
  { unfold slice_lo, slice_index.
    replace (Z.of_nat l <? 0)%Z with false by lia. lia. }
  assert (Hhi : slice_hi (dim0 x')
                  (if 0 <? r then Some (- Z.of_nat r)%Z else None)
                = dim0 x - r).
  { destruct (0 <? r) eqn:Hr0.
    - apply Nat.ltb_lt in Hr0. unfold slice_hi, slice_index.
      replace (- Z.of_nat r <? 0)%Z with true by lia. lia.
    - apply Nat.ltb_ge in Hr0. unfold slice_hi. lia. }
  assert (Hd0 : dim0 (trim_context self x') = dim0 x - r - Nat.min l (dim0 x)).
  { unfold trim_context, slice0. fold l r. cbn [dim0].
    now rewrite Hlo, Hhi. }
  rewrite Hd0.
  destruct (Z.of_nat l <? Z.of_nat (dim0 x) - Z.of_nat r)%Z eqn:Hlt.
  - apply Z.ltb_lt in Hlt.
    replace (0 <? dim0 x - r - Nat.min l (dim0 x)) with true
      by (symmetry; apply Nat.ltb_lt; lia).
    f_equal. unfold trim_context, slice0. fold l r. rewrite Hhi.
    replace (slice_hi (dim0 x')
               (Some (Z.of_nat (dim0 x) - Z.of_nat r)%Z))
      with (dim0 x - r); [reflexivity|].
    unfold slice_hi, slice_index.
    replace (Z.of_nat (dim0 x) - Z.of_nat r <? 0)%Z with false by lia.
    lia.
  - apply Z.ltb_ge in Hlt.
    replace (0 <? dim0 x - r - Nat.min l (dim0 x)) with false
      by (symmetry; apply Nat.ltb_ge; lia).
    reflexivity.
Qed.

(** X11.  One step of a stream.  A well-shaped encoder called on [T]
    subsampled frames with one well-shaped state per layer returns.  The
    layers run one after the other, layer [i] on the output of layer
    [i - 1] and on the [i]-th state, and each returns [T] frames and its
    state with exactly one more memory bank entry.  Every returned state
    holds its layer's memory bank and, as ["encoder_states"], its layer's
    output without the context frames; the first returned value is that
    of the last layer, [T - left - right] frames long.  The returned
    states are again one well-shaped state per layer, so they can be
    passed to the next call. *)
Theorem encoder_forward_step (self : t) (src_tokens : Tensor F)
    (src_lengths : list nat) (states : list (State F))
    (x0 : Tensor F) (mask : Mask) (T B E : nat) :
  let T' := T - left_context_after_stride self
            - right_context_after_stride self in
  embed self src_tokens src_lengths = Ok (x0, mask) ->
  shape x0 = [T; B; E] -> 0 < B -> mrows mask = B -> mcols mask = T ->
  layers_ok E (transformer_layers self) -> transformer_layers self <> [] ->
  length states = length (transformer_layers self) ->
  states_ok E B states ->
  exists outs' out_last lengths final,
    layer_chain (transformer_layers self) x0 states mask
    = Ok (outs' ++ [out_last])
    /\ forward self src_tokens src_lengths (Some states)
       = Ok (Some (trim_context self (fst out_last)), lengths, final)
    /\ Forall2 (layer_step E B T) states (outs' ++ [out_last])
    /\ Forall2 (stored_step self) (outs' ++ [out_last]) final
    /\ shape (trim_context self (fst out_last)) = [T'; B; E]
    /\ length final = length (transformer_layers self)
    /\ states_ok E B final.
Proof.
  intros T' He Hx HB Hr Hc Hl Hne Hlen Hs.
  destruct (@forward_run F _ self src_tokens src_lengths (Some states) x0
              mask T B E He Hx HB Hr Hc Hl Hne Hlen Hs)
    as (outs' & out_last & Ec & Ef & Hall & Sy).
  cbn [initial_states] in Ec, Hall.
  exists outs', out_last. do 2 eexists.
  split; [exact Ec|]. split; [exact Ef|]. split; [exact Hall|].
  split; [apply finish_stored|].
  split; [now apply shape_trim_context|]. split.
  - rewrite length_map. apply Forall2_length in Hall. congruence.
  - apply finish_states_ok with (T := T) (states := states); assumption.
Qed.

(** X12.  The first call of a stream.  Called without states, a
    well-shaped encoder makes one state per layer and returns.  The
    layers run one after the other on fresh states, and afterwards the
    state of every layer holds exactly one memory bank entry, of shape
    (1, batch, embed_dim), and, as ["encoder_states"], the output of its
    layer without the context frames; the first returned value is that
    of the last layer, [T - left - right] frames long. *)
Theorem encoder_first_call (self : t) (src_tokens : Tensor F)
    (src_lengths : list nat) (x0 : Tensor F) (mask : Mask) (T B E : nat) :
  let T' := T - left_context_after_stride self
            - right_context_after_stride self in
  embed self src_tokens src_lengths = Ok (x0, mask) ->
  shape x0 = [T; B; E] -> 0 < B -> mrows mask = B -> mcols mask = T ->
  layers_ok E (transformer_layers self) -> transformer_layers self <> [] ->
  exists outs' out_last lengths final,
    layer_chain (transformer_layers self) x0
      (map (fun _ => mkState None None) (transformer_layers self)) mask
    = Ok (outs' ++ [out_last])
    /\ forward self src_tokens src_lengths None
       = Ok (Some (trim_context self (fst out_last)), lengths, final)
    /\ length final = length (transformer_layers self)
    /\ Forall2
         (fun out st' =>
            shape (fst out) = [T; B; E]
            /\ encoder_states st' = Some (trim_context self (fst out))
            /\ shape (trim_context self (fst out)) = [T'; B; E]
            /\ exists next_m,
                 memory_banks st' = Some [next_m]
                 /\ memory_banks (snd out) = Some [next_m]
                 /\ shape next_m = [1; B; E])
         (outs' ++ [out_last]) final.
Proof.
  intros T' He Hx HB Hr Hc Hl Hne.
  destruct (@forward_run F _ self src_tokens src_lengths None x0
              mask T B E He Hx HB Hr Hc Hl Hne)
    as (outs' & out_last & Ec & Ef & Hall & Sy).
  { cbn [initial_states]. apply length_map. }
  { cbn [initial_states]. unfold states_ok. apply Forall_forall.
    intros st Hst. apply in_map_iff in Hst. destruct Hst as (? & <- & _).
    constructor. }
  cbn [initial_states] in Ec, Hall.
  exists outs', out_last. do 2 eexists.
  split; [exact Ec|]. split; [exact Ef|]. split.
  - rewrite length_map. apply Forall2_length in Hall.
    rewrite length_map in Hall. congruence.
  - clear Ec Ef Sy. revert Hall. generalize (outs' ++ [out_last]).
    generalize (transformer_layers self). intros layers.
    induction layers as [|layer layers IH]; intros outs Hall;
      inversion Hall as [|? o ? outs0 (So & m & Eo & Sm) Hrest]; subst;
      cbn [map]; constructor.
    + split; [exact So|]. split; [reflexivity|].
      split; [now apply shape_trim_context|].
      exists m. unfold finish. cbn [memory_banks]. rewrite Eo.
      cbn [memory_banks stored_banks app]. auto.
    + now apply IH.
Qed.

(** X13.  A caller's list with fewer states than the encoder has layers
    is refused with [IndexError], and with no other exception: every
    layer that has a state returns (layer [i] on the output of layer
    [i - 1] and on the [i]-th state, with [T] frames and one more memory
    bank entry), and the look-up of the first missing state raises. *)
Theorem forward_missing_states (self : t) (src_tokens : Tensor F)
    (src_lengths : list nat) (states : list (State F))
    (x0 : Tensor F) (mask : Mask) (T B E : nat) :
  embed self src_tokens src_lengths = Ok (x0, mask) ->
  shape x0 = [T; B; E] -> 0 < B -> mrows mask = B -> mcols mask = T ->
  layers_ok E (transformer_layers self) -> states_ok E B states ->
  length states < length (transformer_layers self) ->
  exists outs,
    layer_chain (firstn (length states) (transformer_layers self)) x0
      states mask
    = Ok outs
    /\ Forall2 (layer_step E B T) states outs
    /\ forward self src_tokens src_lengths (Some states) = Raise IndexError.
Proof.
  intros He Hx HB Hr Hc Hl Hs Hlen.
  destruct (@layer_chain_ok F _ mask T B E Hr Hc HB
              (firstn (length states) (transformer_layers self)) x0 states)
    as (outs & Ec & Hall); auto.
  { now apply Forall_take. }
  { rewrite length_firstn. lia. }
  exists outs. split; [exact Ec|]. split; [exact Hall|].
  unfold forward. rewrite He. cbn [bind fst snd initial_states].
  rewrite (@run_layers_short F _ self mask T B E Hr Hc HB states
             (transformer_layers self) [] x0 Hl Hs Hx Hlen).
  reflexivity.
Qed.

(** X14.  A caller's list with more states than the encoder has layers
    is accepted, and the surplus is returned untouched; the first
    returned value is then the ["encoder_states"] entry of the caller's
    last state as it came in, not the output of the last layer. *)
Theorem forward_surplus_states (self : t) (src_tokens : Tensor F)
    (src_lengths : list nat) (states extra : list (State F))
    (st_last : State F) (x0 : Tensor F) (mask : Mask)
    (outs : list (Tensor F * State F)) :
  embed self src_tokens src_lengths = Ok (x0, mask) ->
  length states = length (transformer_layers self) ->
  layer_chain (transformer_layers self) x0 states mask = Ok outs ->
  forward self src_tokens src_lengths (Some (states ++ extra ++ [st_last]))
  = Ok (encoder_states st_last,
        mask_count_false (trim_mask self mask),
        map (finish self) outs ++ extra ++ [st_last]).
Proof.
  intros He Hlen Hc.
  assert (Hrun := @run_layers_surplus F _ self (transformer_layers self) mask
                    (extra ++ [st_last]) [] x0 states outs Hc Hlen).
  cbn [length app] in Hrun.
  unfold forward. rewrite He. cbn [bind fst snd initial_states].
  rewrite Hrun. cbn [bind snd].
  rewrite !app_assoc, list_index_last. reflexivity.
Qed.

(** X15.  Whenever the encoder returns, the returned lengths hold one
    entry per row of the padding mask, each between zero and the number
    of mask columns left after the context is trimmed; each is that
    number when the mask marks no position. *)
Theorem returned_lengths_bounded (self : t) (src_tokens : Tensor F)
    (src_lengths : list nat) (states : option (list (State F)))
    (x0 : Tensor F) (mask : Mask) (out : option (Tensor F))
    (lengths : list Z) (final : list (State F)) :
  let width := mcols mask - left_context_after_stride self
               - right_context_after_stride self in
  embed self src_tokens src_lengths = Ok (x0, mask) ->
  forward self src_tokens src_lengths states = Ok (out, lengths, final) ->
  length lengths = mrows mask
  /\ Forall (fun n => (0 <= n <= Z.of_nat width)%Z) lengths
  /\ (mask_any mask = false ->
      Forall (fun n => n = Z.of_nat width) lengths).
Proof.
  intros width He Ef. unfold forward in Ef. rewrite He in Ef.
  cbn [bind fst snd] in Ef.
  destruct (run_layers _ _ _ _ _ _) as [r|]; [|discriminate].
  cbn [bind] in Ef.
  destruct (list_index _ _) as [last|]; [|discriminate].
  cbn [bind] in Ef. injection Ef as _ <- _.
  rewrite trim_mask_counts. split; [apply length_tabulate|]. split.
  - apply Forall_tabulate. intros b _. unfold unpadded_count.
    fold width. split; [lia|]. apply inj_le.
    apply Nat.le_trans
      with (length (seq (left_context_after_stride self) width)).
    + apply filter_length_le.
    + now rewrite length_seq.
  - intros Hany. apply Forall_tabulate. intros b _. unfold unpadded_count.
    fold width. f_equal.
    rewrite filter_all; [apply length_seq|].
    intros j _. destruct (get2 mask b j) eqn:Hg; auto.
    apply mask_any_entry in Hg. congruence.
Qed.

(** X16.  An encoder built without layers cannot be called without
    states: once the input is embedded, [states[-1]] is looked up in the
    empty list and raises [IndexError]. *)
Theorem forward_without_layers (self : t) (src_tokens : Tensor F)
    (src_lengths : list nat) :
  transformer_layers self = [] ->
  forward self src_tokens src_lengths None
  = (_ <- embed self src_tokens src_lengths ;; Raise IndexError).
Proof.
  intros Hnil. unfold forward, initial_states. rewrite Hnil.
  destruct (embed self src_tokens src_lengths); reflexivity.
Qed.
End Calls.
End EncoderCallProofs.

(** ** The stride of the subsampling stack *)

Module StrideProofs.
Import AugmentedMemoryConvTransformerEncoder.

Lemma first_stride_ok (layer : ConvLayer) :
  layer <> Some [] -> first_stride layer = Ok (stride_of layer).
Proof. destruct layer as [[|s l]|]; [congruence | reflexivity ..]. Qed.

Lemma generate_ok (conv : list ConvLayer) :
  Forall (fun layer => layer <> Some []) conv ->
  generate first_stride conv = Ok (map stride_of conv).
Proof.
  induction 1 as [|layer conv Hl _ IH]; [reflexivity|].
  cbn [generate map]. rewrite first_stride_ok, IH by assumption.
  reflexivity.
Qed.

Lemma generate_empty_tuple (conv : list ConvLayer) :
  In (Some []) conv -> generate first_stride conv = Raise IndexError.
Proof.
  induction conv as [|layer conv IH]; intros Hin; [contradiction|].
  cbn [generate].
  destruct layer as [[|s l]|]; [reflexivity | |];
    (destruct Hin as [Heq | Hin]; [discriminate|]);
    rewrite first_stride_ok, IH by (assumption || discriminate);
    reflexivity.
Qed.

Lemma fold_left_mul (l : list Z) (a : Z) :
  fold_left Z.mul l a = (a * fold_right Z.mul 1 l)%Z.
Proof.
  revert a. induction l as [|b l IH]; intros a; cbn [fold_left fold_right].
  - lia.
  - rewrite IH. lia.
Qed.

(** X17.  [stride] multiplies the first entries of the [stride]
    attributes of the layers of the subsampling stack, a layer without
    the attribute counting for one.  It raises [TypeError] on an empty
    stack ([reduce] has no initial value) and [IndexError] when some
    layer's [stride] is an empty tuple. *)
Theorem stride_is_product (conv : list ConvLayer) :
  stride conv
  = match conv with
    | [] => Raise TypeError
    | _ :: _ =>
        if existsb empty_stride conv then Raise IndexError
        else Ok (fold_right Z.mul 1%Z (map stride_of conv))
    end.
Proof.
  destruct conv as [|layer conv]; [reflexivity|].
  set (c := layer :: conv).
  destruct (existsb empty_stride c) eqn:Hex.
  - apply existsb_exists in Hex. destruct Hex as (l0 & Hin & Hl0).
    destruct l0 as [[|]|]; try discriminate.
    unfold stride. now rewrite generate_empty_tuple.
  - assert (Hall : Forall (fun l0 : ConvLayer => l0 <> Some []) c).
    { apply Forall_forall. intros l0 Hin ->.
      assert (H : existsb empty_stride c = true); [|congruence].
      apply existsb_exists. exists (Some []). auto. }
    unfold stride. rewrite generate_ok by assumption.
    unfold c. cbn [bind map reduce fold_right]. f_equal.
    apply fold_left_mul.
Qed.
End StrideProofs.

(** ** The laws hold in the rational instance *)

Module RationalLaws.
Import RationalFloat.

Lemma this_plus (a b : Qc) : (this (a + b)%Qc == this a + this b)%Q.
Proof. apply Qred_correct. Qed.

Lemma this_mult (a b : Qc) : (this (a * b)%Qc == this a * this b)%Q.
Proof. apply Qred_correct. Qed.

Lemma this_opp (a : Qc) : (this (- a)%Qc == - this a)%Q.
Proof. apply Qred_correct. Qed.

Lemma this_inv (a : Qc) : (this (/ a)%Qc == / this a)%Q.
Proof. apply Qred_correct. Qed.

Lemma this_div (a b : Qc) : (this (a / b)%Qc == this a / this b)%Q.
Proof. unfold Qcdiv. rewrite this_mult, this_inv. reflexivity. Qed.

Lemma this_Q2Qc (q : Q) : (this (Q2Qc q) == q)%Q.
Proof. apply Qred_correct. Qed.

(** An order statement on canonical rationals as one on rationals. *)
Ltac to_Q :=
  unfold Qclt, Qcle, q0, q1 in *;
  repeat (rewrite ?this_plus, ?this_mult, ?this_opp, ?this_div, ?this_inv,
            ?this_Q2Qc in * ).

Lemma taylor_pos (q : Qc) : (q0 <= q)%Qc -> (q0 < taylor q)%Qc.
Proof.
  unfold taylor. to_Q. intros H.
  assert (H2 : (0 <= this q * this q)%Q) by nra.
  assert (H3 : (0 <= this q * this q * this q)%Q) by nra.
  assert (H4 : (0 <= this q * this q * this q * this q)%Q) by nra.
  unfold Qdiv.
  setoid_replace (/ 2)%Q with (1 # 2)%Q by reflexivity.
  setoid_replace (/ 6)%Q with (1 # 6)%Q by reflexivity.
  setoid_replace (/ 24)%Q with (1 # 24)%Q by reflexivity.
  lra.
Qed.

Lemma exp_q_pos (q : Qc) : (q0 < exp_q q)%Qc.
Proof.
  unfold exp_q, sgn.
  destruct (Qccompare q q0) eqn:E.
  - apply taylor_pos. apply Qceq_alt in E. subst. unfold Qcle. apply Qle_refl.
  - apply Qclt_alt in E.
    assert (T : (q0 < taylor (- q))%Qc).
    { apply taylor_pos. revert E. to_Q. intros. lra. }
    revert T. unfold Qclt. rewrite this_inv. unfold q0. rewrite !this_Q2Qc.
    apply Qinv_lt_0_compat.
  - apply taylor_pos. apply Qcgt_alt in E. apply Qclt_le_weak. exact E.
Qed.

Lemma add_zero_r (a : num) : add a (Fin q0) = a.
Proof.
  destruct a; simpl; auto. f_equal. apply Qcplus_0_r.
Qed.

Lemma sub_neg_inf (y : num) : sub NInf y = NInf \/ isnan (sub NInf y) = true.
Proof. destruct y; simpl; auto. Qed.

Lemma div_zero_l (s : num) :
  div (Fin q0) s = Fin q0 \/ isnan (div (Fin q0) s) = true.
Proof.
  destruct s as [| | |b]; cbn [div isnan]; auto.
  destruct (sgn b); auto; left; f_equal; apply Qcmult_0_l.
Qed.

Lemma mul_zero_l (m : num) :
  mul (Fin q0) m = Fin q0 \/ isnan (mul (Fin q0) m) = true.
Proof.
  destruct m as [| | |b]; cbn [mul isnan]; auto.
  left. f_equal. apply Qcmult_0_l.
Qed.

Lemma max_choice (x y : num) : max x y = x \/ max x y = y.
Proof.
  destruct x, y; simpl; auto;
    match goal with |- context [if ?b then _ else _] => destruct b end; auto.
Qed.

Lemma score_cases (x : num) :
  is_score x -> (exists a, x = Fin a) \/ x = NInf.
Proof.
  intros [H | H]; [left | right; exact H].
  destruct x; try discriminate. eauto.
Qed.

Lemma max_finite_l (x y : num) :
  isfinite x = true -> is_score y -> isfinite (max x y) = true.
Proof.
  intros Hx Hy. destruct x as [| | |a]; try discriminate.
  destruct (score_cases Hy) as [[b ->] | ->]; simpl; auto.
  destruct (Qccompare a b); reflexivity.
Qed.

Lemma max_finite_r (x y : num) :
  is_score x -> isfinite y = true -> isfinite (max x y) = true.
Proof.
  intros Hx Hy. destruct y as [| | |b]; try discriminate.
  destruct (score_cases Hx) as [[a ->] | ->]; simpl; auto.
  destruct (Qccompare a b); reflexivity.
Qed.

Lemma sub_self (x : num) : isfinite x = true -> sub x x = Fin q0.
Proof.
  destruct x as [| | |a]; try discriminate. intros _. simpl.
  f_equal. apply Qcplus_opp_r.
Qed.

Lemma sub_score (x y : num) :
  is_score x -> isfinite y = true -> isnan (sub x y) = false.
Proof.
  intros Hx Hy. destruct y as [| | |b]; try discriminate.
  destruct (score_cases Hx) as [[a ->] | ->]; reflexivity.
Qed.

Lemma exp_zero : exp (Fin q0) = Fin q1.
Proof. cbn [exp]. f_equal. Qed.

Lemma pos_fin (a : Qc) : lt (Fin q0) (Fin a) = true <-> (q0 < a)%Qc.
Proof.
  simpl. rewrite Qclt_alt. destruct (Qccompare q0 a); split; congruence.
Qed.

Lemma nonneg_fin (a : Qc) : nonneg (Fin a) <-> (q0 <= a)%Qc.
Proof.
  unfold nonneg. cbn [fzero flt ops]. rewrite pos_fin. split.
  - intros [E | H].
    + injection E as ->. unfold Qcle. apply Qle_refl.
    + now apply Qclt_le_weak.
  - intros H. destruct (Qcle_lt_or_eq _ _ H) as [H' | <-]; auto.
Qed.

Lemma exp_nonneg (x : num) : isnan x = false -> nonneg (exp x).
Proof.
  destruct x as [| | |a]; try discriminate; intros _; simpl.
  - now left.
  - now right.
  - apply nonneg_fin, Qclt_le_weak, exp_q_pos.
Qed.

Lemma nonneg_cases (x : num) :
  nonneg x -> x = PInf \/ exists a, x = Fin a /\ (q0 <= a)%Qc.
Proof.
  intros H. destruct x as [| | |a].
  - destruct H; discriminate.
  - destruct H; discriminate.
  - now left.
  - right. exists a. split; auto. now apply nonneg_fin.
Qed.

Lemma pos_cases (x : num) :
  lt (Fin q0) x = true -> x = PInf \/ exists a, x = Fin a /\ (q0 < a)%Qc.
Proof.
  intros H. destruct x as [| | |a]; try discriminate.
  - now left.
  - right. exists a. split; auto. now apply pos_fin.
Qed.

Lemma add_nonneg (a b : num) : nonneg a -> nonneg b -> nonneg (add a b).
Proof.
  intros Ha Hb.
  destruct (nonneg_cases Ha) as [-> | (x & -> & Hx)];
    destruct (nonneg_cases Hb) as [-> | (y & -> & Hy)]; simpl;
    try (right; reflexivity).
  apply nonneg_fin. revert Hx Hy. to_Q. intros. lra.
Qed.

Lemma add_pos_l (a b : num) :
  lt (Fin q0) a = true -> nonneg b -> lt (Fin q0) (add a b) = true.
Proof.
  intros Ha Hb.
  destruct (pos_cases _ Ha) as [-> | (x & -> & Hx)];
    destruct (nonneg_cases Hb) as [-> | (y & -> & Hy)];
    try reflexivity.
  apply pos_fin. revert Hx Hy. to_Q. intros. lra.
Qed.

Lemma add_pos_r (a b : num) :
  nonneg a -> lt (Fin q0) b = true -> lt (Fin q0) (add a b) = true.
Proof.
  intros Ha Hb.
  destruct (nonneg_cases Ha) as [-> | (x & -> & Hx)];
    destruct (pos_cases _ Hb) as [-> | (y & -> & Hy)];
    try reflexivity.
  apply pos_fin. revert Hx Hy. to_Q. intros. lra.
Qed.

Lemma div_zero_pos (s : num) : lt (Fin q0) s = true -> div (Fin q0) s = Fin q0.
Proof.
  intros H. destruct (pos_cases _ H) as [-> | (x & -> & Hx)]; auto.
  simpl. unfold sgn. apply Qcgt_alt in Hx. rewrite Hx.
  f_equal. apply Qcmult_0_l.
Qed.

#[export] Instance laws : FloatLaws num.
Proof.
  constructor.
  - exact add_zero_r.
  - reflexivity.
  - exact sub_neg_inf.
  - reflexivity.
  - intros [| | |]; simpl; congruence.
  - exact div_zero_l.
  - intros [| | |] s; simpl; congruence.
  - exact mul_zero_l.
  - intros [| | |] m; simpl; congruence.
  - exact max_choice.
  - exact max_finite_l.
  - exact max_finite_r.
  - intros [| | |]; simpl; congruence.
  - exact sub_self.
  - exact sub_score.
  - exact exp_zero.
  - exact exp_nonneg.
  - reflexivity.
  - exact add_nonneg.
  - exact add_pos_l.
  - exact add_pos_r.
  - exact div_zero_pos.
Defined.
End RationalLaws.

(* ================================================================== *)
(** * Part III: the theorems at concrete inputs *)
(* ================================================================== *)

Module Examples.
Import RationalFloat RationalLaws Scenario.
Import AugmentedMemoryMultiheadAttention AttentionProofs.

Lemma attention_suppression_spec_witness :
  0 < dim0 scores23 /\ 1 < dim1 scores23 /\ 2 < dim2 scores23
  /\ shape (attention_suppression scores23 half) = [1; 2; 3]
  /\ get3 (attention_suppression scores23 half) 0 1 2
     = if flt (nth 2 (softmax_row (row scores23 0 1)) fzero)
              (spec_threshold half (softmax_row (row scores23 0 1)))
       then neg_inf else get3 scores23 0 1 2.
Proof.
  assert (H0 : 0 < dim0 scores23) by (simpl; lia).
  assert (H1 : 1 < dim1 scores23) by (simpl; lia).
  assert (H2 : 2 < dim2 scores23) by (simpl; lia).
  destruct (attention_suppression_spec (laws := laws) scores23 half)
    as (Hs & _ & He).
  split; [exact H0|]. split; [exact H1|]. split; [exact H2|].
  split; [exact Hs|].
  exact (He 0 1 2 H0 H1 H2).
Defined.

Lemma attention_suppression_twice_witness :
  get3 (attention_suppression scores23 half) 0 1 2 = neg_inf
  /\ get3 (attention_suppression (attention_suppression scores23 half) half)
       0 1 2 = neg_inf.
Proof.
  assert (H : get3 (attention_suppression scores23 half) 0 1 2 = neg_inf)
    by (vm_compute; reflexivity).
  split; [exact H|].
  apply (@attention_suppression_twice _ _ scores23 half 0 1 2);
    [simpl; lia | simpl; lia | simpl; lia | exact H].
Defined.

Lemma attention_wf (cap : Z) : wf_module (attention cap).
Proof.
  repeat split; try (simpl; lia);
    destruct H as [<-|[<-|[<-|[<-|[]]]]]; reflexivity.
Qed.

Lemma segment_ok (cap : Z) : input_ok (attention cap) 4 1 segment.
Proof. split; [reflexivity | lia]. Qed.

Lemma three_calls_ok (cap : Z) : calls_ok (attention cap) 1 three_calls.
Proof.
  repeat constructor; exists 4; (split; [apply segment_ok | exact I]).
Qed.

(** The stored list after three segments under a cap of two. *)
Lemma memory_bank_cap_counterexample :
  max_memory_size (attention 2) = 2%Z
  /\ exists state,
       forward_all (attention 2) three_calls fresh = Ok state
       /\ bank_count state = 3
       /\ bank_count state <> Nat.min 3 2.
Proof.
  split; [reflexivity|].
  eexists. split; [vm_compute; reflexivity|].
  split; [reflexivity | discriminate].
Qed.

Lemma memory_bank_cap_witness :
  exists stored,
    forward_all (attention 2) three_calls fresh
    = Ok (mkState (Some stored) (encoder_states fresh))
    /\ length (retained_banks (attention 2) stored)
       = Nat.min (length three_calls) 2
    /\ length (retained_banks (attention 2) stored) <= 2
    /\ (2 = 0 -> retained_banks (attention 2) stored = []).
Proof.
  apply (@memory_bank_cap _ _ (attention 2) 1 2 three_calls fresh).
  - apply attention_wf.
  - reflexivity.
  - apply three_calls_ok.
  - reflexivity.
Defined.

Lemma forward_appends_one_witness :
  exists output next_m state',
    forward (attention 2) segment fresh None = Ok (output, state')
    /\ memory_banks state' = Some ([] ++ [next_m])
    /\ shape next_m = [1; 1; embed_dim (attention 2)]
    /\ bank_count state' = bank_count fresh + 1.
Proof.
  apply (@forward_appends_one _ _ (attention 2) segment fresh None 4 1 []).
  - apply attention_wf.
  - apply segment_ok.
  - reflexivity.
  - constructor.
  - exact I.
Defined.

Lemma forward_shapes_witness :
  exists loc output state',
    forward_locals (attention 2) segment fresh None = Ok loc
    /\ forward (attention 2) segment fresh None = Ok (output, state')
    /\ shape (l_scores loc) = [1 * 2; 4 + 1; 4 + length (l_memory_banks loc)]
    /\ shape (l_attention loc) = [1 * 2; 4 + 1; 4]
    /\ shape output = [4; 1; 2 * 4].
Proof.
  apply (@forward_shapes _ _ (attention 2) segment fresh None 4 1 []).
  - apply attention_wf.
  - apply segment_ok.
  - reflexivity.
  - constructor.
  - exact I.
Defined.

Lemma forward_mask_all_false_witness :
  forward (attention 2) segment fresh (Some no_padding)
  = forward (attention 2) segment fresh None.
Proof.
  apply forward_mask_all_false.
  intros b [<-|[<-|[<-|[<-|[]]]]]; reflexivity.
Defined.
Lemma one_bank_ok :
  memory_banks one_bank = Some one_bank_list
  /\ Forall (bank_ok (attention 2) 1) one_bank_list.
Proof.
  split.
  - vm_compute. reflexivity.
  - vm_compute. repeat constructor.
Qed.


Lemma summary_ignores_memory_witness :
  exists loc,
    forward_locals (attention 2) segment one_bank None = Ok loc
    /\ forall bh c,
         bh < 1 * num_heads (attention 2) -> c < length (l_memory_banks loc) ->
         get3 (l_attention_probs loc) bh 4 c = fzero
         /\ (Forall is_score (row (l_masked loc) bh 4) ->
             (exists c', length (l_memory_banks loc) <= c'
                         /\ c' < length (l_memory_banks loc) + 4
                         /\ get3 (l_masked loc) bh 4 c' <> neg_inf) ->
             get3 (l_softmax loc) bh 4 c = fzero).
Proof.
  apply (@summary_ignores_memory _ _ laws (attention 2) segment one_bank None
           4 1 one_bank_list).
  - apply attention_wf.
  - apply segment_ok.
  - apply one_bank_ok.
  - apply one_bank_ok.
  - exact I.
  - reflexivity.
Defined.


(** On a pre-norm layer the summary is not the mean of the layer input:
    the input frames have mean 3/2 at feature 1 of the core region, the
    summary row holds the mean of the normalised frames. *)
Lemma summary_query_counterexample :
  AugmentedMemoryTransformerEncoderLayer.normalize_before pre_norm_layer
  = true
  /\ (Z.of_nat
        (AugmentedMemoryTransformerEncoderLayer.left_context pre_norm_layer)
      <? Z.of_nat (dim0 frames)
         - Z.of_nat
             (AugmentedMemoryTransformerEncoderLayer.right_context
                pre_norm_layer))%Z
     = true
  /\ fdiv (fsum (map (fun i => get3 frames i 0 1) (seq 1 (4 - 1 - 1))))
          (fof_nat (4 - 1 - 1))
     = Fin (Q2Qc (3 # 2))
  /\ exists xs,
       AugmentedMemoryTransformerEncoderLayer.input_and_summary
         pre_norm_layer frames
       = Ok xs
       /\ get3 xs 4 0 1 <> Fin (Q2Qc (3 # 2)).
Proof.
  split; [reflexivity|]. split; [reflexivity|]. split.
  - vm_compute. reflexivity.
  - eexists. split; [vm_compute; reflexivity|].
    vm_compute. discriminate.
Qed.

Lemma summary_query_spec_witness :
  AugmentedMemoryTransformerEncoderLayer.pre_norm pre_norm_layer frames
  = (if AugmentedMemoryTransformerEncoderLayer.normalize_before
          pre_norm_layer
     then AugmentedMemoryTransformerEncoderLayer.self_attn_layer_norm
            pre_norm_layer frames
     else frames)
  /\ exists xs,
       AugmentedMemoryTransformerEncoderLayer.input_and_summary
         pre_norm_layer frames
       = Ok xs
       /\ shape xs = [4 + 1; 1; 8]
       /\ (forall i j k, i < 4 -> j < 1 -> k < 8 ->
             get3 xs i j k
             = get3 (AugmentedMemoryTransformerEncoderLayer.pre_norm
                       pre_norm_layer frames) i j k)
       /\ (forall j k, j < 1 -> k < 8 ->
             get3 xs 4 j k
             = if (Z.of_nat 1 <? Z.of_nat 4 - Z.of_nat 1)%Z
               then fdiv
                      (fsum
                         (map
                            (fun i =>
                               get3
                                 (AugmentedMemoryTransformerEncoderLayer.pre_norm
                                    pre_norm_layer frames) i j k)
                            (seq 1 (4 - 1 - 1))))
                      (fof_nat (4 - 1 - 1))
               else fzero).
Proof.
  apply (@LayerProofs.summary_query_spec _ _ pre_norm_layer frames).
  - reflexivity.
  - vm_compute. reflexivity.
Defined.

Lemma embedded_ok :
  AugmentedMemoryConvTransformerEncoder.embed encoder src_tokens [4]
  = Ok (fst embedded, snd embedded).
Proof. vm_compute. reflexivity. Qed.

Lemma layer_outputs_ok :
  AugmentedMemoryConvTransformerEncoder.layer_chain
    (AugmentedMemoryConvTransformerEncoder.transformer_layers encoder)
    (fst embedded)
    (AugmentedMemoryConvTransformerEncoder.initial_states encoder None)
    (snd embedded)
  = Ok layer_outputs
  /\ length layer_outputs = 2.
Proof. split; vm_compute; reflexivity. Qed.

Lemma encoder_forward_spec_witness :
  exists first final,
    AugmentedMemoryConvTransformerEncoder.forward encoder src_tokens [4] None
    = Ok (Some first,
          tabulate (mrows (snd embedded))
            (AugmentedMemoryConvTransformerEncoder.unpadded_count 1 1
               (snd embedded)),
          final)
    /\ Forall2
         (fun out st =>
            memory_banks st = memory_banks (snd out)
            /\ exists e,
                 encoder_states st = Some e
                 /\ AugmentedMemoryConvTransformerEncoder.is_trimmed 1 1
                      (fst out) e)
         layer_outputs final
    /\ exists outs' out_last final' st_last,
         layer_outputs = outs' ++ [out_last] /\ final = final' ++ [st_last]
         /\ encoder_states st_last = Some first
         /\ AugmentedMemoryConvTransformerEncoder.is_trimmed 1 1
              (fst out_last) first.
Proof.
  apply (@EncoderProofs.encoder_forward_spec _ _ encoder src_tokens [4] None
           (fst embedded) (snd embedded) layer_outputs).
  - apply embedded_ok.
  - reflexivity.
  - discriminate.
  - apply layer_outputs_ok.
Defined.
(** The summary row of the second segment: no weight on the memory bank,
    a quarter on each frame. *)
Lemma summary_row_example :
  exists loc,
    forward_locals (attention 2) segment one_bank None = Ok loc
    /\ length (l_memory_banks loc) = 1
    /\ Forall is_score (row (l_masked loc) 0 4)
    /\ get3 (l_masked loc) 0 4 0 = neg_inf
    /\ get3 (l_masked loc) 0 4 1 = half
    /\ get3 (l_softmax loc) 0 4 0 = fzero
    /\ get3 (l_softmax loc) 0 4 1 = Fin (Q2Qc (1 # 4)).
Proof.
  eexists. split; [vm_compute; reflexivity|].
  split; [reflexivity|]. split.
  - vm_compute. repeat constructor; (now left) || (now right).
  - repeat split; vm_compute; try reflexivity;
      f_equal; apply Qc_is_canon; reflexivity.
Qed.
(** *** The memory bank and the operator *)

Lemma forward_ignores_old_banks_witness :
  forward_locals (attention 2) segment
    (mkState (Some ([bank 1] ++ [bank 2; bank 3])) None) None
  = forward_locals (attention 2) segment
      (mkState (Some [bank 2; bank 3]) None) None
  /\ returned (forward (attention 2) segment
                 (mkState (Some ([bank 1] ++ [bank 2; bank 3])) None) None)
     = returned (forward (attention 2) segment
                   (mkState (Some [bank 2; bank 3]) None) None).
Proof.
  apply (@MemoryProofs.forward_ignores_old_banks _ _ (attention 2) segment
           [bank 1] [bank 2; bank 3] None None None).
  reflexivity.
Defined.

Lemma stored_banks_only_grow_witness :
  exists new,
    memory_banks after_three_calls = Some ([] ++ new)
    /\ length new = length three_calls
    /\ encoder_states after_three_calls = encoder_states fresh.
Proof.
  apply (@MemoryProofs.stored_banks_only_grow _ _ (attention 2) three_calls
           fresh after_three_calls []).
  - reflexivity.
  - vm_compute. reflexivity.
Defined.

Lemma forward_splits_output_witness :
  exists loc output next_m,
    forward_locals (attention 2) segment fresh None = Ok loc
    /\ forward (attention 2) segment fresh None
       = Ok (output, mkState (Some ([] ++ [next_m])) (encoder_states fresh))
    /\ (forall i j k, i < 4 -> j < 1 -> k < embed_dim (attention 2) ->
          get3 output i j k = get3 (l_output_and_memory loc) i j k)
    /\ (forall j k, j < 1 -> k < embed_dim (attention 2) ->
          get3 next_m 0 j k
          = if nonlinear_squash_mem (attention 2)
            then ftanh (get3 (l_output_and_memory loc) 4 j k)
            else get3 (l_output_and_memory loc) 4 j k).
Proof.
  apply (@OperatorProofs.forward_splits_output _ _ (attention 2) segment
           fresh None 4 1 []).
  - apply attention_wf.
  - apply segment_ok.
  - reflexivity.
  - constructor.
  - exact I.
Defined.

Lemma padding_spares_memory_witness :
  exists loc,
    forward_locals (attention 2) segment one_bank (Some last_padded) = Ok loc
    /\ (forall bh i c,
          bh < 1 * num_heads (attention 2) -> i < 4 + 1 ->
          c < length (l_memory_banks loc) ->
          get3 (l_masked loc) bh i c = get3 (l_scores loc) bh i c)
    /\ (forall b h i j,
          b < 1 -> h < num_heads (attention 2) -> i < 4 + 1 -> j < 4 ->
          get2 last_padded b j = false ->
          get3 (l_masked loc) (b * num_heads (attention 2) + h) i
               (length (l_memory_banks loc) + j)
          = get3 (l_scores loc) (b * num_heads (attention 2) + h) i
                 (length (l_memory_banks loc) + j)).
Proof.
  apply (@OperatorProofs.padding_spares_memory _ _ (attention 2) segment
           one_bank last_padded 4 1 one_bank_list).
  - apply attention_wf.
  - apply segment_ok.
  - apply one_bank_ok.
  - apply one_bank_ok.
  - split; reflexivity.
Defined.

Lemma forward_rejects_empty_input_witness :
  forward (attention 2) no_rows fresh None
  = Raise (if disable_mem_on_mem_attn (attention 2) then IndexError
           else AssertionError).
Proof.
  apply (@OperatorProofs.forward_rejects_empty_input _ _ (attention 2)
           no_rows fresh None 1 []).
  - apply attention_wf.
  - reflexivity.
  - lia.
  - reflexivity.
  - constructor.
Defined.

Lemma forward_rejects_misshapen_mask_witness :
  forward (attention 2) segment fresh (Some short_mask) = Raise RuntimeError.
Proof.
  apply (@OperatorProofs.forward_rejects_misshapen_mask _ _ (attention 2)
           segment fresh short_mask 4 1 []).
  - apply attention_wf.
  - apply segment_ok.
  - reflexivity.
  - constructor.
  - reflexivity.
  - right. split; [simpl; lia | discriminate].
Defined.

Lemma padded_key_probability_zero_witness :
  exists loc,
    forward_locals (attention 2) segment one_bank (Some last_padded) = Ok loc
    /\ forall h i,
         h < num_heads (attention 2) -> i < 4 + 1 ->
         get3 (l_attention_probs loc) (0 * num_heads (attention 2) + h) i
              (length (l_memory_banks loc) + 3) = fzero.
Proof.
  apply (@OperatorProofs.padded_key_probability_zero _ _ laws (attention 2)
           segment one_bank last_padded 4 1 0 3 one_bank_list).
  - apply attention_wf.
  - apply segment_ok.
  - apply one_bank_ok.
  - apply one_bank_ok.
  - split; reflexivity.
  - lia.
  - lia.
  - reflexivity.
Defined.

(** *** The layer and the encoder *)

Lemma uniform_attention_wf : wf_module uniform_attention.
Proof.
  repeat split; try (simpl; lia);
    destruct H as [<-|[<-|[<-|[<-|[]]]]]; reflexivity.
Qed.

Lemma layer_wf : AugmentedMemoryTransformerEncoderLayer.wf_layer layer.
Proof. split; [apply uniform_attention_wf|]. repeat split. Qed.

Lemma layers_wf :
  AugmentedMemoryConvTransformerEncoder.layers_ok 8
    (AugmentedMemoryConvTransformerEncoder.transformer_layers encoder).
Proof.
  repeat (apply Forall_cons; [split; [apply layer_wf | reflexivity]|]).
  apply Forall_nil.
Qed.

Lemma embedded_shape :
  shape (fst embedded) = [4; 1; 8]
  /\ mrows (snd embedded) = 1 /\ mcols (snd embedded) = 4.
Proof. repeat split; vm_compute; reflexivity. Qed.

Lemma layer_forward_spec_witness :
  (exists y state',
     AugmentedMemoryTransformerEncoderLayer.forward layer frames
       (mkState None None) (Some no_padding) = Ok (y, state')
     /\ shape y = shape frames
     /\ encoder_states state' = encoder_states (mkState None None)
     /\ exists next_m,
          memory_banks state'
          = Some (stored_banks (mkState None None) ++ [next_m])
          /\ shape next_m = [1; 1; 8])
  /\ AugmentedMemoryTransformerEncoderLayer.forward layer frames
       (mkState None (encoder_states (mkState None None))) (Some no_padding)
     = AugmentedMemoryTransformerEncoderLayer.forward layer frames
         (mkState (Some []) (encoder_states (mkState None None)))
         (Some no_padding)
  /\ (forall xs,
        forward uniform_attention xs
          (mkState None (encoder_states (mkState None None)))
          (Some no_padding)
        = Raise TypeError).
Proof.
  apply (@LayerForwardProofs.layer_forward_spec _ _ layer frames
           (mkState None None) (Some no_padding) 4 1 8).
  - apply layer_wf.
  - reflexivity.
  - reflexivity.
  - lia.
  - constructor.
  - split; reflexivity.
Defined.

Lemma summary_covers_stored_segment_witness :
  AugmentedMemoryTransformerEncoderLayer.summarization_query pre_norm_layer
    frames
  = (if 0 <? dim0 (AugmentedMemoryConvTransformerEncoder.trim_context
                     encoder
                     (AugmentedMemoryTransformerEncoderLayer.pre_norm
                        pre_norm_layer frames))
     then AugmentedMemoryTransformerEncoderLayer.summarize_segment
            (AugmentedMemoryConvTransformerEncoder.trim_context encoder
               (AugmentedMemoryTransformerEncoderLayer.pre_norm
                  pre_norm_layer frames))
     else init3 1 (dim1 frames) (dim2 frames) (fun _ _ _ => fzero))
  /\ AugmentedMemoryTransformerEncoderLayer.pre_norm pre_norm_layer frames
     = (if AugmentedMemoryTransformerEncoderLayer.normalize_before
             pre_norm_layer
        then AugmentedMemoryTransformerEncoderLayer.self_attn_layer_norm
               pre_norm_layer frames
        else frames).
Proof.
  apply (@EncoderCallProofs.summary_covers_stored_segment _ _ encoder
           pre_norm_layer frames); reflexivity.
Defined.

Lemma encoder_forward_step_witness :
  exists outs' out_last lengths final,
    AugmentedMemoryConvTransformerEncoder.layer_chain
      (AugmentedMemoryConvTransformerEncoder.transformer_layers encoder)
      (fst embedded) stream_states (snd embedded)
    = Ok (outs' ++ [out_last])
    /\ AugmentedMemoryConvTransformerEncoder.forward encoder src_tokens [4]
         (Some stream_states)
       = Ok (Some (AugmentedMemoryConvTransformerEncoder.trim_context encoder
                     (fst out_last)),
             lengths, final)
    /\ Forall2 (AugmentedMemoryConvTransformerEncoder.layer_step 8 1 4)
         stream_states (outs' ++ [out_last])
    /\ Forall2 (AugmentedMemoryConvTransformerEncoder.stored_step encoder)
         (outs' ++ [out_last]) final
    /\ shape (AugmentedMemoryConvTransformerEncoder.trim_context encoder
                (fst out_last))
       = [4 - 1 - 1; 1; 8]
    /\ length final
       = length
           (AugmentedMemoryConvTransformerEncoder.transformer_layers encoder)
    /\ AugmentedMemoryConvTransformerEncoder.states_ok 8 1 final.
Proof.
  apply (@EncoderCallProofs.encoder_forward_step _ _ encoder src_tokens [4]
           stream_states (fst embedded) (snd embedded) 4 1 8).
  - apply embedded_ok.
  - apply embedded_shape.
  - lia.
  - apply embedded_shape.
  - apply embedded_shape.
  - apply layers_wf.
  - discriminate.
  - reflexivity.
  - repeat constructor.
Defined.

Lemma encoder_first_call_witness :
  exists outs' out_last lengths final,
    AugmentedMemoryConvTransformerEncoder.layer_chain
      (AugmentedMemoryConvTransformerEncoder.transformer_layers encoder)
      (fst embedded)
      (map (fun _ => mkState None None)
         (AugmentedMemoryConvTransformerEncoder.transformer_layers encoder))
      (snd embedded)
    = Ok (outs' ++ [out_last])
    /\ AugmentedMemoryConvTransformerEncoder.forward encoder src_tokens [4]
         None
       = Ok (Some (AugmentedMemoryConvTransformerEncoder.trim_context encoder
                     (fst out_last)),
             lengths, final)
    /\ length final
       = length
           (AugmentedMemoryConvTransformerEncoder.transformer_layers encoder)
    /\ Forall2
         (fun out st' =>
            shape (fst out) = [4; 1; 8]
            /\ encoder_states st'
               = Some (AugmentedMemoryConvTransformerEncoder.trim_context
                         encoder (fst out))
            /\ shape (AugmentedMemoryConvTransformerEncoder.trim_context
                        encoder (fst out))
               = [4 - 1 - 1; 1; 8]
            /\ exists next_m,
                 memory_banks st' = Some [next_m]
                 /\ memory_banks (snd out) = Some [next_m]
                 /\ shape next_m = [1; 1; 8])
         (outs' ++ [out_last]) final.
Proof.
  apply (@EncoderCallProofs.encoder_first_call _ _ encoder src_tokens [4]
           (fst embedded) (snd embedded) 4 1 8).
  - apply embedded_ok.
  - apply embedded_shape.
  - lia.
  - apply embedded_shape.
  - apply embedded_shape.
  - apply layers_wf.
  - discriminate.
Defined.

Lemma forward_missing_states_witness :
  exists outs,
    AugmentedMemoryConvTransformerEncoder.layer_chain
      (firstn (length [mkState (F := num) None None])
         (AugmentedMemoryConvTransformerEncoder.transformer_layers encoder))
      (fst embedded) [mkState None None] (snd embedded)
    = Ok outs
    /\ Forall2 (AugmentedMemoryConvTransformerEncoder.layer_step 8 1 4)
         [mkState None None] outs
    /\ AugmentedMemoryConvTransformerEncoder.forward encoder src_tokens [4]
         (Some [mkState None None])
       = Raise IndexError.
Proof.
  apply (@EncoderCallProofs.forward_missing_states _ _ encoder src_tokens [4]
           [mkState None None] (fst embedded) (snd embedded) 4 1 8).
  - apply embedded_ok.
  - apply embedded_shape.
  - lia.
  - apply embedded_shape.
  - apply embedded_shape.
  - apply layers_wf.
  - repeat constructor.
  - simpl. lia.
Defined.

Lemma forward_surplus_states_witness :
  AugmentedMemoryConvTransformerEncoder.forward encoder src_tokens [4]
    (Some (AugmentedMemoryConvTransformerEncoder.initial_states encoder None
           ++ [] ++ [mkState None None]))
  = Ok (encoder_states (mkState None None),
        mask_count_false
          (AugmentedMemoryConvTransformerEncoder.trim_mask encoder
             (snd embedded)),
        map (AugmentedMemoryConvTransformerEncoder.finish encoder)
          layer_outputs
        ++ [] ++ [mkState None None]).
Proof.
  apply (@EncoderCallProofs.forward_surplus_states _ _ encoder src_tokens [4]
           (AugmentedMemoryConvTransformerEncoder.initial_states encoder None)
           [] (mkState None None) (fst embedded) (snd embedded)
           layer_outputs).
  - apply embedded_ok.
  - reflexivity.
  - apply layer_outputs_ok.
Defined.

Lemma encoded_ok :
  AugmentedMemoryConvTransformerEncoder.forward encoder src_tokens [4] None
  = Ok (fst (fst encoded), snd (fst encoded), snd encoded).
Proof. vm_compute. reflexivity. Qed.

Lemma returned_lengths_bounded_witness :
  length (snd (fst encoded)) = mrows (snd embedded)
  /\ Forall (fun n => (0 <= n <= Z.of_nat (mcols (snd embedded) - 1 - 1))%Z)
       (snd (fst encoded))
  /\ (mask_any (snd embedded) = false ->
      Forall (fun n => n = Z.of_nat (mcols (snd embedded) - 1 - 1))
        (snd (fst encoded))).
Proof.
  apply (@EncoderCallProofs.returned_lengths_bounded _ _ encoder src_tokens
           [4] None (fst embedded) (snd embedded) (fst (fst encoded))
           (snd (fst encoded)) (snd encoded)).
  - apply embedded_ok.
  - apply encoded_ok.
Defined.

Lemma forward_without_layers_witness :
  AugmentedMemoryConvTransformerEncoder.forward no_layers src_tokens [4] None
  = (_ <- AugmentedMemoryConvTransformerEncoder.embed no_layers src_tokens [4]
     ;; Raise IndexError).
Proof.
  apply (@EncoderCallProofs.forward_without_layers _ _ no_layers src_tokens
           [4]).
  reflexivity.
Defined.
End Examples.
